(** * Pixelator + quantizer: the transformation pipeline of [src/lib/core.ts]
      and the request logic of [src/routes/+page.svelte].

    The TypeScript code is embedded shallowly:
    - a [Uint8ClampedArray] is a [list Z]; reading outside the array gives
      [undefined] ([None]), writing outside it does nothing, and every write
      goes through the clamped conversion [to_u8c];
    - JavaScript numbers that take part in arithmetic are [num := option Z],
      [None] standing for [undefined]/[NaN] (both behave alike under [-], [*],
      [+], [<] and the clamped store, the only operations applied to them);
    - [for] loops are the combinator [for_loop], which carries the loop
      variable, the bound and the increment of the source loop;
    - typed arrays live in a store [gmap loc (list Z)] so that the copy made
      by [processImage] and the caller's buffer are distinct objects;
    - [Math.random] is an explicit sequence of draws [rng := nat -> Q]
      threaded with a counter;
    - a thrown [TypeError] is [None];
    - parameters: [blockSize] is a rational number (any finite value,
      fractional or negative; [NaN] and the infinities are not
      represented), [paletteSize] and [maxIters] are integers, widths and
      heights are integers.  All quantities of the source stay far below
      2^53, so integer arithmetic agrees with the arithmetic on doubles. *)

From Stdlib Require Import ZArith QArith Qround Lia.
From stdpp Require Import base option list gmap.

Local Open Scope Z_scope.

(* ===================================================================== *)
(** * Definitions *)
(* ===================================================================== *)

(** ** Loops *)

(** [for (let i = i0; i < bound; i += step) s = body i s].  The fuel
    [bound - i0] is enough whenever [1 <= step] (lemma [for_loop_unfold]);
    every loop of the source has such a step. *)
Fixpoint for_fuel {S : Type} (fuel : nat) (i bound step : Z)
    (body : Z -> S -> S) (s : S) : S :=
  match fuel with
  | O => s
  | Datatypes.S fuel' =>
      if i <? bound
      then for_fuel fuel' (i + step) bound step body (body i s)
      else s
  end.

Definition for_loop {S : Type} (i bound step : Z)
    (body : Z -> S -> S) (s : S) : S :=
  for_fuel (Z.to_nat (bound - i)) i bound step body s.

(** ** Arrays and numbers *)

(** [a[i]] for a numeric index: [undefined] outside the array. *)
Definition lookupZ {A : Type} (a : list A) (i : Z) : option A :=
  if 0 <=? i then a !! Z.to_nat i else None.

(** A number or [undefined]/[NaN]. *)
Abbreviation num := (option Z).

Definition num_op (f : Z -> Z -> Z) (a b : num) : num :=
  match a, b with
  | Some x, Some y => Some (f x y)
  | _, _ => None
  end.

(** Conversion applied by a store into a [Uint8ClampedArray]:
    clamp to [0, 255]; [NaN] and [undefined] become 0. *)
Definition clamp8 (v : Z) : Z := Z.max 0 (Z.min 255 v).

Definition to_u8c (v : num) : Z :=
  match v with
  | Some z => clamp8 z
  | None => 0
  end.

(** [a[i] = v] on a [Uint8ClampedArray]: ignored outside the array. *)
Definition store8 (a : list Z) (i : Z) (v : num) : list Z :=
  if 0 <=? i then <[Z.to_nat i := to_u8c v]> a else a.

(** ** Colours and nearest-colour search *)

(** [type RGB = [number, number, number]]. *)
Abbreviation RGB := (num * num * num)%type.

(** Values taken by [bestDist]: [Infinity] or a distance already seen. *)
Inductive dbound : Type :=
  | Infinity
  | Finite (d : Z).

(** [dist < bestDist]; a comparison with [NaN] is false. *)
Definition lt_bound (dist : num) (b : dbound) : bool :=
  match dist, b with
  | Some x, Infinity => true
  | Some x, Finite y => x <? y
  | None, _ => false
  end.

(** [dr * dr + dg * dg + db * db]. *)
Definition dist2 (p center : RGB) : num :=
  let '(p0, p1, p2) := p in
  let '(c0, c1, c2) := center in
  let dr := num_op Z.sub p0 c0 in
  let dg := num_op Z.sub p1 c1 in
  let db := num_op Z.sub p2 c2 in
  num_op Z.add (num_op Z.add (num_op Z.mul dr dr) (num_op Z.mul dg dg))
               (num_op Z.mul db db).

(** The scan [for (let c = 0; c < centers.length; c++)] with its two
    accumulators; [cs] is the part of the array from index [c] on.  The
    same scan occurs in [buildPalette] (over [centers]) and in
    [qunatizeImage] (over [palette]). *)
Fixpoint nearest_from (p : RGB) (cs : list RGB) (c : nat)
    (bestIdx : nat) (bestDist : dbound) : nat :=
  match cs with
  | [] => bestIdx
  | center :: rest =>
      match dist2 p center with
      | Some dist =>
          if lt_bound (Some dist) bestDist
          then nearest_from p rest (S c) c (Finite dist)
          else nearest_from p rest (S c) bestIdx bestDist
      | None => nearest_from p rest (S c) bestIdx bestDist
      end
  end.

Definition nearest (cs : list RGB) (p : RGB) : nat :=
  nearest_from p cs 0%nat 0%nat Infinity.

(** ** pixelateImage *)

(** The four stores of the innermost loop body. *)
Definition fill_pixel (width : Z) (r g b a : num) (y x : Z)
    (data : list Z) : list Z :=
  let idx := (y * width + x) * 4 in
  store8 (store8 (store8 (store8 data idx r) (idx + 1) g) (idx + 2) b)
         (idx + 3) a.

(** Body of the [bx] loop: one block. *)
Definition pixelate_block (width height size by_ bx : Z)
    (data : list Z) : list Z :=
  let cx := Z.min (bx + size / 2) (width - 1) in
  let cy := Z.min (by_ + size / 2) (height - 1) in
  let cIdx := (cy * width + cx) * 4 in
  let r := lookupZ data cIdx in
  let g := lookupZ data (cIdx + 1) in
  let b := lookupZ data (cIdx + 2) in
  let a := lookupZ data (cIdx + 3) in
  let maxY := Z.min (by_ + size) height in
  let maxX := Z.min (bx + size) width in
  for_loop by_ maxY 1
    (fun y d => for_loop bx maxX 1 (fill_pixel width r g b a y) d) data.

(** [size = Math.max(1, Math.floor(blockSize))]. *)
Definition block_size (blockSize : Q) : Z := Z.max 1 (Qfloor blockSize).

(** The whole of [pixelateImage] on the bytes of the image. *)
Definition pixelate_data (width height : Z) (blockSize : Q)
    (data : list Z) : list Z :=
  let size := block_size blockSize in
  for_loop 0 height size
    (fun by_ d =>
       for_loop 0 width size (pixelate_block width height size by_) d)
    data.

(** ** buildPalette *)

(** The sampling loop, lines 36-46: one sample every [step] pixels. *)
Definition sample_step (totalPixels : Z) : Z :=
  Z.max 1 (totalPixels / 5000).

Definition read_rgb (data : list Z) (i : Z) : RGB :=
  let idx := i * 4 in
  (lookupZ data idx, lookupZ data (idx + 1), lookupZ data (idx + 2)).

Definition collect_samples (width height : Z) (data : list Z) : list RGB :=
  let totalPixels := width * height in
  for_loop 0 totalPixels (sample_step totalPixels)
    (fun i samples => samples ++ [read_rgb data i]) [].

(** The random source: [r n] is the value of the [n]-th call of
    [Math.random()], a number of [[0, 1)]. *)
Definition rng : Type := nat -> Q.

Definition valid_rng (r : rng) : Prop :=
  forall n : nat, (0 <= r n)%Q /\ (r n < 1)%Q.

(** [samples[Math.floor(Math.random() * samples.length)]] followed by the
    copy [[s[0], s[1], s[2]]]; reading a component of [undefined] throws. *)
Definition random_sample (r : rng) (samples : list RGB) (n : nat)
    : option (RGB * nat) :=
  let i := Qfloor (r n * inject_Z (Z.of_nat (length samples))) in
  s ← lookupZ samples i;
  Some (s, S n).

(** Lines 50-54: [k] random seeds. *)
Definition seed_centers (r : rng) (samples : list RGB) (k : Z) (n : nat)
    : option (list RGB * nat) :=
  for_loop 0 k 1
    (fun _ st =>
       '(centers, n) ← st;
       '(s, n') ← random_sample r samples n;
       Some (centers ++ [s], n'))
    (Some ([], n)).

(** Lines 85-92, one sample: [sums[c][j] += p[j]; counts[c] += 1].
    [sums[c]] is read first and throws when [c] is outside [sums]; [sums]
    and [counts] have the same length, so [counts[c]] exists whenever this
    point is passed. *)
Definition add_sample (acc : list RGB * list Z) (pc : RGB * nat)
    : option (list RGB * list Z) :=
  let '(sums, counts) := acc in
  let '((p0, p1, p2), c) := pc in
  '(s0, s1, s2) ← sums !! c;
  cnt ← counts !! c;
  Some (<[c := (num_op Z.add s0 p0, num_op Z.add s1 p1, num_op Z.add s2 p2)]> sums,
        <[c := cnt + 1]> counts).

Fixpoint accumulate (pcs : list (RGB * nat)) (acc : list RGB * list Z)
    : option (list RGB * list Z) :=
  match pcs with
  | [] => Some acc
  | pc :: rest => acc' ← add_sample acc pc; accumulate rest acc'
  end.

(** [Math.round(s / cnt)] for an integer [s] and a count [cnt > 0]:
    [floor(s / cnt + 1/2)]. *)
Definition round_div (s : num) (cnt : Z) : num :=
  match s with
  | Some x => Some ((2 * x + cnt) / (2 * cnt))
  | None => None
  end.

(** Lines 94-103, one centroid.  [counts[c] > 0] is false for
    [undefined].  Assigning to a component of a missing [centers[c]] or
    reading one of a missing [sums[c]] throws; [centers[c] = ...] beyond
    the end of [centers] is not reached ([centers] has [k] entries) and is
    treated like a throw. *)
Definition update_center (r : rng) (samples sums : list RGB)
    (counts : list Z) (c : Z) (st : list RGB * nat)
    : option (list RGB * nat) :=
  let '(centers, n) := st in
  match lookupZ counts c with
  | Some cnt =>
      if 0 <? cnt
      then
        _ ← lookupZ centers c;
        '(s0, s1, s2) ← lookupZ sums c;
        Some (<[Z.to_nat c := (round_div s0 cnt, round_div s1 cnt, round_div s2 cnt)]> centers, n)
      else
        '(s, n') ← random_sample r samples n;
        _ ← lookupZ centers c;
        Some (<[Z.to_nat c := s]> centers, n')
  | None =>
      '(s, n') ← random_sample r samples n;
      _ ← lookupZ centers c;
      Some (<[Z.to_nat c := s]> centers, n')
  end.

(** Lines 58-104, one iteration: assignment, accumulation, update. *)
Definition kmeans_iter (r : rng) (samples : list RGB) (k : Z)
    (st : list RGB * nat) : option (list RGB * nat) :=
  let '(centers, n) := st in
  let assignments := map (nearest centers) samples in
  let sums := replicate (Z.to_nat k) (Some 0, Some 0, Some 0) in
  let counts := replicate (Z.to_nat k) 0 in
  '(sums, counts) ← accumulate (zip samples assignments) (sums, counts);
  for_loop 0 k 1
    (fun c st => st ≫= update_center r samples sums counts c)
    (Some (centers, n)).

(** [k = Math.max(1, Math.min(k, 256))]. *)
Definition clamp_k (k : Z) : Z := Z.max 1 (Z.min k 256).

(** [buildPalette] on the bytes of the image; the result carries the
    number of random draws made so far. *)
Definition build_palette (r : rng) (width height : Z) (data : list Z)
    (k maxIters : Z) (n : nat) : option (list RGB * nat) :=
  let k := clamp_k k in
  let samples := collect_samples width height data in
  if (length samples =? 0)%nat then Some ([(Some 0, Some 0, Some 0)], n)
  else
    for_loop 0 maxIters 1
      (fun _ st => st ≫= kmeans_iter r samples k)
      (seed_centers r samples k n).

(** ** qunatizeImage *)

(** Body of the pixel loop, lines 117-141;
    destructuring a missing [palette[bestIdx]] throws. *)
Definition quantize_pixel (palette : list RGB) (i : Z) (data : list Z)
    : option (list Z) :=
  let idx := i * 4 in
  let bestIdx := nearest palette (read_rgb data i) in
  '(nr, ng, nb) ← palette !! bestIdx;
  Some (store8 (store8 (store8 data idx nr) (idx + 1) ng) (idx + 2) nb).

(** [n = data.length / 4] may be fractional; for an integer [i],
    [i < n] holds exactly when [i < ceil(n)].  A throw can only happen at
    the first pixel (the palette is empty), before any store. *)
Definition quantize_data (palette : list RGB) (data : list Z)
    : option (list Z) :=
  for_loop 0 ((Z.of_nat (length data) + 3) / 4) 1
    (fun i st => st ≫= quantize_pixel palette i) (Some data).

(** ** The store, and the functions of [core.ts] on it *)

Definition loc : Type := positive.

(** [ImageData]: the dimensions and a reference to the pixel array. *)
Record ImageData : Type := mkImageData {
  width : Z;
  height : Z;
  data : loc
}.

(** The bytes of the array at [l] (an [ImageData] always refers to an
    array of the store; [[]] stands for a reference to none). *)
Definition bytes_of (σ : gmap loc (list Z)) (l : loc) : list Z :=
  default [] (σ !! l).

Definition buildPalette (r : rng) (σ : gmap loc (list Z))
    (imageData : ImageData) (k maxIters : Z) (n : nat)
    : option (list RGB * nat) :=
  build_palette r (width imageData) (height imageData)
    (bytes_of σ (data imageData)) k maxIters n.

Definition qunatizeImage (σ : gmap loc (list Z)) (imageData : ImageData)
    (palette : list RGB) : option (gmap loc (list Z)) :=
  d ← quantize_data palette (bytes_of σ (data imageData));
  Some (<[data imageData := d]> σ).

Definition pixelateImage (σ : gmap loc (list Z)) (imageData : ImageData)
    (blockSize : Q) : gmap loc (list Z) :=
  <[data imageData :=
      pixelate_data (width imageData) (height imageData) blockSize
        (bytes_of σ (data imageData))]> σ.

(** [new ImageData(new Uint8ClampedArray(data), width, height)]:
    a new array with the same bytes.  The constructor's own check of the
    length against the dimensions is passed by every buffer that is
    already an [ImageData], and is left out. *)
Definition copy_image (σ : gmap loc (list Z)) (source : ImageData)
    : gmap loc (list Z) * ImageData :=
  let l := fresh (dom σ) in
  (<[l := bytes_of σ (data source)]> σ,
   mkImageData (width source) (height source) l).

(** [processImage]: the final store, and the returned image with the
    number of random draws made, or [None] after a throw. *)
Definition processImage (r : rng) (n : nat) (σ : gmap loc (list Z))
    (source : ImageData) (pixelate : bool) (blockSize : Q)
    (quantize : bool) (paletteSize : Z) (maxKMeansIters : Z)
    : gmap loc (list Z) * option (ImageData * nat) :=
  let '(σ1, copy) := copy_image σ source in
  let quantized :=
    if quantize then
      match buildPalette r σ1 copy paletteSize maxKMeansIters n with
      | Some (palette, n') =>
          match qunatizeImage σ1 copy palette with
          | Some σ2 => (σ2, Some n')
          | None => (σ1, None)
          end
      | None => (σ1, None)
      end
    else (σ1, Some n) in
  match quantized with
  | (σ2, Some n') =>
      let σ3 := if pixelate then pixelateImage σ2 copy blockSize else σ2 in
      (σ3, Some (copy, n'))
  | (σ2, None) => (σ2, None)
  end.

(** ** The page: [processAndRender] and the worker's answer *)

(** The message posted to the worker (the image itself is left out). *)
Record request : Type := mkRequest {
  req_doPixelate : bool;
  req_blockSize : Q;
  req_doQuantize : bool;
  req_paletteSize : Z
}.

(** The module-level variables of the page that [processAndRender] uses,
    with the messages posted to the worker and the number of answers
    received so far. *)
Record page : Type := mkPage {
  has_worker : bool;
  has_image : bool;
  doPixelate : bool;
  blockSize : Q;
  doQuantize : bool;
  paletteSize : Z;
  isProcessing : bool;
  pendingRun : bool;
  posted : list request;
  answered : nat
}.

Definition set_flags (p : page) (processing pending : bool) : page :=
  mkPage (has_worker p) (has_image p) (doPixelate p) (blockSize p)
    (doQuantize p) (paletteSize p) processing pending (posted p)
    (answered p).

(** [worker.postMessage({ ..., doPixelate, blockSize, doQuantize,
    paletteSize })] with the live parameters.  A throw of [postMessage] is
    caught and logged and the [finally] block runs all the same, so the
    flags evolve as below in either case. *)
Definition post_message (p : page) : page :=
  mkPage (has_worker p) (has_image p) (doPixelate p) (blockSize p)
    (doQuantize p) (paletteSize p) (isProcessing p) (pendingRun p)
    (posted p ++ [mkRequest (doPixelate p) (blockSize p) (doQuantize p)
                    (paletteSize p)])
    (answered p).

(** [processAndRender], lines 137-163; [fuel] bounds the recursive call of
    the [finally] block ([None]: fuel exhausted). *)
Fixpoint processAndRender (fuel : nat) (p : page) : option page :=
  match fuel with
  | O => None
  | S fuel' =>
      if negb (has_worker p) || negb (has_image p) then Some p
      else if isProcessing p then Some (set_flags p (isProcessing p) true)
      else
        let p1 := set_flags p true (pendingRun p) in
        let p2 := post_message p1 in
        let p3 := set_flags p2 false (pendingRun p2) in
        if pendingRun p3
        then processAndRender fuel' (set_flags p3 (isProcessing p3) false)
        else Some p3
  end.

(** [worker.onmessage]: one more answer has arrived; no flag is touched. *)
Definition on_worker_message (p : page) : page :=
  mkPage (has_worker p) (has_image p) (doPixelate p) (blockSize p)
    (doQuantize p) (paletteSize p) (isProcessing p) (pendingRun p)
    (posted p) (S (answered p)).

(** Requests whose answer has not been received yet. *)
Definition in_flight (p : page) : nat := (length (posted p) - answered p)%nat.

(** What the user and the worker can do to the page. *)
Inductive event : Type :=
  | Request_render
  | Worker_answer
  | Set_params (px : bool) (bs : Q) (qz : bool) (ps : Z).

Definition set_params (p : page) (px : bool) (bs : Q) (qz : bool) (ps : Z)
    : page :=
  mkPage (has_worker p) (has_image p) px bs qz ps (isProcessing p)
    (pendingRun p) (posted p) (answered p).

Definition step (p : page) (e : event) : option page :=
  match e with
  | Request_render => processAndRender 2 p
  | Worker_answer => Some (on_worker_message p)
  | Set_params px bs qz ps => Some (set_params p px bs qz ps)
  end.

Fixpoint run (p : page) (es : list event) : option page :=
  match es with
  | [] => Some p
  | e :: rest => p' ← step p e; run p' rest
  end.

(** ** Vocabulary of the statements *)

(** Index of channel [c] of the pixel at column [x] and row [y]. *)
Definition pixel_index (width x y c : Z) : Z := (y * width + x) * 4 + c.

(** An [ImageData] buffer: [data.length = width * height * 4], all bytes. *)
Definition well_formed (width height : Z) (data : list Z) : Prop :=
  0 <= width /\ 0 <= height /\
  Z.of_nat (length data) = width * height * 4 /\
  Forall (fun b => 0 <= b <= 255) data.

(** The four channels of the pixel at [(x, y)]. *)
Definition rgba_at (width : Z) (data : list Z) (x y : Z)
    : option (Z * Z * Z * Z) :=
  r ← lookupZ data (pixel_index width x y 0);
  g ← lookupZ data (pixel_index width x y 1);
  b ← lookupZ data (pixel_index width x y 2);
  a ← lookupZ data (pixel_index width x y 3);
  Some (r, g, b, a).

(** Start of the block that contains coordinate [x]. *)
Definition block_origin (size x : Z) : Z := size * (x / size).

(** Coordinate of the representative pixel of the block that contains
    [x]: the block start plus [floor(size / 2)], clamped to the image. *)
Definition block_centre (size limit x : Z) : Z :=
  Z.min (block_origin size x + size / 2) (limit - 1).

Definition channel (r g b a : num) (c : Z) : num :=
  if c =? 0 then r else if c =? 1 then g else if c =? 2 then b else a.

(** Byte that pixelation must leave in channel [c] of pixel [(x, y)]. *)
Definition target (w h size : Z) (d : list Z) (x y c : Z) : option Z :=
  Some (to_u8c (lookupZ d
    (pixel_index w (block_centre size w x) (block_centre size h y) c))).

(** State of the buffer during pixelation: the pixels of [done] hold their
    final value, the others still hold the original one. *)
Definition painted (w h size : Z) (d : list Z) (done : Z -> Z -> Prop)
    (t : list Z) : Prop :=
  length t = length d /\
  forall x y c, 0 <= x < w -> 0 <= y < h -> 0 <= c < 4 ->
    (done x y -> lookupZ t (pixel_index w x y c) = target w h size d x y c) /\
    (~ done x y ->
       lookupZ t (pixel_index w x y c) = lookupZ d (pixel_index w x y c)).

(** ** A small store used to run the functions *)

(** A 2x2 image (red, green / blue, grey) at location 1. *)
Definition demo_bytes : list Z :=
  [255; 0; 0; 255;   0; 255; 0; 255;
   0; 0; 255; 255;   100; 100; 100; 128].

Definition demo_store : gmap loc (list Z) := {[ 1%positive := demo_bytes ]}.

Definition demo_image : ImageData := mkImageData 2 2 1%positive.

(** A random source that always returns 1/2. *)
Definition demo_rng : rng := fun _ => (1 # 2)%Q.

(** ** Vocabulary of the statements: colours *)

(** A colour of the data model: three 8-bit values. *)
Definition color : Type := (Z * Z * Z)%type.

Definition is_color (e : color) : Prop :=
  let '(r, g, b) := e in 0 <= r <= 255 /\ 0 <= g <= 255 /\ 0 <= b <= 255.

Definition rgb_of (e : color) : RGB :=
  let '(r, g, b) := e in (Some r, Some g, Some b).

(** Squared Euclidean distance in RGB space. *)
Definition sq_dist (p e : color) : Z :=
  let '(r, g, b) := p in
  let '(r', g', b') := e in
  (r - r') * (r - r') + (g - g') * (g - g') + (b - b') * (b - b').

(** [j] is the lowest index of a palette entry at minimum distance
    from [p]. *)
Definition first_nearest (palette : list color) (p : color) (j : nat) : Prop :=
  exists e, palette !! j = Some e /\
    (forall i e', palette !! i = Some e' -> sq_dist p e <= sq_dist p e') /\
    (forall i e', (i < j)%nat -> palette !! i = Some e' ->
       sq_dist p e < sq_dist p e').

(** The four channels of the [i]-th pixel of a buffer. *)
Definition pixel_rgba (data : list Z) (i : Z) : option (Z * Z * Z * Z) :=
  r ← lookupZ data (i * 4);
  g ← lookupZ data (i * 4 + 1);
  b ← lookupZ data (i * 4 + 2);
  a ← lookupZ data (i * 4 + 3);
  Some (r, g, b, a).

Definition rgb_channel (e : RGB) (c : Z) : num :=
  let '(r, g, b) := e in
  if c =? 0 then r else if c =? 1 then g else b.

(** Byte that palette application must leave at index [m]. *)
Definition quantized_byte (palette : list RGB) (d : list Z) (m : Z)
    : option Z :=
  if m mod 4 =? 3 then lookupZ d m
  else
    e ← palette !! nearest palette (read_rgb d (m / 4));
    Some (to_u8c (rgb_channel e (m mod 4))).

(** State of the scan after the entries [pre]. *)
Definition scanned (p : color) (pre : list color) (bestIdx : nat)
    (bestDist : dbound) : Prop :=
  match bestDist with
  | Infinity => pre = [] /\ bestIdx = 0%nat
  | Finite dj => first_nearest pre p bestIdx /\
      exists e, pre !! bestIdx = Some e /\ sq_dist p e = dj
  end.

(** State of the buffer when the pixel loop of [qunatizeImage] reaches
    pixel [i]: no throw so far, the bytes below [i * 4] are final, the
    others are still the original ones. *)
Definition quantizing (palette : list RGB) (d : list Z) (i : Z)
    (st : option (list Z)) : Prop :=
  exists t, st = Some t /\ length t = length d /\
    (forall m, 0 <= m < i * 4 -> m < Z.of_nat (length d) ->
       lookupZ t m = quantized_byte palette d m) /\
    (forall m, i * 4 <= m -> lookupZ t m = lookupZ d m).

(** ** Vocabulary of the statements: sampling *)

(** The sample set is smaller than the pixel population. *)
Definition proper_subsample (width height : Z) (data : list Z) : Prop :=
  Z.of_nat (length (collect_samples width height data)) < width * height.

(** The pixels at indices [0, step, 2 * step, ...], [n] of them. *)
Definition strided_pixels (data : list Z) (step : Z) (n : nat) : list RGB :=
  (fun j : nat => read_rgb data (Z.of_nat j * step)) <$> seq 0 n.

(** A 1x1 image at location 1. *)
Definition pixel_store : gmap loc (list Z) := {[ 1%positive := [10; 20; 30; 255] ]}.

Definition pixel_image : ImageData := mkImageData 1 1 1%positive.

(** The palette built for the image has a single entry. *)
Definition palette_of_size_one (r : rng) (σ : gmap loc (list Z))
    (img : ImageData) (k maxIters : Z) (n : nat) : Prop :=
  exists palette n',
    buildPalette r σ img k maxIters n = Some (palette, n') /\
    length palette = 1%nat.

(** ** Vocabulary of the statements: random draws *)

(** The two sources return equal numbers at the calls [lo], ..., [hi - 1]. *)
Definition agree_on (r1 r2 : rng) (lo hi : nat) : Prop :=
  forall m : nat, (lo <= m < hi)%nat -> (r1 m == r2 m)%Q.

(** Upper bound on the number of draws of one [buildPalette] call:
    [k] seeds, and at most [k] re-seeds in each iteration. *)
Definition max_draws (k maxIters : Z) : nat :=
  (Z.to_nat (clamp_k k) * (1 + Z.to_nat maxIters))%nat.

(** A random source equal to [demo_rng] for the first 100 calls only. *)
Definition demo_rng_late : rng :=
  fun n => if (n <? 100)%nat then (1 # 2)%Q else 0%Q.

(** The page once the worker is created and an image is loaded, with the
    initial values of the controls. *)
Definition initial_page : page :=
  mkPage true true true (16 # 1) true 16 false false [] 0.

(** Number of render requests in a sequence of events. *)
Fixpoint count_requests (es : list event) : nat :=
  match es with
  | [] => 0%nat
  | Request_render :: rest => S (count_requests rest)
  | _ :: rest => count_requests rest
  end.

(** ** Vocabulary of the statements: bytes *)

(** An [RGB] triple whose three components are 8-bit values. *)
Definition byte_rgb (e : RGB) : Prop :=
  match e with
  | (Some r, Some g, Some b) =>
      0 <= r <= 255 /\ 0 <= g <= 255 /\ 0 <= b <= 255
  | _ => False
  end.

(** State of one entry of [sums] and [counts] during accumulation: the
    count is not negative and each sum is that of [cnt] bytes at most. *)
Definition sum_ok (s : RGB) (cnt : Z) : Prop :=
  0 <= cnt /\
  match s with
  | (Some a, Some b, Some c) =>
      0 <= a <= 255 * cnt /\ 0 <= b <= 255 * cnt /\ 0 <= c <= 255 * cnt
  | _ => False
  end.

(** Every pixel of the image has the same four channel values. *)
Definition uniform (w h : Z) (d : list Z) (r g b a : Z) : Prop :=
  forall i, 0 <= i < w * h -> pixel_rgba d i = Some (r, g, b, a).

(** A 2x1 image of one colour at location 1. *)
Definition flat_bytes : list Z := [7; 8; 9; 255;  7; 8; 9; 255].

Definition flat_store : gmap loc (list Z) := {[ 1%positive := flat_bytes ]}.

Definition flat_image : ImageData := mkImageData 2 1 1%positive.

(** ** The worker: [self.onmessage] of [image-worker.ts] *)

(** The message received by the worker. *)
Record worker_request : Type := mkWorkerRequest {
  wr_width : Z;
  wr_height : Z;
  wr_data : loc;
  wr_doPixelate : bool;
  wr_blockSize : Q;
  wr_doQuantize : bool;
  wr_paletteSize : Z
}.

(** The message posted back: [{ width, height, buffer }]. *)
Record worker_response : Type := mkWorkerResponse {
  resp_width : Z;
  resp_height : Z;
  resp_buffer : loc
}.

(** [self.onmessage]: the pixel data of the message is copied into a new
    [ImageData], [processImage] runs on it with the default
    [maxKMeansIters = 8], and the dimensions and the array of the result
    are posted.  [None]: [processImage] threw and nothing is posted. *)
Definition worker_onmessage (r : rng) (n : nat) (σ : gmap loc (list Z))
    (msg : worker_request)
    : gmap loc (list Z) * option (worker_response * nat) :=
  let '(σ1, imageData) :=
    copy_image σ (mkImageData (wr_width msg) (wr_height msg) (wr_data msg)) in
  match processImage r n σ1 imageData (wr_doPixelate msg) (wr_blockSize msg)
          (wr_doQuantize msg) (wr_paletteSize msg) 8 with
  | (σ2, Some (processed, n')) =>
      (σ2, Some (mkWorkerResponse (width processed) (height processed)
                   (data processed), n'))
  | (σ2, None) => (σ2, None)
  end.

(** A request for the 2x2 image of [demo_store]. *)
Definition demo_request : worker_request :=
  mkWorkerRequest 2 2 1%positive true (2 # 1) true 2.

(** ** The page: vocabulary *)

(** The page can post: worker and image present, both flags clear. *)
Definition ready (p : page) : Prop :=
  has_worker p = true /\ has_image p = true /\
  isProcessing p = false /\ pendingRun p = false.

(** The parameters in force on the page, as a message. *)
Definition live_request (p : page) : request :=
  mkRequest (doPixelate p) (blockSize p) (doQuantize p) (paletteSize p).

(** ** The page: the debounced effect (lines 81-91) *)

(** The page with its timer: [processTimeout], the timers that are set
    and have neither fired nor been cleared, and the id that the next
    [window.setTimeout] returns. *)
Record ui : Type := mkUi {
  ui_page : page;
  processTimeout : option nat;
  pending_timers : gset nat;
  next_timer : nat
}.

(** Body of the effect: without an image nothing happens; otherwise the
    recorded timer is cleared and a new one is set and recorded. *)
Definition effect_run (u : ui) : ui :=
  if negb (has_image (ui_page u)) then u
  else
    let timers :=
      match processTimeout u with
      | Some t => pending_timers u ∖ {[ t ]}
      | None => pending_timers u
      end in
    mkUi (ui_page u) (Some (next_timer u)) ({[ next_timer u ]} ∪ timers)
      (S (next_timer u)).

(** Timer [t] expires: its callback calls [processAndRender]; a timer that
    was cleared or has already fired does not run. *)
Definition timer_fire (u : ui) (t : nat) : option ui :=
  if decide (t ∈ pending_timers u) then
    p' ← processAndRender 2 (ui_page u);
    Some (mkUi p' (processTimeout u) (pending_timers u ∖ {[ t ]})
            (next_timer u))
  else Some u.

Inductive ui_event : Type :=
  | Ui_page (e : event)
  | Ui_effect
  | Ui_timer (t : nat).

Definition ui_step (u : ui) (e : ui_event) : option ui :=
  match e with
  | Ui_page e =>
      p' ← step (ui_page u) e;
      Some (mkUi p' (processTimeout u) (pending_timers u) (next_timer u))
  | Ui_effect => Some (effect_run u)
  | Ui_timer t => timer_fire u t
  end.

Fixpoint ui_run (u : ui) (es : list ui_event) : option ui :=
  match es with
  | [] => Some u
  | e :: rest => u' ← ui_step u e; ui_run u' rest
  end.

Definition initial_ui : ui := mkUi initial_page None ∅ 0.

(** Every pending timer is the one recorded in [processTimeout]. *)
Definition one_timer (u : ui) : Prop :=
  ready (ui_page u) /\
  forall t, t ∈ pending_timers u -> processTimeout u = Some t.

(** ** Vocabulary of the statements: clusters *)

Definition color_add (p q : color) : color :=
  let '(r, g, b) := p in
  let '(r', g', b') := q in
  (r + r', g + g', b + b').

(** Channel-wise sum of a list of colours. *)
Definition color_sum (l : list color) : color :=
  foldr color_add (0, 0, 0) l.

(** Channel-wise mean of a non-empty list of colours, each channel
    rounded to the nearest integer, halves upwards. *)
Definition rounded_mean (l : list color) : color :=
  let '(r, g, b) := color_sum l in
  let n := Z.of_nat (length l) in
  ((2 * r + n) / (2 * n), (2 * g + n) / (2 * n), (2 * b + n) / (2 * n)).

(** The samples that the assignment step gives to centroid [c]. *)
Definition assigned (cs ss : list color) (c : nat) : list color :=
  filter (fun p => nearest (map rgb_of cs) (rgb_of p) = c) ss.

(** State of [sums] and [counts] once the samples [done] have been
    accumulated under the assignment [f]. *)
Definition accumulated (f : color -> nat) (K : nat) (done : list color)
    (sums : list RGB) (counts : list Z) : Prop :=
  length sums = K /\ length counts = K /\
  forall c, (c < K)%nat ->
    sums !! c = Some (rgb_of (color_sum (filter (fun p => f p = c) done))) /\
    counts !! c = Some (Z.of_nat (length (filter (fun p => f p = c) done))).

(** The messages posted along a sequence of events, [cur] being the
    parameters in force: one message per render request. *)
Fixpoint posted_trace (cur : request) (es : list event) : list request :=
  match es with
  | [] => []
  | Request_render :: rest => cur :: posted_trace cur rest
  | Worker_answer :: rest => posted_trace cur rest
  | Set_params px bs qz ps :: rest =>
      posted_trace (mkRequest px bs qz ps) rest
  end.

Fixpoint count_answers (es : list event) : nat :=
  match es with
  | [] => 0%nat
  | Worker_answer :: rest => S (count_answers rest)
  | _ :: rest => count_answers rest
  end.

(* ===================================================================== *)
(** * Properties *)
(* ===================================================================== *)

(** ** Loops *)

Lemma for_fuel_enough {S : Type} (body : Z -> S -> S) (step bound : Z) :
  1 <= step ->
  forall (fuel : nat) (i : Z) (s : S),
    (Z.to_nat (bound - i) <= fuel)%nat ->
    for_fuel fuel i bound step body s = for_loop i bound step body s.
Proof.
  intros Hstep. unfold for_loop.
  induction fuel as [fuel IH] using lt_wf_ind; intros i s Hle.
  destruct fuel as [|fuel].
  - replace (Z.to_nat (bound - i)) with 0%nat by lia. reflexivity.
  - destruct (Z.to_nat (bound - i)) as [|m] eqn:E; simpl.
    + destruct (i <? bound) eqn:Hlt; [lia | reflexivity].
    + destruct (i <? bound) eqn:Hlt; [|reflexivity].
      rewrite (IH fuel) by lia.
      symmetry. apply IH; lia.
Qed.

(** The combinator satisfies the equation of the source loop. *)
Lemma for_loop_unfold {S : Type} (body : Z -> S -> S) (i bound step : Z) (s : S) :
  1 <= step ->
  for_loop i bound step body s =
  if i <? bound then for_loop (i + step) bound step body (body i s) else s.
Proof.
  intros Hstep. unfold for_loop at 1.
  destruct (Z.to_nat (bound - i)) as [|m] eqn:E; simpl.
  - destruct (i <? bound) eqn:Hlt; [lia | reflexivity].
  - destruct (i <? bound) eqn:Hlt; [|reflexivity].
    apply for_fuel_enough; [exact Hstep | lia].
Qed.

(** Invariant rule: the invariant holds at the value of the loop variable
    that ends the loop. *)
Lemma for_loop_inv {S : Type} (Inv : Z -> S -> Prop) (body : Z -> S -> S)
    (bound step : Z) :
  1 <= step ->
  (forall j t, j < bound -> Inv j t -> Inv (j + step) (body j t)) ->
  forall i s, Inv i s ->
    exists j, bound <= j /\ Inv j (for_loop i bound step body s).
Proof.
  intros Hstep Hbody i s.
  remember (Z.to_nat (bound - i)) as m eqn:Hm.
  revert i s Hm.
  induction m as [m IH] using lt_wf_ind.
  intros i s Hm Hinv.
  rewrite for_loop_unfold by exact Hstep.
  destruct (i <? bound) eqn:Hlt.
  - apply (IH (Z.to_nat (bound - (i + step)))); [lia | reflexivity |].
    apply Hbody; [lia | exact Hinv].
  - exists i. split; [lia | exact Hinv].
Qed.

(** ** Arrays *)

Lemma store8_length (a : list Z) (i : Z) (v : num) :
  length (store8 a i v) = length a.
Proof.
  unfold store8. destruct (0 <=? i); [apply length_insert | reflexivity].
Qed.

Lemma lookupZ_store8_eq (a : list Z) (i : Z) (v : num) :
  0 <= i < Z.of_nat (length a) ->
  lookupZ (store8 a i v) i = Some (to_u8c v).
Proof.
  intros Hi. unfold lookupZ, store8.
  destruct (0 <=? i) eqn:E; [|lia].
  apply list_lookup_insert_eq. lia.
Qed.

Lemma lookupZ_store8_ne (a : list Z) (i j : Z) (v : num) :
  i <> j -> lookupZ (store8 a i v) j = lookupZ a j.
Proof.
  intros Hne. unfold lookupZ, store8.
  destruct (0 <=? j) eqn:Ej; [|reflexivity].
  destruct (0 <=? i) eqn:Ei; [|reflexivity].
  apply list_lookup_insert_ne. lia.
Qed.

Lemma lookupZ_Some_lt {A : Type} (a : list A) (i : Z) (x : A) :
  lookupZ a i = Some x -> 0 <= i < Z.of_nat (length a).
Proof.
  unfold lookupZ. destruct (0 <=? i) eqn:E; [|discriminate].
  intros H. apply lookup_lt_Some in H. lia.
Qed.

Lemma lookupZ_lt_is_Some {A : Type} (a : list A) (i : Z) :
  0 <= i < Z.of_nat (length a) -> is_Some (lookupZ a i).
Proof.
  intros Hi. unfold lookupZ. destruct (0 <=? i) eqn:E; [|lia].
  apply lookup_lt_is_Some. lia.
Qed.

Lemma lookupZ_ge_None {A : Type} (a : list A) (i : Z) :
  Z.of_nat (length a) <= i -> lookupZ a i = None.
Proof.
  intros Hi. unfold lookupZ. destruct (0 <=? i) eqn:E; [|reflexivity].
  apply lookup_ge_None. lia.
Qed.

Lemma clamp8_range (v : Z) : 0 <= clamp8 v <= 255.
Proof. unfold clamp8. lia. Qed.

Lemma clamp8_id (v : Z) : 0 <= v <= 255 -> clamp8 v = v.
Proof. unfold clamp8. lia. Qed.

Lemma to_u8c_range (v : num) : 0 <= to_u8c v <= 255.
Proof. destruct v; simpl; [apply clamp8_range | lia]. Qed.

(** ** Pixel coordinates *)

Lemma pixel_index_range (w h x y c : Z) :
  0 <= x < w -> 0 <= y < h -> 0 <= c < 4 ->
  0 <= pixel_index w x y c < w * h * 4.
Proof. unfold pixel_index. intros Hx Hy Hc. nia. Qed.

Lemma pixel_index_inj (w x y c x' y' c' : Z) :
  0 <= x < w -> 0 <= x' < w -> 0 <= c < 4 -> 0 <= c' < 4 ->
  pixel_index w x y c = pixel_index w x' y' c' ->
  x = x' /\ y = y' /\ c = c'.
Proof.
  unfold pixel_index. intros Hx Hx' Hc Hc' E.
  assert (c = c') by lia. subst c'.
  assert (E' : y * w + x = y' * w + x') by lia.
  assert (y = y') by nia. subst y'.
  split; [lia | split; reflexivity].
Qed.

Lemma block_origin_unique (size b x : Z) :
  1 <= size -> (size | b) -> b <= x < b + size -> block_origin size x = b.
Proof.
  intros Hs [q ->] Hx. unfold block_origin.
  assert (x / size = q); [|subst; lia].
  symmetry. apply (Z.div_unique x size q (x - q * size)); lia.
Qed.

Lemma block_origin_bounds (size x : Z) :
  1 <= size -> block_origin size x <= x < block_origin size x + size.
Proof.
  intros Hs. unfold block_origin.
  pose proof (Z.mul_div_le x size ltac:(lia)).
  pose proof (Z.mul_succ_div_gt x size ltac:(lia)). lia.
Qed.

Lemma block_origin_divide (size x : Z) : (size | block_origin size x).
Proof. exists (x / size). unfold block_origin. lia. Qed.

(** The representative pixel lies in the block it stands for. *)
Lemma block_centre_in_block (size limit x : Z) :
  1 <= size -> 0 <= x < limit ->
  block_origin size x <= block_centre size limit x
    < block_origin size x + size /\
  0 <= block_centre size limit x < limit.
Proof.
  intros Hs Hx. unfold block_centre.
  pose proof (block_origin_bounds size x Hs).
  assert (0 <= size / 2 < size) by (split; [apply Z.div_pos; lia | apply Z.div_lt_upper_bound; lia]).
  assert (0 <= block_origin size x).
  { unfold block_origin. apply Z.mul_nonneg_nonneg; [lia | apply Z.div_pos; lia]. }
  lia.
Qed.

Lemma block_centre_idem (size limit x : Z) :
  1 <= size -> 0 <= x < limit ->
  block_centre size limit (block_centre size limit x)
  = block_centre size limit x.
Proof.
  intros Hs Hx.
  destruct (block_centre_in_block size limit x Hs Hx) as [Hin _].
  unfold block_centre at 1.
  rewrite (block_origin_unique size (block_origin size x)); auto using block_origin_divide.
Qed.

(** ** pixelateImage *)

Lemma fill_pixel_length (w : Z) (r g b a : num) (y x : Z) (t : list Z) :
  length (fill_pixel w r g b a y x t) = length t.
Proof. unfold fill_pixel. rewrite !store8_length. reflexivity. Qed.

Lemma fill_pixel_lookup (w h : Z) (r g b a : num) (x y : Z) (t : list Z) :
  Z.of_nat (length t) = w * h * 4 ->
  0 <= x < w -> 0 <= y < h ->
  forall x' y' c, 0 <= x' < w -> 0 <= y' < h -> 0 <= c < 4 ->
    lookupZ (fill_pixel w r g b a y x t) (pixel_index w x' y' c)
    = if decide (x' = x /\ y' = y)
      then Some (to_u8c (channel r g b a c))
      else lookupZ t (pixel_index w x' y' c).
Proof.
  intros Hlen Hx Hy x' y' c Hx' Hy' Hc.
  unfold fill_pixel.
  change ((y * w + x) * 4 + 3) with (pixel_index w x y 3).
  change ((y * w + x) * 4 + 2) with (pixel_index w x y 2).
  change ((y * w + x) * 4 + 1) with (pixel_index w x y 1).
  replace ((y * w + x) * 4) with (pixel_index w x y 0) by (unfold pixel_index; lia).
  assert (Hr : forall k, 0 <= k < 4 -> 0 <= pixel_index w x y k < w * h * 4)
    by (intros; apply pixel_index_range; lia).
  destruct (decide (x' = x /\ y' = y)) as [[-> ->]|Hne].
  - unfold channel.
    destruct (c =? 0) eqn:E0; [assert (c = 0) by lia; subst|];
    [|destruct (c =? 1) eqn:E1; [assert (c = 1) by lia; subst|]];
    [| |destruct (c =? 2) eqn:E2; [assert (c = 2) by lia; subst|assert (c = 3) by lia; subst]].
    + rewrite !lookupZ_store8_ne by (unfold pixel_index; lia).
      apply lookupZ_store8_eq. rewrite Hlen. apply Hr; lia.
    + rewrite !lookupZ_store8_ne by (unfold pixel_index; lia).
      apply lookupZ_store8_eq. rewrite !store8_length, Hlen. apply Hr; lia.
    + rewrite !lookupZ_store8_ne by (unfold pixel_index; lia).
      apply lookupZ_store8_eq. rewrite !store8_length, Hlen. apply Hr; lia.
    + apply lookupZ_store8_eq. rewrite !store8_length, Hlen. apply Hr; lia.
  - rewrite !lookupZ_store8_ne; [reflexivity | | | |];
      intros E; apply pixel_index_inj in E; try lia; tauto.
Qed.

Section Pixelate.
Variables (w h size : Z) (d : list Z).
Hypothesis Hw : 0 <= w.
Hypothesis Hh : 0 <= h.
Hypothesis Hlen : Z.of_nat (length d) = w * h * 4.
Hypothesis Hsize : 1 <= size.

Lemma painted_ext (done done' : Z -> Z -> Prop) (t : list Z) :
  (forall x y, 0 <= x < w -> 0 <= y < h -> done x y <-> done' x y) ->
  painted w h size d done t -> painted w h size d done' t.
Proof.
  intros Hiff [Hl Hp]. split; [exact Hl|].
  intros x y c Hx Hy Hc. destruct (Hp x y c Hx Hy Hc) as [H1 H2].
  specialize (Hiff x y Hx Hy). split; intros; [apply H1 | apply H2]; tauto.
Qed.

Lemma painted_fill (done : Z -> Z -> Prop) (t : list Z) (r g b a : num)
    (x y : Z) :
  painted w h size d done t ->
  0 <= x < w -> 0 <= y < h ->
  (forall c, 0 <= c < 4 ->
     Some (to_u8c (channel r g b a c)) = target w h size d x y c) ->
  painted w h size d (fun x' y' => done x' y' \/ (x' = x /\ y' = y))
    (fill_pixel w r g b a y x t).
Proof.
  intros [Hl Hp] Hx Hy Hcol. split.
  - rewrite fill_pixel_length. exact Hl.
  - intros x' y' c Hx' Hy' Hc.
    rewrite (fill_pixel_lookup w h) by (auto; lia).
    destruct (Hp x' y' c Hx' Hy' Hc) as [H1 H2].
    destruct (decide (x' = x /\ y' = y)) as [[-> ->]|Hne].
    + split; [intros _; apply Hcol; exact Hc | intros Hn; exfalso; apply Hn; auto].
    + split; [intros [Hd|Hd]; [auto | tauto] | intros Hn; apply H2; tauto].
Qed.

(** The innermost loop paints one row segment of a block. *)
Lemma painted_row (done : Z -> Z -> Prop) (t : list Z) (r g b a : num)
    (bx maxX y : Z) :
  painted w h size d done t ->
  0 <= bx <= maxX -> maxX <= w -> 0 <= y < h ->
  (forall x c, bx <= x < maxX -> 0 <= c < 4 ->
     Some (to_u8c (channel r g b a c)) = target w h size d x y c) ->
  painted w h size d
    (fun x' y' => done x' y' \/ (y' = y /\ bx <= x' < maxX))
    (for_loop bx maxX 1 (fill_pixel w r g b a y) t).
Proof.
  intros Hp Hbx HmaxX Hy Hcol.
  destruct (for_loop_inv
    (fun x t' => bx <= x <= maxX /\
       painted w h size d
         (fun x' y' => done x' y' \/ (y' = y /\ bx <= x' < x)) t')
    (fill_pixel w r g b a y) maxX 1 ltac:(lia)) with (i := bx) (s := t)
    as (j & Hj & Hrange & Hfin).
  - intros x t' Hlt [Hr Hp']. split; [lia|].
    eapply painted_ext; [|apply painted_fill with (x := x) (y := y);
      [exact Hp' | lia | lia | intros c Hc; apply Hcol; lia]].
    intros x' y' Hx' Hy'. simpl. intuition lia.
  - split; [lia|]. eapply painted_ext; [|exact Hp].
    intros x' y' Hx' Hy'. simpl. intuition lia.
  - eapply painted_ext; [|exact Hfin].
    intros x' y' Hx' Hy'. simpl. intuition lia.
Qed.

(** The two inner loops paint the rectangle of a block. *)
Lemma painted_rect (done : Z -> Z -> Prop) (t : list Z) (r g b a : num)
    (bx maxX by_ maxY : Z) :
  painted w h size d done t ->
  0 <= bx <= maxX -> maxX <= w -> 0 <= by_ <= maxY -> maxY <= h ->
  (forall x y c, bx <= x < maxX -> by_ <= y < maxY -> 0 <= c < 4 ->
     Some (to_u8c (channel r g b a c)) = target w h size d x y c) ->
  painted w h size d
    (fun x' y' => done x' y' \/ (bx <= x' < maxX /\ by_ <= y' < maxY))
    (for_loop by_ maxY 1
       (fun y t' => for_loop bx maxX 1 (fill_pixel w r g b a y) t') t).
Proof.
  intros Hp Hbx HmaxX Hby HmaxY Hcol.
  destruct (for_loop_inv
    (fun y t' => by_ <= y <= maxY /\
       painted w h size d
         (fun x' y' => done x' y' \/ (bx <= x' < maxX /\ by_ <= y' < y)) t')
    (fun y t' => for_loop bx maxX 1 (fill_pixel w r g b a y) t')
    maxY 1 ltac:(lia)) with (i := by_) (s := t)
    as (j & Hj & Hrange & Hfin).
  - intros y t' Hlt [Hr Hp']. split; [lia|].
    eapply painted_ext; [|apply painted_row with (y := y);
      [exact Hp' | lia | lia | lia | intros x c Hx Hc; apply Hcol; lia]].
    intros x' y' Hx' Hy'. simpl. intuition lia.
  - split; [lia|]. eapply painted_ext; [|exact Hp].
    intros x' y' Hx' Hy'. simpl. intuition lia.
  - eapply painted_ext; [|exact Hfin].
    intros x' y' Hx' Hy'. simpl. intuition lia.
Qed.

(** One block: its representative pixel is still original when the
    block is reached, and is copied over the whole (clipped) block. *)
Lemma painted_block (done : Z -> Z -> Prop) (t : list Z) (bx by_ : Z) :
  painted w h size d done t ->
  0 <= bx < w -> 0 <= by_ < h -> (size | bx) -> (size | by_) ->
  (forall x y, bx <= x < bx + size -> by_ <= y < by_ + size -> ~ done x y) ->
  painted w h size d
    (fun x' y' => done x' y' \/
       (bx <= x' < bx + size /\ by_ <= y' < by_ + size))
    (pixelate_block w h size by_ bx t).
Proof.
  intros Hp Hbx Hby Dbx Dby Hfresh. unfold pixelate_block.
  set (cx := Z.min (bx + size / 2) (w - 1)).
  set (cy := Z.min (by_ + size / 2) (h - 1)).
  assert (Hhalf : 0 <= size / 2 < size)
    by (split; [apply Z.div_pos; lia | apply Z.div_lt_upper_bound; lia]).
  assert (Hcx : bx <= cx < bx + size /\ 0 <= cx < w) by (unfold cx; lia).
  assert (Hcy : by_ <= cy < by_ + size /\ 0 <= cy < h) by (unfold cy; lia).
  eapply painted_ext;
    [|apply painted_rect with (bx := bx) (by_ := by_)
        (maxX := Z.min (bx + size) w) (maxY := Z.min (by_ + size) h);
      [exact Hp | lia | lia | lia | lia |]].
  - intros x' y' Hx' Hy'. simpl. intuition lia.
  - intros x y c Hx Hy Hc. unfold target. f_equal. f_equal.
    assert (Ex : block_centre size w x = cx).
    { unfold block_centre. rewrite (block_origin_unique size bx) by (auto; lia).
      reflexivity. }
    assert (Ey : block_centre size h y = cy).
    { unfold block_centre. rewrite (block_origin_unique size by_) by (auto; lia).
      reflexivity. }
    rewrite Ex, Ey.
    destruct Hp as [_ Hp].
    destruct (Hp cx cy c ltac:(lia) ltac:(lia) Hc) as [_ Hkeep].
    rewrite <- Hkeep by (apply Hfresh; lia).
    unfold channel, pixel_index.
    destruct (c =? 0) eqn:E0; [f_equal; lia|].
    destruct (c =? 1) eqn:E1; [f_equal; lia|].
    destruct (c =? 2) eqn:E2; f_equal; lia.
Qed.

(** One row of blocks. *)
Lemma painted_block_row (t : list Z) (by_ : Z) :
  painted w h size d (fun _ y' => y' < by_) t ->
  0 <= by_ < h -> (size | by_) ->
  painted w h size d (fun _ y' => y' < by_ + size)
    (for_loop 0 w size (pixelate_block w h size by_) t).
Proof.
  intros Hp Hby Dby.
  destruct (for_loop_inv
    (fun bx t' => 0 <= bx /\ (size | bx) /\
       painted w h size d
         (fun x' y' => y' < by_ \/ (y' < by_ + size /\ x' < bx)) t')
    (pixelate_block w h size by_) w size Hsize) with (i := 0) (s := t)
    as (j & Hj & Hpos & Hdiv & Hfin).
  - intros bx t' Hlt (Hpos & Hdiv & Hp'). split; [lia|].
    split; [apply Z.divide_add_r; [exact Hdiv | apply Z.divide_refl]|].
    eapply painted_ext; [|apply painted_block with (bx := bx) (by_ := by_);
      [exact Hp' | lia | lia | exact Hdiv | exact Dby |]].
    + intros x' y' Hx' Hy'. simpl. intuition lia.
    + intros x y Hx Hy. simpl. lia.
  - split; [lia|]. split; [apply Z.divide_0_r|].
    eapply painted_ext; [|exact Hp].
    intros x' y' Hx' Hy'. simpl. intuition lia.
  - eapply painted_ext; [|exact Hfin].
    intros x' y' Hx' Hy'. simpl. intuition lia.
Qed.

(** The whole filter: every pixel ends with its final value. *)
Lemma painted_all :
  painted w h size d (fun _ _ => True)
    (for_loop 0 h size
       (fun by_ t => for_loop 0 w size (pixelate_block w h size by_) t) d).
Proof.
  destruct (for_loop_inv
    (fun by_ t' => 0 <= by_ /\ (size | by_) /\
       painted w h size d (fun _ y' => y' < by_) t')
    (fun by_ t => for_loop 0 w size (pixelate_block w h size by_) t)
    h size Hsize) with (i := 0) (s := d)
    as (j & Hj & Hpos & Hdiv & Hfin).
  - intros by_ t' Hlt (Hpos & Hdiv & Hp'). split; [lia|].
    split; [apply Z.divide_add_r; [exact Hdiv | apply Z.divide_refl]|].
    apply painted_block_row; [exact Hp' | lia | exact Hdiv].
  - split; [lia|]. split; [apply Z.divide_0_r|].
    split; [reflexivity|]. intros x y c Hx Hy Hc. split; [lia | reflexivity].
  - eapply painted_ext; [|exact Hfin].
    intros x' y' Hx' Hy'. simpl. split; [auto | lia].
Qed.
End Pixelate.

Lemma pixel_index_decompose (w h i : Z) :
  0 <= w -> 0 <= h -> 0 <= i < w * h * 4 ->
  exists x y c, 0 <= x < w /\ 0 <= y < h /\ 0 <= c < 4 /\
    i = pixel_index w x y c.
Proof.
  intros Hw Hh Hi.
  assert (Hwpos : 0 < w) by nia.
  exists ((i / 4) mod w), ((i / 4) / w), (i mod 4).
  pose proof (Z.mod_pos_bound i 4 ltac:(lia)) as Hc.
  pose proof (Z.div_mod i 4 ltac:(lia)) as Hi4.
  pose proof (Z.mod_pos_bound (i / 4) w Hwpos) as Hx.
  pose proof (Z.div_mod (i / 4) w ltac:(lia)) as Hq.
  assert (Hq4 : 0 <= i / 4 < w * h) by (split; [apply Z.div_pos; lia | apply Z.div_lt_upper_bound; lia]).
  assert (Hy : 0 <= i / 4 / w < h).
  { split; [apply Z.div_pos; lia | apply Z.div_lt_upper_bound; lia]. }
  unfold pixel_index. repeat split; try lia.
Qed.

Lemma lookupZ_of_nat {A : Type} (a : list A) (i : nat) :
  lookupZ a (Z.of_nat i) = a !! i.
Proof.
  unfold lookupZ. destruct (Z.leb_spec 0 (Z.of_nat i)) as [_|Hneg]; [|lia].
  rewrite Nat2Z.id. reflexivity.
Qed.

(** Pixel-wise description of the filter on a buffer of the right length. *)
Lemma pixelate_data_lookup (w h : Z) (blockSize : Q) (d : list Z) :
  0 <= w -> 0 <= h -> Z.of_nat (length d) = w * h * 4 ->
  length (pixelate_data w h blockSize d) = length d /\
  forall x y c, 0 <= x < w -> 0 <= y < h -> 0 <= c < 4 ->
    lookupZ (pixelate_data w h blockSize d) (pixel_index w x y c)
    = target w h (block_size blockSize) d x y c.
Proof.
  intros Hw Hh Hlen.
  assert (Hs : 1 <= block_size blockSize) by (unfold block_size; lia).
  destruct (painted_all w h (block_size blockSize) d Hlen Hs) as [Hl Hp].
  split; [exact Hl|].
  intros x y c Hx Hy Hc. apply (Hp x y c Hx Hy Hc). exact I.
Qed.

Lemma lookupZ_byte (d : list Z) (i : Z) :
  Forall (fun b => 0 <= b <= 255) d ->
  0 <= i < Z.of_nat (length d) ->
  Some (to_u8c (lookupZ d i)) = lookupZ d i.
Proof.
  intros Hb Hi.
  destruct (lookupZ_lt_is_Some d i Hi) as [v Hv]. rewrite Hv. simpl.
  f_equal. apply clamp8_id.
  unfold lookupZ in Hv. destruct (0 <=? i); [|discriminate].
  rewrite Forall_forall in Hb. apply Hb.
  apply list_elem_of_lookup. eauto.
Qed.

Lemma pixelate_data_rgba (w h : Z) (blockSize : Q) (d : list Z) :
  well_formed w h d ->
  forall x y, 0 <= x < w -> 0 <= y < h ->
    rgba_at w (pixelate_data w h blockSize d) x y
    = rgba_at w d (block_centre (block_size blockSize) w x)
                  (block_centre (block_size blockSize) h y).
Proof.
  intros (Hw & Hh & Hlen & Hb) x y Hx Hy.
  destruct (pixelate_data_lookup w h blockSize d Hw Hh Hlen) as [_ Hp].
  assert (Hs : 1 <= block_size blockSize) by (unfold block_size; lia).
  destruct (block_centre_in_block _ w x Hs Hx) as [_ Hcx].
  destruct (block_centre_in_block _ h y Hs Hy) as [_ Hcy].
  unfold rgba_at.
  rewrite !Hp by lia. unfold target.
  rewrite !lookupZ_byte; auto; rewrite Hlen; apply pixel_index_range; lia.
Qed.

Lemma rgba_at_is_Some (w h : Z) (d : list Z) (x y : Z) :
  Z.of_nat (length d) = w * h * 4 -> 0 <= x < w -> 0 <= y < h ->
  is_Some (rgba_at w d x y).
Proof.
  intros Hlen Hx Hy. unfold rgba_at.
  assert (Hc : forall c, 0 <= c < 4 -> is_Some (lookupZ d (pixel_index w x y c))).
  { intros c Hc. apply lookupZ_lt_is_Some. rewrite Hlen.
    apply pixel_index_range; lia. }
  destruct (Hc 0 ltac:(lia)) as [r ->], (Hc 1 ltac:(lia)) as [g ->],
    (Hc 2 ltac:(lia)) as [b ->], (Hc 3 ltac:(lia)) as [a ->].
  simpl. eauto.
Qed.

Lemma bytes_of_insert (σ : gmap loc (list Z)) (l : loc) (d : list Z) :
  bytes_of (<[l := d]> σ) l = d.
Proof. unfold bytes_of. rewrite lookup_insert_eq. reflexivity. Qed.

Lemma bytes_of_lookup (σ : gmap loc (list Z)) (l : loc) (d : list Z) :
  σ !! l = Some d -> bytes_of σ l = d.
Proof. unfold bytes_of. intros ->. reflexivity. Qed.

(** C3.  On a well-formed buffer, pixelation with
    [size = max(1, floor(blockSize))] leaves in every pixel [(x, y)] the
    original RGBA value of the representative pixel of the block of
    [(x, y)]: the block starts at the multiples of [size] below [x] and
    [y], and the representative is at block start plus [floor(size / 2)],
    clamped to the image.  In particular a block that lies fully inside
    the image becomes uniform, equal to the original value at
    [(bx + floor(size/2), by + floor(size/2))].  The buffer keeps its
    length and every pixel has a value. *)
Theorem pixelateImage_block_representative
    (σ : gmap loc (list Z)) (img : ImageData) (blockSize : Q) (d : list Z) :
  σ !! data img = Some d ->
  well_formed (width img) (height img) d ->
  exists d',
    pixelateImage σ img blockSize !! data img = Some d' /\
    length d' = length d /\
    (forall x y, 0 <= x < width img -> 0 <= y < height img ->
       is_Some (rgba_at (width img) d' x y) /\
       rgba_at (width img) d' x y
       = rgba_at (width img) d
           (block_centre (block_size blockSize) (width img) x)
           (block_centre (block_size blockSize) (height img) y)) /\
    (forall bx by_ x y,
       0 <= bx -> 0 <= by_ ->
       (block_size blockSize | bx) -> (block_size blockSize | by_) ->
       bx + block_size blockSize <= width img ->
       by_ + block_size blockSize <= height img ->
       bx <= x < bx + block_size blockSize ->
       by_ <= y < by_ + block_size blockSize ->
       rgba_at (width img) d' x y
       = rgba_at (width img) d (bx + block_size blockSize / 2)
                               (by_ + block_size blockSize / 2)).
Proof.
  intros Hσ Hwf.
  exists (pixelate_data (width img) (height img) blockSize d).
  unfold pixelateImage. rewrite (bytes_of_lookup σ _ d Hσ).
  pose proof Hwf as (Hw & Hh & Hlen & Hb).
  destruct (pixelate_data_lookup _ _ blockSize d Hw Hh Hlen) as [Hl _].
  assert (Hs : 1 <= block_size blockSize) by (unfold block_size; lia).
  assert (Hhalf : 0 <= block_size blockSize / 2 < block_size blockSize)
    by (split; [apply Z.div_pos; lia | apply Z.div_lt_upper_bound; lia]).
  split; [apply lookup_insert_eq|]. split; [exact Hl|]. split.
  - intros x y Hx Hy. split.
    + apply (rgba_at_is_Some _ (height img)); [lia | exact Hx | exact Hy].
    + apply pixelate_data_rgba; assumption.
  - intros bx by_ x y Hbx Hby Dx Dy Hfx Hfy Hx Hy.
    rewrite pixelate_data_rgba by (auto; lia).
    unfold block_centre.
    rewrite (block_origin_unique _ bx x Hs Dx Hx).
    rewrite (block_origin_unique _ by_ y Hs Dy Hy).
    f_equal; lia.
Qed.

(** C10.  On a well-formed buffer, a second pixelation pass with the same
    block size changes nothing: the store after two passes is the store
    after one. *)
Theorem pixelateImage_idempotent
    (σ : gmap loc (list Z)) (img : ImageData) (blockSize : Q) (d : list Z) :
  σ !! data img = Some d ->
  well_formed (width img) (height img) d ->
  pixelateImage (pixelateImage σ img blockSize) img blockSize
  = pixelateImage σ img blockSize.
Proof.
  intros Hσ (Hw & Hh & Hlen & _).
  unfold pixelateImage. rewrite bytes_of_insert, (bytes_of_lookup σ _ d Hσ).
  rewrite insert_insert_eq. f_equal.
  set (w := width img) in *. set (h := height img) in *.
  set (d1 := pixelate_data w h blockSize d).
  destruct (pixelate_data_lookup w h blockSize d Hw Hh Hlen) as [Hl1 Hp1].
  fold d1 in Hl1, Hp1.
  assert (Hlen1 : Z.of_nat (length d1) = w * h * 4) by lia.
  destruct (pixelate_data_lookup w h blockSize d1 Hw Hh Hlen1) as [Hl2 Hp2].
  assert (Hs : 1 <= block_size blockSize) by (unfold block_size; lia).
  apply list_eq. intros i.
  destruct (decide (i < length d1)%nat) as [Hi|Hi].
  - destruct (pixel_index_decompose w h (Z.of_nat i) Hw Hh ltac:(lia))
      as (x & y & c & Hx & Hy & Hc & E).
    rewrite <- !lookupZ_of_nat, E.
    rewrite Hp2, Hp1 by assumption. unfold target.
    destruct (block_centre_in_block _ w x Hs Hx) as [_ Hcx].
    destruct (block_centre_in_block _ h y Hs Hy) as [_ Hcy].
    rewrite Hp1 by assumption. unfold target.
    rewrite !block_centre_idem by assumption.
    simpl. f_equal. apply clamp8_id, to_u8c_range.
  - rewrite !lookup_ge_None_2 by lia. reflexivity.
Qed.

Lemma demo_well_formed : well_formed 2 2 demo_bytes.
Proof.
  unfold well_formed, demo_bytes. repeat split; try lia.
  repeat constructor; lia.
Qed.

Lemma pixelateImage_block_representative_witness :
  demo_store !! data demo_image = Some demo_bytes /\
  well_formed (width demo_image) (height demo_image) demo_bytes /\
  exists d',
    pixelateImage demo_store demo_image (2 # 1) !! data demo_image = Some d' /\
    rgba_at 2 d' 0 0 = rgba_at 2 demo_bytes 1 1.
Proof.
  split; [reflexivity|]. split; [exact demo_well_formed|].
  destruct (pixelateImage_block_representative demo_store demo_image (2 # 1)
              demo_bytes eq_refl demo_well_formed)
    as (d' & Hd' & _ & Hpix & _).
  exists d'. split; [exact Hd'|].
  destruct (Hpix 0 0 ltac:(simpl; lia) ltac:(simpl; lia)) as [_ E].
  exact E.
Defined.

Lemma pixelateImage_idempotent_witness :
  demo_store !! data demo_image = Some demo_bytes /\
  well_formed (width demo_image) (height demo_image) demo_bytes /\
  pixelateImage (pixelateImage demo_store demo_image (3 # 2)) demo_image (3 # 2)
  = pixelateImage demo_store demo_image (3 # 2).
Proof.
  split; [reflexivity|]. split; [exact demo_well_formed|].
  exact (pixelateImage_idempotent demo_store demo_image (3 # 2) demo_bytes
           eq_refl demo_well_formed).
Defined.

(** Scenario B of the specification: a 4x4 image pixelated with block
    size 4 becomes flat, equal to the original pixel at (2, 2)
    (bytes 40..43 of the buffer [0; 1; ...; 63]). *)
Example pixelate_scenario_B :
  pixelate_data 4 4 (4 # 1) (map Z.of_nat (seq 0 64))
  = concat (replicate 16 [40; 41; 42; 43]).
Proof. vm_compute. reflexivity. Qed.

(** A clipped edge block takes the clamped representative: on a 3x1 image
    with block size 2 the second block holds only pixel 2, which is its
    own representative. *)
Example pixelate_clipped_block :
  pixelate_data 3 1 (2 # 1) [1; 1; 1; 1;  2; 2; 2; 2;  3; 3; 3; 3]
  = [2; 2; 2; 2;  2; 2; 2; 2;  3; 3; 3; 3].
Proof. vm_compute. reflexivity. Qed.

(** ** processImage: the store *)

Lemma copy_image_fresh (σ : gmap loc (list Z)) (source : ImageData) :
  σ !! data (copy_image σ source).2 = None.
Proof.
  unfold copy_image. simpl.
  apply not_elem_of_dom. apply is_fresh.
Qed.

(** Every location other than the new array keeps its contents. *)
Lemma processImage_frame (r : rng) (n : nat) (σ : gmap loc (list Z))
    (source : ImageData) (pixelate : bool) (blockSize : Q) (quantize : bool)
    (paletteSize maxKMeansIters : Z) (l : loc) :
  l <> fresh (dom σ) ->
  (processImage r n σ source pixelate blockSize quantize paletteSize
     maxKMeansIters).1 !! l = σ !! l.
Proof.
  intros Hl. unfold processImage, copy_image, qunatizeImage, pixelateImage.
  simpl.
  destruct quantize.
  - destruct (buildPalette _ _ _ _ _ _) as [[palette n']|]; simpl.
    + destruct (quantize_data _ _) as [q|]; simpl.
      * destruct pixelate; simpl; rewrite ?lookup_insert_ne by auto; reflexivity.
      * rewrite lookup_insert_ne by auto. reflexivity.
    + rewrite lookup_insert_ne by auto. reflexivity.
  - destruct pixelate; simpl; rewrite ?lookup_insert_ne by auto; reflexivity.
Qed.

Lemma processImage_result (r : rng) (n : nat) (σ : gmap loc (list Z))
    (source : ImageData) (pixelate : bool) (blockSize : Q) (quantize : bool)
    (paletteSize maxKMeansIters : Z) (out : ImageData) (n' : nat) :
  (processImage r n σ source pixelate blockSize quantize paletteSize
     maxKMeansIters).2 = Some (out, n') ->
  out = mkImageData (width source) (height source) (fresh (dom σ)).
Proof.
  unfold processImage, copy_image, qunatizeImage. simpl.
  destruct quantize.
  - destruct (buildPalette _ _ _ _ _ _) as [[palette n'']|]; simpl.
    + destruct (quantize_data _ _) as [q|]; simpl; congruence.
    + discriminate.
  - simpl. congruence.
Qed.

(** C1.  Whatever the parameters and the random draws, and whether the run
    returns or throws, a run of [processImage] leaves the caller's buffer
    as it was, and no other array that existed before the run is changed.
    When the run returns, the returned image refers to an array that did
    not exist before the run (hence not the caller's), with the
    dimensions of the source. *)
Theorem processImage_source_unchanged (r : rng) (n : nat)
    (σ : gmap loc (list Z)) (source : ImageData) (pixelate : bool)
    (blockSize : Q) (quantize : bool) (paletteSize maxKMeansIters : Z)
    (d : list Z) :
  σ !! data source = Some d ->
  let run := processImage r n σ source pixelate blockSize quantize
               paletteSize maxKMeansIters in
  run.1 !! data source = Some d /\
  σ ⊆ run.1 /\
  match run.2 with
  | Some (out, _) =>
      data out <> data source /\ σ !! data out = None /\
      is_Some (run.1 !! data out) /\
      width out = width source /\ height out = height source
  | None => True
  end.
Proof.
  intros Hsrc run.
  assert (Hfresh : σ !! fresh (dom σ) = None)
    by (apply not_elem_of_dom, is_fresh).
  split; [|split].
  - unfold run. rewrite processImage_frame; [exact Hsrc|].
    intros E. rewrite E in Hsrc. congruence.
  - apply map_subseteq_spec. intros l x Hx.
    unfold run. rewrite processImage_frame; [exact Hx|].
    intros E. rewrite E in Hx. congruence.
  - destruct (run.2) as [[out n']|] eqn:E; [|exact I].
    apply processImage_result in E. subst out. simpl.
    split; [intros E; rewrite <- E in Hsrc; congruence|].
    split; [exact Hfresh|]. split; [|auto].
    unfold run, processImage, copy_image, qunatizeImage, pixelateImage. simpl.
    destruct quantize.
    + destruct (buildPalette _ _ _ _ _ _) as [[palette n'']|]; simpl.
      * destruct (quantize_data _ _) as [q|]; simpl.
        -- destruct pixelate; simpl; rewrite lookup_insert_eq; eauto.
        -- rewrite lookup_insert_eq; eauto.
      * rewrite lookup_insert_eq; eauto.
    + destruct pixelate; simpl; rewrite lookup_insert_eq; eauto.
Qed.

Lemma processImage_source_unchanged_witness :
  demo_store !! data demo_image = Some demo_bytes /\
  (processImage demo_rng 0 demo_store demo_image true (2 # 1) true 2 8).1
    !! data demo_image = Some demo_bytes.
Proof.
  split; [reflexivity|].
  exact (proj1 (processImage_source_unchanged demo_rng 0 demo_store demo_image
                  true (2 # 1) true 2 8 demo_bytes eq_refl)).
Defined.

(** C8.  With [doQuantize = false] and [doPixelate = false] the run
    returns an image of the same width and height whose array holds
    exactly the bytes of the input, and no random draw is made. *)
Theorem processImage_neither_effect (r : rng) (n : nat)
    (σ : gmap loc (list Z)) (source : ImageData) (blockSize : Q)
    (paletteSize maxKMeansIters : Z) :
  exists (σ' : gmap loc (list Z)) (out : ImageData),
    processImage r n σ source false blockSize false paletteSize
      maxKMeansIters = (σ', Some (out, n)) /\
    width out = width source /\
    height out = height source /\
    σ' !! data out = Some (bytes_of σ (data source)).
Proof.
  unfold processImage, copy_image. simpl.
  eexists _, _. split; [reflexivity|]. simpl.
  repeat split. apply lookup_insert_eq.
Qed.

Example processImage_neither_demo :
  let run := processImage demo_rng 0 demo_store demo_image false (2 # 1)
               false 2 8 in
  run.1 !! 2%positive = Some demo_bytes /\
  run.2 = Some (mkImageData 2 2 2%positive, 0%nat).
Proof. vm_compute. split; reflexivity. Qed.

(** ** Nearest-colour search *)

Lemma dist2_rgb_of (p e : color) :
  dist2 (rgb_of p) (rgb_of e) = Some (sq_dist p e).
Proof. destruct p as [[r g] b], e as [[r' g'] b']. reflexivity. Qed.

(** The scan returns an index of the array, or the initial [bestIdx]. *)
Lemma nearest_from_bound (p : RGB) (cs : list RGB) (c bestIdx : nat)
    (bestDist : dbound) :
  (bestIdx < c + length cs)%nat ->
  (nearest_from p cs c bestIdx bestDist < c + length cs)%nat.
Proof.
  revert c bestIdx bestDist.
  induction cs as [|center rest IH]; intros c bestIdx bestDist Hb;
    cbn [nearest_from length] in *.
  - exact Hb.
  - replace (c + S (length rest))%nat with (S c + length rest)%nat in * by lia.
    destruct (dist2 p center) as [dist|]; [|apply IH; exact Hb].
    destruct (lt_bound (Some dist) bestDist); apply IH; lia.
Qed.

Lemma nearest_bound (p : RGB) (cs : list RGB) :
  cs <> [] -> (nearest cs p < length cs)%nat.
Proof.
  intros Hne. unfold nearest.
  apply (nearest_from_bound p cs 0 0 Infinity).
  destruct cs; [congruence | simpl; lia].
Qed.

Lemma nearest_from_first (p : color) (cs pre : list color) (bestIdx : nat)
    (bestDist : dbound) :
  scanned p pre bestIdx bestDist ->
  pre ++ cs <> [] ->
  first_nearest (pre ++ cs) p
    (nearest_from (rgb_of p) (map rgb_of cs) (length pre) bestIdx bestDist).
Proof.
  revert pre bestIdx bestDist.
  induction cs as [|center rest IH]; intros pre bestIdx bestDist Hsc Hne.
  - rewrite app_nil_r in *. simpl.
    destruct bestDist as [|dj]; [destruct Hsc; congruence | apply Hsc].
  - simpl. rewrite dist2_rgb_of.
    replace (pre ++ center :: rest) with ((pre ++ [center]) ++ rest)
      by (rewrite <- app_assoc; reflexivity).
    replace (S (length pre)) with (length (pre ++ [center]))
      by (rewrite length_app; simpl; lia).
    assert (Hne' : (pre ++ [center]) ++ rest <> [])
      by (destruct pre; discriminate).
    destruct bestDist as [|dj]; simpl.
    + destruct Hsc as [-> ->]. apply IH; [|exact Hne'].
      simpl. split.
      * exists center. split; [reflexivity|]. split.
        -- intros [|i] e' He'; simpl in He'; [|discriminate].
           injection He' as <-. lia.
        -- intros i e' Hi. lia.
      * exists center. split; reflexivity.
    + destruct Hsc as [(e & He & Hmin & Hfirst) (e0 & He0 & Hd)].
      assert (e0 = e) by congruence. subst e0.
      assert (Hlt : (bestIdx < length pre)%nat) by (eapply lookup_lt_Some; eauto).
      destruct (Z.ltb_spec (sq_dist p center) dj) as [Hless|Hge].
      * apply IH; [|exact Hne']. simpl. split.
        -- exists center. split; [apply list_lookup_middle; reflexivity|].
           split.
           ++ intros i e' He'.
              destruct (decide (i < length pre)%nat) as [Hi|Hi].
              ** rewrite lookup_app_l in He' by exact Hi.
                 specialize (Hmin i e' He'). lia.
              ** rewrite lookup_app_r in He' by lia.
                 destruct (i - length pre)%nat; simpl in He'; [|discriminate].
                 injection He' as <-. lia.
           ++ intros i e' Hi He'.
              rewrite lookup_app_l in He' by exact Hi.
              specialize (Hmin i e' He'). lia.
        -- exists center. split; [apply list_lookup_middle; reflexivity | reflexivity].
      * apply IH; [|exact Hne']. simpl. split.
        -- exists e. split; [rewrite lookup_app_l by exact Hlt; exact He|].
           split.
           ++ intros i e' He'.
              destruct (decide (i < length pre)%nat) as [Hi|Hi].
              ** rewrite lookup_app_l in He' by exact Hi. eauto.
              ** rewrite lookup_app_r in He' by lia.
                 destruct (i - length pre)%nat; simpl in He'; [|discriminate].
                 injection He' as <-. lia.
           ++ intros i e' Hi He'.
              rewrite lookup_app_l in He' by lia. eauto.
        -- exists e. split; [rewrite lookup_app_l by exact Hlt; exact He | exact Hd].
Qed.

(** On colours the scan finds the lowest index at minimum distance. *)
Lemma nearest_first_nearest (palette : list color) (p : color) :
  palette <> [] ->
  first_nearest palette p (nearest (map rgb_of palette) (rgb_of p)).
Proof.
  intros Hne. unfold nearest.
  apply (nearest_from_first p palette [] 0 Infinity); [|exact Hne].
  simpl. split; reflexivity.
Qed.

(** ** qunatizeImage *)

Lemma quantize_pixel_step (palette : list RGB) (d : list Z) (i : Z)
    (st : option (list Z)) :
  palette <> [] -> 0 <= i ->
  quantizing palette d i st ->
  quantizing palette d (i + 1) (st ≫= quantize_pixel palette i).
Proof.
  intros Hne Hi (t & -> & Hlen & Hdone & Hrest). simpl.
  unfold quantize_pixel. cbv zeta.
  assert (Hread : read_rgb t i = read_rgb d i).
  { unfold read_rgb. rewrite !Hrest by lia. reflexivity. }
  rewrite Hread.
  destruct (lookup_lt_is_Some_2 palette _ (nearest_bound (read_rgb d i) palette Hne))
    as [[[nr ng] nb] Hbest].
  rewrite Hbest. simpl.
  eexists. split; [reflexivity|]. split; [rewrite !store8_length; exact Hlen|].
  split.
  - intros m Hm Hml.
    destruct (Z.lt_ge_cases m (i * 4)) as [Hlow|Hhigh].
    + rewrite !lookupZ_store8_ne by lia. apply Hdone; lia.
    + assert (Hdiv : m / 4 = i)
        by (symmetry; apply (Z.div_unique m 4 i (m - i * 4)); lia).
      assert (Hmod : m mod 4 = m - i * 4)
        by (symmetry; apply (Z.mod_unique m 4 i (m - i * 4)); lia).
      unfold quantized_byte. rewrite Hdiv, Hmod, Hbest. simpl.
      destruct (Z.eq_dec m (i * 4 + 3)) as [->|N3].
      { replace (i * 4 + 3 - i * 4 =? 3) with true by lia.
        rewrite !lookupZ_store8_ne by lia. apply Hrest. lia. }
      replace (m - i * 4 =? 3) with false by lia.
      destruct (Z.eq_dec m (i * 4 + 2)) as [->|N2].
      { replace (i * 4 + 2 - i * 4 =? 0) with false by lia.
        replace (i * 4 + 2 - i * 4 =? 1) with false by lia.
        apply lookupZ_store8_eq. rewrite !store8_length. lia. }
      rewrite lookupZ_store8_ne by lia.
      destruct (Z.eq_dec m (i * 4 + 1)) as [->|N1].
      { replace (i * 4 + 1 - i * 4 =? 0) with false by lia.
        replace (i * 4 + 1 - i * 4 =? 1) with true by lia.
        apply lookupZ_store8_eq. rewrite !store8_length. lia. }
      rewrite lookupZ_store8_ne by lia.
      assert (m = i * 4) by lia. subst m.
      replace (i * 4 - i * 4 =? 0) with true by lia.
      apply lookupZ_store8_eq. lia.
  - intros m Hm. rewrite !lookupZ_store8_ne by lia. apply Hrest. lia.
Qed.

(** Byte-wise description of palette application, for a buffer of any
    length and a non-empty palette: it does not throw, keeps the length,
    and leaves [quantized_byte] at every index. *)
Lemma quantize_data_spec (palette : list RGB) (d : list Z) :
  palette <> [] ->
  exists d', quantize_data palette d = Some d' /\
    length d' = length d /\
    forall m, 0 <= m < Z.of_nat (length d) ->
      lookupZ d' m = quantized_byte palette d m.
Proof.
  intros Hne. unfold quantize_data.
  destruct (for_loop_inv
    (fun i st => 0 <= i /\ quantizing palette d i st)
    (fun i st => st ≫= quantize_pixel palette i)
    ((Z.of_nat (length d) + 3) / 4) 1 ltac:(lia)) with (i := 0) (s := Some d)
    as (j & Hj & _ & (t & Ht & Hlen & Hdone & _)).
  - intros i st _ [Hi Hq]. split; [lia|].
    apply quantize_pixel_step; assumption.
  - split; [lia|]. exists d. split; [reflexivity|]. split; [reflexivity|].
    split; [intros m Hm; lia | reflexivity].
  - exists t. split; [exact Ht|]. split; [exact Hlen|].
    intros m Hm. apply Hdone; [|lia].
    pose proof (Z.mul_succ_div_gt (Z.of_nat (length d) + 3) 4 ltac:(lia)).
    lia.
Qed.

Lemma quantized_byte_rgb (palette : list color) (d : list Z) (i c : Z)
    (r g b a : Z) (j : nat) (e : color) :
  pixel_rgba d i = Some (r, g, b, a) ->
  nearest (map rgb_of palette) (rgb_of (r, g, b)) = j ->
  palette !! j = Some e -> is_color e ->
  0 <= c < 3 ->
  quantized_byte (map rgb_of palette) d (i * 4 + c)
  = rgb_channel (rgb_of e) c.
Proof.
  intros Hpix Hj He Hcol Hc.
  assert (Hdiv : (i * 4 + c) / 4 = i)
    by (symmetry; apply (Z.div_unique (i * 4 + c) 4 i c); lia).
  assert (Hmod : (i * 4 + c) mod 4 = c)
    by (symmetry; apply (Z.mod_unique (i * 4 + c) 4 i c); lia).
  unfold quantized_byte. rewrite Hdiv, Hmod.
  replace (c =? 3) with false by lia.
  assert (Hread : read_rgb d i = rgb_of (r, g, b)).
  { unfold pixel_rgba in Hpix. unfold read_rgb. simpl.
    destruct (lookupZ d (i * 4)); [|discriminate].
    destruct (lookupZ d (i * 4 + 1)); [|discriminate].
    destruct (lookupZ d (i * 4 + 2)); [|discriminate].
    destruct (lookupZ d (i * 4 + 3)); [|discriminate].
    simpl in Hpix. congruence. }
  rewrite Hread, Hj, list_lookup_fmap, He. simpl.
  destruct e as [[r' g'] b']. simpl in *.
  destruct (c =? 0); [simpl; rewrite clamp8_id by lia; reflexivity|].
  destruct (c =? 1); simpl; rewrite clamp8_id by lia; reflexivity.
Qed.

(** C2.  With a non-empty palette of colours, palette application does not
    throw, keeps the length of the buffer, and turns every pixel
    [(r, g, b, a)] into [(r', g', b', a)] where [(r', g', b')] is the
    palette entry of lowest index among those at minimum squared Euclidean
    distance from [(r, g, b)]; in particular the new RGB value is one of the
    palette entries and the alpha byte is unchanged. *)
Theorem qunatizeImage_nearest_entry
    (σ : gmap loc (list Z)) (img : ImageData) (palette : list color)
    (d : list Z) :
  σ !! data img = Some d ->
  palette <> [] ->
  Forall is_color palette ->
  exists d',
    qunatizeImage σ img (map rgb_of palette) = Some (<[data img := d']> σ) /\
    length d' = length d /\
    forall i r g b a, pixel_rgba d i = Some (r, g, b, a) ->
      exists j r' g' b',
        first_nearest palette (r, g, b) j /\
        palette !! j = Some (r', g', b') /\
        (r', g', b') ∈ palette /\
        pixel_rgba d' i = Some (r', g', b', a).
Proof.
  intros Hσ Hne Hcols.
  assert (Hne' : map rgb_of palette <> []) by (destruct palette; [congruence | discriminate]).
  destruct (quantize_data_spec (map rgb_of palette) d Hne') as (d' & Hq & Hlen & Hbytes).
  exists d'. unfold qunatizeImage. rewrite (bytes_of_lookup σ _ d Hσ), Hq. simpl.
  split; [reflexivity|]. split; [exact Hlen|].
  intros i r g b a Hpix.
  pose proof (nearest_first_nearest palette (r, g, b) Hne) as Hfirst.
  set (j := nearest (map rgb_of palette) (rgb_of (r, g, b))) in *.
  pose proof Hfirst as (e & He & _).
  assert (Hcol : is_color e).
  { rewrite Forall_forall in Hcols. apply Hcols.
    apply list_elem_of_lookup. eauto. }
  destruct e as [[r' g'] b'] eqn:Ee.
  exists j, r', g', b'. split; [exact Hfirst|]. split; [exact He|].
  split; [apply list_elem_of_lookup; eauto|].
  assert (Hin : forall c, 0 <= c < 4 -> 0 <= i * 4 + c < Z.of_nat (length d)).
  { intros c Hc. unfold pixel_rgba in Hpix.
    destruct (lookupZ d (i * 4)) eqn:E0; [|discriminate].
    destruct (lookupZ d (i * 4 + 1)) eqn:E1; [|discriminate].
    destruct (lookupZ d (i * 4 + 2)) eqn:E2; [|discriminate].
    destruct (lookupZ d (i * 4 + 3)) eqn:E3; [|discriminate].
    apply lookupZ_Some_lt in E0, E3. lia. }
  assert (Ha : lookupZ d' (i * 4 + 3) = Some a).
  { rewrite Hbytes by (apply Hin; lia). unfold quantized_byte.
    replace ((i * 4 + 3) mod 4) with 3
      by (apply (Z.mod_unique (i * 4 + 3) 4 i 3); lia).
    simpl. unfold pixel_rgba in Hpix.
    destruct (lookupZ d (i * 4)); [|discriminate].
    destruct (lookupZ d (i * 4 + 1)); [|discriminate].
    destruct (lookupZ d (i * 4 + 2)); [|discriminate].
    destruct (lookupZ d (i * 4 + 3)); [|discriminate].
    simpl in Hpix. congruence. }
  unfold pixel_rgba.
  replace (i * 4) with (i * 4 + 0) at 1 by lia.
  rewrite !Hbytes by (apply Hin; lia).
  rewrite (quantized_byte_rgb palette d i 0 r g b a j (r', g', b'))
    by first [assumption | reflexivity | lia].
  rewrite (quantized_byte_rgb palette d i 1 r g b a j (r', g', b'))
    by first [assumption | reflexivity | lia].
  rewrite (quantized_byte_rgb palette d i 2 r g b a j (r', g', b'))
    by first [assumption | reflexivity | lia].
  rewrite <- Hbytes by (apply Hin; lia). rewrite Ha. reflexivity.
Qed.

Lemma qunatizeImage_nearest_entry_witness :
  demo_store !! data demo_image = Some demo_bytes /\
  [(0, 0, 0); (255, 255, 255)] <> [] /\
  Forall is_color [(0, 0, 0); (255, 255, 255)] /\
  exists d',
    qunatizeImage demo_store demo_image
      (map rgb_of [(0, 0, 0); (255, 255, 255)])
    = Some (<[data demo_image := d']> demo_store) /\
    length d' = length demo_bytes.
Proof.
  assert (Hc : Forall is_color [(0, 0, 0); (255, 255, 255)])
    by (repeat constructor; simpl; lia).
  split; [reflexivity|]. split; [discriminate|]. split; [exact Hc|].
  destruct (qunatizeImage_nearest_entry demo_store demo_image
              [(0, 0, 0); (255, 255, 255)] demo_bytes eq_refl
              ltac:(discriminate) Hc) as (d' & Hq & Hl & _).
  exists d'. split; [exact Hq | exact Hl].
Defined.

(** Red, green and blue are nearer to black, the grey pixel
    (100, 100, 100) too; alpha bytes stay. *)
Example quantize_demo :
  quantize_data (map rgb_of [(0, 0, 0); (255, 255, 255)]) demo_bytes
  = Some [0; 0; 0; 255;  0; 0; 0; 255;  0; 0; 0; 255;  0; 0; 0; 128].
Proof. vm_compute. reflexivity. Qed.

(** A tie goes to the lower index: (5, 0, 0) is at distance 25 from both
    entries. *)
Example quantize_tie :
  quantize_data (map rgb_of [(10, 0, 0); (0, 0, 0)]) [5; 0; 0; 7]
  = Some [10; 0; 0; 7].
Proof. vm_compute. reflexivity. Qed.

(** ** Sampling *)

Lemma sample_step_pos (total : Z) : 1 <= sample_step total.
Proof. unfold sample_step. lia. Qed.

Lemma strided_pixels_snoc (d : list Z) (step : Z) (n : nat) :
  strided_pixels d step (S n)
  = strided_pixels d step n ++ [read_rgb d (Z.of_nat n * step)].
Proof.
  unfold strided_pixels. rewrite seq_S, fmap_app. reflexivity.
Qed.

(** The sampling loop collects the strided pixels, [ceil(total / step)]
    of them. *)
Lemma collect_samples_strided (w h : Z) (d : list Z) :
  0 < w * h ->
  exists n : nat,
    collect_samples w h d = strided_pixels d (sample_step (w * h)) n /\
    Z.of_nat n = (w * h + sample_step (w * h) - 1) / sample_step (w * h).
Proof.
  intros Htot. unfold collect_samples.
  set (total := w * h) in *. set (step := sample_step total).
  assert (Hstep : 1 <= step) by apply sample_step_pos.
  destruct (for_loop_inv
    (fun i samples => i < total + step /\
       exists n : nat, i = Z.of_nat n * step /\
         samples = strided_pixels d step n)
    (fun i samples => samples ++ [read_rgb d i]) total step Hstep)
    with (i := 0) (s := @nil RGB)
    as (j & Hj & Hlt & n & Hn & Hs).
  - intros i samples Hi (_ & n & -> & ->). split; [lia|].
    exists (S n). split; [lia|]. rewrite strided_pixels_snoc. reflexivity.
  - split; [lia|]. exists 0%nat. split; [lia | reflexivity].
  - exists n. split; [exact Hs|].
    apply (Z.div_unique _ step _ (total + step - 1 - Z.of_nat n * step)); lia.
Qed.

Lemma collect_samples_empty (w h : Z) (d : list Z) :
  w * h <= 0 -> collect_samples w h d = [].
Proof.
  intros Htot. unfold collect_samples.
  rewrite for_loop_unfold by apply sample_step_pos.
  destruct (Z.ltb_spec 0 (w * h)); [lia | reflexivity].
Qed.

Lemma strided_pixels_length (d : list Z) (step : Z) (n : nat) :
  length (strided_pixels d step n) = n.
Proof. unfold strided_pixels. rewrite length_fmap, length_seq. reflexivity. Qed.

Lemma collect_samples_nonempty (w h : Z) (d : list Z) :
  0 < w * h -> (0 < length (collect_samples w h d))%nat.
Proof.
  intros Htot.
  destruct (collect_samples_strided w h d Htot) as (n & -> & Hn).
  rewrite strided_pixels_length.
  pose proof (sample_step_pos (w * h)) as Hs.
  assert (1 <= (w * h + sample_step (w * h) - 1) / sample_step (w * h));
    [|lia].
  apply Z.div_le_lower_bound; lia.
Qed.

(** C5, as the code has it.  For a non-empty image the sample set consists
    of the pixels at indices [0, step, 2 * step, ...] below [totalPixels],
    with [step = max(1, floor(totalPixels / 5000))].  It is the whole
    pixel population when [totalPixels < 10000] (the stride is 1), and a
    proper subsample when [totalPixels >= 10000]. *)
Theorem sample_set_strided (w h : Z) (d : list Z) :
  0 < w * h ->
  exists n : nat,
    collect_samples w h d = strided_pixels d (sample_step (w * h)) n /\
    length (collect_samples w h d) = n /\
    Z.of_nat n = (w * h + sample_step (w * h) - 1) / sample_step (w * h) /\
    (w * h < 10000 <-> sample_step (w * h) = 1) /\
    (w * h < 10000 <-> Z.of_nat n = w * h) /\
    (10000 <= w * h <-> proper_subsample w h d).
Proof.
  intros Htot.
  destruct (collect_samples_strided w h d Htot) as (n & Hs & Hn).
  exists n. unfold proper_subsample. rewrite Hs, strided_pixels_length.
  split; [reflexivity|]. split; [reflexivity|]. split; [exact Hn|].
  set (total := w * h) in *.
  assert (Hstep : sample_step total = Z.max 1 (total / 5000)) by reflexivity.
  destruct (Z.lt_ge_cases total 10000) as [Hsmall|Hlarge].
  - assert (Hq : total / 5000 <= 1).
    { assert (total / 5000 < 2); [apply Z.div_lt_upper_bound; lia | lia]. }
    assert (H1 : sample_step total = 1) by lia.
    rewrite H1 in Hn. replace (total + 1 - 1) with total in Hn by lia.
    rewrite Z.div_1_r in Hn.
    repeat split; intros; lia.
  - assert (Hq : 2 <= total / 5000) by (apply Z.div_le_lower_bound; lia).
    assert (H2 : 2 <= sample_step total) by lia.
    assert (Hless : Z.of_nat n < total).
    { rewrite Hn. apply Z.div_lt_upper_bound; [lia | nia]. }
    repeat split; intros; lia.
Qed.

Lemma sample_set_strided_witness :
  0 < 2 * 2 /\
  exists n : nat,
    collect_samples 2 2 demo_bytes = strided_pixels demo_bytes (sample_step (2 * 2)) n /\
    length (collect_samples 2 2 demo_bytes) = n.
Proof.
  split; [lia|].
  destruct (sample_set_strided 2 2 demo_bytes ltac:(lia)) as (n & H1 & H2 & _).
  exists n. split; [exact H1 | exact H2].
Defined.

(** C5 as stated fails: on the 2x2 image every pixel is sampled. *)
Lemma sample_set_can_be_full : ~ proper_subsample 2 2 demo_bytes.
Proof. unfold proper_subsample. vm_compute. discriminate. Qed.

Example collect_samples_demo :
  collect_samples 2 2 demo_bytes
  = map rgb_of [(255, 0, 0); (0, 255, 0); (0, 0, 255); (100, 100, 100)].
Proof. vm_compute. reflexivity. Qed.

(** From 10000 pixels on the stride exceeds 1: a 100x100 image gives
    stride 2 and 5000 samples. *)
Example sample_step_10000 : sample_step (100 * 100) = 2.
Proof. reflexivity. Qed.

(** ** The random source *)

(** [Math.floor(Math.random() * length)] is an index of the array. *)
Lemma random_index_range (q : Q) (len : Z) :
  (0 <= q)%Q -> (q < 1)%Q -> 0 < len ->
  0 <= Qfloor (q * inject_Z len) < len.
Proof.
  intros Hq0 Hq1 Hlen. split.
  - rewrite <- (Qfloor_Z 0). apply Qfloor_resp_le.
    apply Qmult_le_0_compat; [exact Hq0|].
    change 0%Q with (inject_Z 0). rewrite <- Zle_Qle. lia.
  - rewrite Zlt_Qlt.
    apply Qle_lt_trans with (q * inject_Z len)%Q; [apply Qfloor_le|].
    rewrite <- (Qmult_1_l (inject_Z len)) at 2.
    apply Qmult_lt_compat_r; [|exact Hq1].
    change 0%Q with (inject_Z 0). rewrite <- Zlt_Qlt. exact Hlen.
Qed.

Lemma random_sample_Some (r : rng) (samples : list RGB) (n : nat) :
  valid_rng r -> (0 < length samples)%nat ->
  exists s, random_sample r samples n = Some (s, S n) /\ s ∈ samples.
Proof.
  intros Hr Hlen. unfold random_sample.
  destruct (Hr n) as [H0 H1].
  pose proof (random_index_range (r n) (Z.of_nat (length samples)) H0 H1
                ltac:(lia)) as Hi.
  destruct (lookupZ_lt_is_Some samples _ Hi) as [s Hs].
  exists s. rewrite Hs. simpl. split; [reflexivity|].
  unfold lookupZ in Hs. destruct (0 <=? _); [|discriminate].
  apply list_elem_of_lookup. eauto.
Qed.

(** ** buildPalette: it returns, with [k] entries *)

Lemma seed_centers_spec (r : rng) (samples : list RGB) (k : Z) (n : nat) :
  valid_rng r -> (0 < length samples)%nat -> 0 <= k ->
  exists centers,
    seed_centers r samples k n = Some (centers, (n + Z.to_nat k)%nat) /\
    length centers = Z.to_nat k /\
    Forall (fun c => c ∈ samples) centers.
Proof.
  intros Hr Hlen Hk. unfold seed_centers.
  destruct (for_loop_inv
    (fun i st => 0 <= i <= k /\
       exists centers, st = Some (centers, (n + Z.to_nat i)%nat) /\
         length centers = Z.to_nat i /\ Forall (fun c => c ∈ samples) centers)
    (fun (_ : Z) (st : option (list RGB * nat)) =>
       '(centers, n) ← st;
       '(s, n') ← random_sample r samples n;
       Some (centers ++ [s], n'))
    k 1 ltac:(lia)) with (i := 0) (s := Some (@nil RGB, n))
    as (j & Hj & Hjk & centers & Hst & Hl & Hin).
  - intros i st Hi (Hik & centers & -> & Hl & Hin). split; [lia|]. simpl.
    destruct (random_sample_Some r samples (n + Z.to_nat i) Hr Hlen)
      as (s & -> & Hs). simpl.
    exists (centers ++ [s]). split; [f_equal; f_equal; lia|].
    split; [rewrite length_app; simpl; lia|].
    apply Forall_app. split; [exact Hin | repeat constructor; exact Hs].
  - split; [lia|]. exists []. split; [f_equal; f_equal; lia|].
    split; [reflexivity | constructor].
  - assert (j = k) by lia. subst j. exists centers. auto.
Qed.

Lemma add_sample_Some (sums : list RGB) (counts : list Z) (p : RGB) (c K : nat) :
  length sums = K -> length counts = K -> (c < K)%nat ->
  exists sums' counts',
    add_sample (sums, counts) (p, c) = Some (sums', counts') /\
    length sums' = K /\ length counts' = K.
Proof.
  intros Hs Hc Hlt. unfold add_sample. destruct p as [[p0 p1] p2].
  destruct (lookup_lt_is_Some_2 sums c ltac:(lia)) as [[[s0 s1] s2] ->].
  destruct (lookup_lt_is_Some_2 counts c ltac:(lia)) as [cnt ->]. simpl.
  eexists _, _. split; [reflexivity|].
  rewrite !length_insert. auto.
Qed.

Lemma accumulate_Some (pcs : list (RGB * nat)) (K : nat) :
  Forall (fun pc => (pc.2 < K)%nat) pcs ->
  forall (sums : list RGB) (counts : list Z),
    length sums = K -> length counts = K ->
    exists sums' counts',
      accumulate pcs (sums, counts) = Some (sums', counts') /\
      length sums' = K /\ length counts' = K.
Proof.
  induction 1 as [|[p c] rest Hc _ IH]; intros sums counts Hs Hcn;
    cbn [accumulate].
  - eauto.
  - destruct (add_sample_Some sums counts p c K Hs Hcn Hc)
      as (sums1 & counts1 & -> & Hs1 & Hc1). simpl.
    apply IH; assumption.
Qed.

Lemma assignments_in_range (centers samples : list RGB) :
  centers <> [] ->
  Forall (fun pc : RGB * nat => (pc.2 < length centers)%nat)
    (zip samples (map (nearest centers) samples)).
Proof.
  intros Hne. induction samples as [|p rest IH]; simpl; constructor.
  - simpl. apply nearest_bound. exact Hne.
  - exact IH.
Qed.

Lemma update_center_Some (r : rng) (samples sums : list RGB)
    (counts : list Z) (c : Z) (centers : list RGB) (n K : nat) :
  valid_rng r -> (0 < length samples)%nat ->
  length centers = K -> length sums = K -> length counts = K ->
  0 <= c < Z.of_nat K ->
  exists centers' n',
    update_center r samples sums counts c (centers, n) = Some (centers', n') /\
    length centers' = K.
Proof.
  intros Hr Hlen Hce Hs Hcn Hc. unfold update_center.
  destruct (lookupZ_lt_is_Some centers c ltac:(lia)) as [e He].
  destruct (lookupZ_lt_is_Some sums c ltac:(lia)) as [[[s0 s1] s2] Hsum].
  destruct (random_sample_Some r samples n Hr Hlen) as (s & Hrs & _).
  rewrite He, Hsum, Hrs. simpl.
  destruct (lookupZ counts c) as [cnt|]; [destruct (0 <? cnt)|];
    eexists _, _; (split; [reflexivity|]); rewrite length_insert; exact Hce.
Qed.

Lemma kmeans_iter_Some (r : rng) (samples : list RGB) (k : Z)
    (centers : list RGB) (n : nat) :
  valid_rng r -> (0 < length samples)%nat -> 1 <= k ->
  length centers = Z.to_nat k ->
  exists centers' n',
    kmeans_iter r samples k (centers, n) = Some (centers', n') /\
    length centers' = Z.to_nat k.
Proof.
  intros Hr Hlen Hk Hce. unfold kmeans_iter. cbv zeta.
  assert (Hne : centers <> []) by (destruct centers; [simpl in Hce; lia | discriminate]).
  pose proof (assignments_in_range centers samples Hne) as Hass.
  rewrite Hce in Hass.
  destruct (accumulate_Some _ _ Hass
              (replicate (Z.to_nat k) (Some 0, Some 0, Some 0))
              (replicate (Z.to_nat k) 0)
              ltac:(apply length_replicate) ltac:(apply length_replicate))
    as (sums & counts & -> & Hs & Hcn). simpl.
  destruct (for_loop_inv
    (fun (c : Z) (st : option (list RGB * nat)) =>
       0 <= c /\ exists centers' n', st = Some (centers', n') /\
         length centers' = Z.to_nat k)
    (fun c st => st ≫= update_center r samples sums counts c)
    k 1 ltac:(lia)) with (i := 0) (s := Some (centers, n))
    as (j & _ & _ & Hfin).
  - intros c st Hc (Hc0 & centers' & n' & -> & Hl). split; [lia|]. simpl.
    apply (update_center_Some r samples sums counts c centers' n'
             (Z.to_nat k)); auto; lia.
  - split; [lia|]. eauto.
  - exact Hfin.
Qed.

Lemma clamp_k_range (k : Z) : 1 <= clamp_k k <= 256.
Proof. unfold clamp_k. lia. Qed.

Lemma build_palette_returns (r : rng) (w h : Z) (d : list Z)
    (k maxIters : Z) (n : nat) :
  valid_rng r -> 0 < w * h ->
  exists palette n',
    build_palette r w h d k maxIters n = Some (palette, n') /\
    length palette = Z.to_nat (clamp_k k).
Proof.
  intros Hr Htot. unfold build_palette.
  pose proof (collect_samples_nonempty w h d Htot) as Hlen.
  pose proof (clamp_k_range k) as Hk.
  destruct (Nat.eqb_spec (length (collect_samples w h d)) 0) as [E|_]; [lia|].
  destruct (seed_centers_spec r (collect_samples w h d) (clamp_k k) n Hr Hlen
              ltac:(lia)) as (centers & Hseed & Hl & _).
  rewrite Hseed.
  destruct (for_loop_inv
    (fun (i : Z) (st : option (list RGB * nat)) =>
       exists centers' n', st = Some (centers', n') /\
         length centers' = Z.to_nat (clamp_k k))
    (fun _ st => st ≫= kmeans_iter r (collect_samples w h d) (clamp_k k))
    maxIters 1 ltac:(lia)) with (i := 0)
      (s := Some (centers, (n + Z.to_nat (clamp_k k))%nat))
    as (j & _ & Hfin).
  - intros i st _ (centers' & n' & -> & Hl'). simpl.
    apply kmeans_iter_Some; auto; lia.
  - eauto.
  - exact Hfin.
Qed.

Lemma build_palette_empty (r : rng) (w h : Z) (d : list Z)
    (k maxIters : Z) (n : nat) :
  w * h <= 0 ->
  build_palette r w h d k maxIters n = Some ([(Some 0, Some 0, Some 0)], n).
Proof.
  intros Htot. unfold build_palette.
  rewrite collect_samples_empty by exact Htot. reflexivity.
Qed.

(** C4.  With a random source that returns numbers of [[0, 1)],
    [buildPalette] returns a palette of exactly [min(max(1, k), 256)]
    entries when the image has at least one pixel, and the single entry
    [(0, 0, 0)], without any random draw, when it has none. *)
Theorem buildPalette_length (r : rng) (σ : gmap loc (list Z))
    (img : ImageData) (k maxIters : Z) (n : nat) :
  valid_rng r ->
  (0 < width img * height img ->
     exists palette n',
       buildPalette r σ img k maxIters n = Some (palette, n') /\
       Z.of_nat (length palette) = Z.min (Z.max 1 k) 256) /\
  (width img * height img <= 0 ->
     buildPalette r σ img k maxIters n
     = Some ([(Some 0, Some 0, Some 0)], n)).
Proof.
  intros Hr. unfold buildPalette. split.
  - intros Htot.
    destruct (build_palette_returns r (width img) (height img)
                (bytes_of σ (data img)) k maxIters n Hr Htot)
      as (palette & n' & Hb & Hl).
    exists palette, n'. split; [exact Hb|].
    rewrite Hl. unfold clamp_k. lia.
  - intros Htot. apply build_palette_empty. exact Htot.
Qed.

Lemma demo_rng_valid : valid_rng demo_rng.
Proof. intros n. unfold demo_rng. split; [discriminate | reflexivity]. Qed.

Lemma buildPalette_length_witness :
  valid_rng demo_rng /\
  exists palette n',
    buildPalette demo_rng demo_store demo_image 300 8 0 = Some (palette, n') /\
    Z.of_nat (length palette) = 256.
Proof.
  split; [exact demo_rng_valid|].
  exact (proj1 (buildPalette_length demo_rng demo_store demo_image 300 8 0
                  demo_rng_valid) ltac:(simpl; lia)).
Defined.

(** Both seeds are the blue pixel (index [floor(4 / 2) = 2]); the first
    iteration puts every sample in cluster 0 and re-seeds cluster 1 with
    a third draw; from the second iteration on cluster 1 holds the blue
    pixel alone. *)
Example buildPalette_demo :
  buildPalette demo_rng demo_store demo_image 2 8 0
  = Some ([(Some 118, Some 118, Some 33); (Some 0, Some 0, Some 255)], 3%nat).
Proof. vm_compute. reflexivity. Qed.

(** ** processImage returns *)

Lemma build_palette_nonempty (r : rng) (w h : Z) (d : list Z)
    (k maxIters : Z) (n : nat) :
  valid_rng r ->
  exists palette n',
    build_palette r w h d k maxIters n = Some (palette, n') /\
    palette <> [].
Proof.
  intros Hr. destruct (Z.lt_ge_cases 0 (w * h)) as [Htot|Htot].
  - destruct (build_palette_returns r w h d k maxIters n Hr Htot)
      as (palette & n' & Hb & Hl).
    exists palette, n'. split; [exact Hb|].
    pose proof (clamp_k_range k). destruct palette; [simpl in Hl; lia | discriminate].
  - rewrite build_palette_empty by exact Htot.
    eexists _, _. split; [reflexivity | discriminate].
Qed.

Lemma pixelate_data_length (w h : Z) (blockSize : Q) (d : list Z) :
  0 <= w -> 0 <= h -> Z.of_nat (length d) = w * h * 4 ->
  length (pixelate_data w h blockSize d) = length d.
Proof. intros Hw Hh Hlen. apply pixelate_data_lookup; assumption. Qed.

(** With a random source in [[0, 1)] and a buffer of the right length,
    a run returns an image of the same dimensions and length. *)
Lemma processImage_returns (r : rng) (n : nat) (σ : gmap loc (list Z))
    (source : ImageData) (pixelate : bool) (blockSize : Q) (quantize : bool)
    (paletteSize maxKMeansIters : Z) (d : list Z) :
  valid_rng r ->
  σ !! data source = Some d ->
  0 <= width source -> 0 <= height source ->
  Z.of_nat (length d) = width source * height source * 4 ->
  exists σ' out n' d',
    processImage r n σ source pixelate blockSize quantize paletteSize
      maxKMeansIters = (σ', Some (out, n')) /\
    width out = width source /\ height out = height source /\
    σ' !! data out = Some d' /\ length d' = length d.
Proof.
  intros Hr Hσ Hw Hh Hlen.
  unfold processImage, copy_image, buildPalette, qunatizeImage, pixelateImage.
  cbn [width height data]. rewrite (bytes_of_lookup σ _ d Hσ).
  destruct quantize.
  - rewrite bytes_of_insert.
    destruct (build_palette_nonempty r (width source) (height source) d
                paletteSize maxKMeansIters n Hr)
      as (palette & n' & -> & Hne).
    destruct (quantize_data_spec palette d Hne) as (q & -> & Hq & _).
    cbn [mbind option_bind].
    destruct pixelate.
    + rewrite bytes_of_insert, insert_insert_eq.
      eexists _, _, _, _. split; [reflexivity|]. cbn [width height data].
      split; [reflexivity|]. split; [reflexivity|].
      split; [apply lookup_insert_eq|].
      rewrite pixelate_data_length by lia. exact Hq.
    + rewrite insert_insert_eq.
      eexists _, _, _, _. split; [reflexivity|]. cbn [width height data].
      split; [reflexivity|]. split; [reflexivity|].
      split; [apply lookup_insert_eq | exact Hq].
  - destruct pixelate.
    + rewrite bytes_of_insert, insert_insert_eq.
      eexists _, _, _, _. split; [reflexivity|]. cbn [width height data].
      split; [reflexivity|]. split; [reflexivity|].
      split; [apply lookup_insert_eq|].
      apply pixelate_data_length; assumption.
    + eexists _, _, _, _. split; [reflexivity|]. cbn [width height data].
      split; [reflexivity|]. split; [reflexivity|].
      split; [apply lookup_insert_eq | reflexivity].
Qed.

(** ** A single sample *)

Lemma dist2_nonneg (p e : RGB) (dd : Z) : dist2 p e = Some dd -> 0 <= dd.
Proof.
  destruct p as [[[p0|] [p1|]] [p2|]], e as [[[e0|] [e1|]] [e2|]];
    simpl; try discriminate.
  intros [= <-].
  pose proof (Z.square_nonneg (p0 - e0)).
  pose proof (Z.square_nonneg (p1 - e1)).
  pose proof (Z.square_nonneg (p2 - e2)). lia.
Qed.

(** Once an entry at distance 0 has been seen the scan keeps it. *)
Lemma nearest_from_zero (p : RGB) (cs : list RGB) (c bestIdx : nat) :
  nearest_from p cs c bestIdx (Finite 0) = bestIdx.
Proof.
  revert c. induction cs as [|center rest IH]; intros c; cbn [nearest_from].
  - reflexivity.
  - destruct (dist2 p center) as [dd|] eqn:E; [|apply IH].
    apply dist2_nonneg in E. simpl.
    destruct (Z.ltb_spec dd 0); [lia | apply IH].
Qed.

Lemma nearest_replicate (e : color) (K : nat) :
  nearest (replicate (S K) (rgb_of e)) (rgb_of e) = 0%nat.
Proof.
  unfold nearest. cbn [replicate nearest_from].
  rewrite dist2_rgb_of. cbn [lt_bound].
  replace (sq_dist e e) with 0 by (destruct e as [[r g] b]; simpl; lia).
  apply nearest_from_zero.
Qed.

Lemma lookupZ_cons_0 {A : Type} (x : A) (l : list A) :
  lookupZ (x :: l) 0 = Some x.
Proof. reflexivity. Qed.

Lemma lookupZ_cons_pos {A : Type} (x : A) (l : list A) (c : Z) :
  0 < c -> lookupZ (x :: l) c = lookupZ l (c - 1).
Proof.
  intros Hc. unfold lookupZ.
  destruct (Z.leb_spec 0 c), (Z.leb_spec 0 (c - 1)); try lia.
  replace (Z.to_nat c) with (S (Z.to_nat (c - 1))) by lia. reflexivity.
Qed.

Lemma lookupZ_replicate {A : Type} (x : A) (K : nat) (c : Z) :
  0 <= c < Z.of_nat K -> lookupZ (replicate K x) c = Some x.
Proof.
  intros Hc. unfold lookupZ. destruct (Z.leb_spec 0 c); [|lia].
  apply lookup_replicate_2. lia.
Qed.

Lemma round_div_one (x : Z) : round_div (Some (0 + x)) 1 = Some x.
Proof.
  unfold round_div. f_equal.
  symmetry. apply (Z.div_unique _ _ x 1); lia.
Qed.

Lemma random_sample_single (r : rng) (s : RGB) (n : nat) :
  valid_rng r -> random_sample r [s] n = Some (s, S n).
Proof.
  intros Hr.
  destruct (random_sample_Some r [s] n Hr ltac:(simpl; lia)) as (s' & E & Hin).
  apply list_elem_of_singleton in Hin. subst s'. exact E.
Qed.

(** With one sample every centroid is, and stays, that sample: centroid 0
    is the mean of the sample alone, the others are re-seeded from it. *)
Lemma kmeans_iter_single (r : rng) (e : color) (k : Z) (n : nat) :
  valid_rng r -> 1 <= k ->
  exists n',
    kmeans_iter r [rgb_of e] k (replicate (Z.to_nat k) (rgb_of e), n)
    = Some (replicate (Z.to_nat k) (rgb_of e), n').
Proof.
  intros Hr Hk. unfold kmeans_iter. cbv zeta.
  destruct (Z.to_nat k) as [|K] eqn:EK; [lia|].
  cbn [map zip zip_with]. rewrite nearest_replicate.
  destruct e as [[r0 g0] b0]. cbn [replicate accumulate add_sample rgb_of].
  cbn [lookup list_lookup mbind option_bind insert list_insert num_op].
  set (s := (Some r0, Some g0, Some b0)).
  destruct (for_loop_inv
    (fun (c : Z) (st : option (list RGB * nat)) =>
       0 <= c /\ exists n', st = Some (s :: replicate K s, n'))
    (fun c st => st ≫=
       update_center r [s]
         ((Some (0 + r0), Some (0 + g0), Some (0 + b0))
            :: replicate K (Some 0, Some 0, Some 0))
         ((0 + 1) :: replicate K 0) c)
    k 1 ltac:(lia)) with (i := 0) (s := Some (s :: replicate K s, n))
    as (j & _ & _ & Hfin).
  - intros c st Hc (Hc0 & n' & ->). split; [lia|].
    cbn [mbind option_bind]. unfold update_center.
    rewrite (random_sample_single r s n' Hr).
    destruct (Z.eq_dec c 0) as [->|Hne].
    + rewrite !lookupZ_cons_0. cbn [mbind option_bind].
      change (0 <? 0 + 1) with true. cbn iota.
      change (Z.to_nat 0) with 0%nat. cbn [insert list_insert].
      change (0 + 1) with 1. rewrite !round_div_one. eauto.
    + rewrite !lookupZ_cons_pos by lia.
      rewrite !lookupZ_replicate by lia. cbn [mbind option_bind].
      change (0 <? 0) with false. cbn iota.
      exists (S n'). f_equal. f_equal.
      apply list_insert_id.
      rewrite <- lookupZ_of_nat, Z2Nat.id by lia.
      rewrite lookupZ_cons_pos by lia. apply lookupZ_replicate. lia.
  - split; [lia|]. eauto.
  - exact Hfin.
Qed.

Lemma collect_samples_one_pixel (r0 g0 b0 a0 : Z) :
  collect_samples 1 1 [r0; g0; b0; a0] = [rgb_of (r0, g0, b0)].
Proof. reflexivity. Qed.

Lemma Forall_singleton_replicate {A : Type} (x : A) (l : list A) :
  Forall (fun c => c ∈ [x]) l -> l = replicate (length l) x.
Proof.
  induction 1 as [|c l Hc _ IH]; simpl; [reflexivity|].
  apply list_elem_of_singleton in Hc. subst c. f_equal. exact IH.
Qed.

Lemma build_palette_one_pixel (r : rng) (r0 g0 b0 a0 : Z)
    (k maxIters : Z) (n : nat) :
  valid_rng r ->
  exists n',
    build_palette r 1 1 [r0; g0; b0; a0] k maxIters n
    = Some (replicate (Z.to_nat (clamp_k k)) (rgb_of (r0, g0, b0)), n').
Proof.
  intros Hr. unfold build_palette. rewrite collect_samples_one_pixel.
  cbn [length Nat.eqb].
  set (s := rgb_of (r0, g0, b0)).
  pose proof (clamp_k_range k) as Hk.
  destruct (seed_centers_spec r [s] (clamp_k k) n Hr ltac:(simpl; lia)
              ltac:(lia)) as (centers & Hseed & Hl & Hall).
  apply Forall_singleton_replicate in Hall. rewrite Hl in Hall. subst centers.
  rewrite Hseed.
  destruct (for_loop_inv
    (fun (i : Z) (st : option (list RGB * nat)) =>
       exists n', st = Some (replicate (Z.to_nat (clamp_k k)) s, n'))
    (fun _ st => st ≫= kmeans_iter r [s] (clamp_k k))
    maxIters 1 ltac:(lia)) with (i := 0)
      (s := Some (replicate (Z.to_nat (clamp_k k)) s,
                  (n + Z.to_nat (clamp_k k))%nat))
    as (j & _ & Hfin).
  - intros i st _ (n' & ->). cbn [mbind option_bind].
    apply kmeans_iter_single; [exact Hr | lia].
  - eauto.
  - exact Hfin.
Qed.

(** C6, as the code has it.  For a 1x1 image and any parameters the run
    returns a 1x1 image (four bytes); the palette built for it has
    [min(max(1, paletteSize), 256)] entries, all equal to the colour of
    the single pixel. *)
Theorem one_pixel_image (r : rng) (n : nat) (σ : gmap loc (list Z))
    (img : ImageData) (pixelate : bool) (blockSize : Q) (quantize : bool)
    (paletteSize maxKMeansIters : Z) (r0 g0 b0 a0 : Z) :
  valid_rng r ->
  width img = 1 -> height img = 1 ->
  σ !! data img = Some [r0; g0; b0; a0] ->
  (exists σ' out n' d',
     processImage r n σ img pixelate blockSize quantize paletteSize
       maxKMeansIters = (σ', Some (out, n')) /\
     width out = 1 /\ height out = 1 /\
     σ' !! data out = Some d' /\ length d' = 4%nat) /\
  (exists palette n',
     buildPalette r σ img paletteSize maxKMeansIters n = Some (palette, n') /\
     Z.of_nat (length palette) = Z.min (Z.max 1 paletteSize) 256 /\
     Forall (fun e => e = (Some r0, Some g0, Some b0)) palette).
Proof.
  intros Hr Hw Hh Hσ. split.
  - destruct (processImage_returns r n σ img pixelate blockSize quantize
                paletteSize maxKMeansIters [r0; g0; b0; a0] Hr Hσ)
      as (σ' & out & n' & d' & Hrun & Hw' & Hh' & Hd' & Hl');
      [lia | lia | rewrite Hw, Hh; reflexivity |].
    exists σ', out, n', d'. split; [exact Hrun|].
    split; [lia|]. split; [lia|]. split; [exact Hd' | exact Hl'].
  - unfold buildPalette. rewrite Hw, Hh, (bytes_of_lookup σ _ _ Hσ).
    destruct (build_palette_one_pixel r r0 g0 b0 a0 paletteSize
                maxKMeansIters n Hr) as [n' Hb].
    eexists _, n'. split; [exact Hb|]. split.
    + rewrite length_replicate. unfold clamp_k. lia.
    + apply Forall_replicate. reflexivity.
Qed.

Lemma pixel_store_lookup :
  pixel_store !! data pixel_image = Some [10; 20; 30; 255].
Proof. reflexivity. Qed.

Lemma one_pixel_image_witness :
  valid_rng demo_rng /\ width pixel_image = 1 /\ height pixel_image = 1 /\
  pixel_store !! data pixel_image = Some [10; 20; 30; 255] /\
  exists palette n',
    buildPalette demo_rng pixel_store pixel_image 3 8 0 = Some (palette, n') /\
    Z.of_nat (length palette) = 3 /\
    Forall (fun e => e = (Some 10, Some 20, Some 30)) palette.
Proof.
  split; [exact demo_rng_valid|].
  split; [reflexivity|]. split; [reflexivity|].
  split; [exact pixel_store_lookup|].
  exact (proj2 (one_pixel_image demo_rng 0 pixel_store pixel_image
                  true (2 # 1) true 3 8 10 20 30 255
                  demo_rng_valid eq_refl eq_refl pixel_store_lookup)).
Defined.

(** C6 as stated fails: with [paletteSize = 2] the palette built for the
    1x1 image has two entries (twice the pixel's colour). *)
Lemma one_pixel_palette_not_size_one :
  ~ palette_of_size_one demo_rng pixel_store pixel_image 2 8 0.
Proof.
  intros (palette & n' & Hb & Hl).
  vm_compute in Hb. injection Hb as <- _. discriminate Hl.
Qed.

Example one_pixel_palette_demo :
  buildPalette demo_rng pixel_store pixel_image 2 8 0
  = Some ([(Some 10, Some 20, Some 30); (Some 10, Some 20, Some 30)], 10%nat).
Proof. vm_compute. reflexivity. Qed.

(** The capped quantized output of the 1x1 image is the pixel itself. *)
Example one_pixel_run_demo :
  let run := processImage demo_rng 0 pixel_store pixel_image true (16 # 1)
               true 16 8 in
  run.1 !! 2%positive = Some [10; 20; 30; 255] /\
  fst <$> run.2 = Some (mkImageData 1 1 2%positive).
Proof. vm_compute. split; reflexivity. Qed.

(** ** The random draws determine the run *)

Lemma for_loop_ext_inv {S : Type} (Inv : Z -> S -> Prop)
    (body1 body2 : Z -> S -> S) (bound step : Z) :
  1 <= step ->
  (forall j t, j < bound -> Inv j t ->
     body1 j t = body2 j t /\ Inv (j + step) (body1 j t)) ->
  forall i s, Inv i s ->
    for_loop i bound step body1 s = for_loop i bound step body2 s.
Proof.
  intros Hstep Hbody i s.
  remember (Z.to_nat (bound - i)) as m eqn:Hm.
  revert i s Hm.
  induction m as [m IH] using lt_wf_ind.
  intros i s Hm Hinv.
  rewrite (for_loop_unfold body1), (for_loop_unfold body2) by exact Hstep.
  destruct (i <? bound) eqn:Hlt; [|reflexivity].
  destruct (Hbody i s ltac:(lia) Hinv) as [E Hinv'].
  rewrite <- E.
  apply (IH (Z.to_nat (bound - (i + step)))); [lia | reflexivity | exact Hinv'].
Qed.

Lemma random_sample_ext (r1 r2 : rng) (samples : list RGB) (n : nat) :
  (r1 n == r2 n)%Q ->
  random_sample r1 samples n = random_sample r2 samples n.
Proof.
  intros E. unfold random_sample.
  assert (Ei : Qfloor (r1 n * inject_Z (Z.of_nat (length samples)))
             = Qfloor (r2 n * inject_Z (Z.of_nat (length samples)))).
  { apply Qfloor_comp. rewrite E. reflexivity. }
  rewrite Ei. reflexivity.
Qed.

Lemma random_sample_counter (r : rng) (samples : list RGB) (n n' : nat)
    (s : RGB) :
  random_sample r samples n = Some (s, n') -> n' = S n.
Proof.
  unfold random_sample. destruct (lookupZ samples _); simpl; congruence.
Qed.

Lemma seed_centers_ext (r1 r2 : rng) (samples : list RGB) (k : Z) (n : nat) :
  agree_on r1 r2 n (n + Z.to_nat k) ->
  seed_centers r1 samples k n = seed_centers r2 samples k n.
Proof.
  intros Hag. unfold seed_centers.
  apply (for_loop_ext_inv
    (fun i st => 0 <= i /\
       forall cs n', st = Some (cs, n') -> n' = (n + Z.to_nat i)%nat));
    [lia| |].
  - intros i st Hi [Hi0 Hcnt].
    destruct st as [[cs n']|]; [|split; [reflexivity | split; [lia | discriminate]]].
    specialize (Hcnt cs n' eq_refl). subst n'. cbn [mbind option_bind].
    rewrite (random_sample_ext r1 r2) by (apply Hag; lia).
    split; [reflexivity|]. split; [lia|].
    intros cs' n'.
    destruct (random_sample r2 samples (n + Z.to_nat i)) as [[s n'']|] eqn:E;
      [|discriminate].
    apply random_sample_counter in E. cbn [mbind option_bind].
    intros [= <- <-]. lia.
  - split; [lia|]. intros cs n' [= <- <-]. lia.
Qed.

Lemma seed_centers_counter (r : rng) (samples : list RGB) (k : Z) (n : nat)
    (cs : list RGB) (n' : nat) :
  seed_centers r samples k n = Some (cs, n') -> (n' <= n + Z.to_nat k)%nat.
Proof.
  unfold seed_centers.
  destruct (for_loop_inv
    (fun i st => 0 <= i <= Z.max 0 k /\
       forall cs n', st = Some (cs, n') -> n' = (n + Z.to_nat i)%nat)
    (fun (_ : Z) (st : option (list RGB * nat)) =>
       '(centers, n) ← st;
       '(s, n') ← random_sample r samples n;
       Some (centers ++ [s], n'))
    k 1 ltac:(lia)) with (i := 0) (s := Some (@nil RGB, n))
    as (j & Hj & Hjk & Hfin).
  - intros i st Hi [Hi0 Hcnt]. split; [lia|].
    intros cs' n''.
    destruct st as [[cs0 n0]|]; [|discriminate].
    specialize (Hcnt cs0 n0 eq_refl). subst n0. cbn [mbind option_bind].
    destruct (random_sample r samples (n + Z.to_nat i)) as [[s n1]|] eqn:E;
      [|discriminate].
    apply random_sample_counter in E. cbn [mbind option_bind].
    intros [= <- <-]. lia.
  - split; [lia|]. intros cs' n'' [= <- <-]. lia.
  - intros E. specialize (Hfin cs n' E). lia.
Qed.

Lemma update_center_ext (r1 r2 : rng) (samples sums : list RGB)
    (counts : list Z) (c : Z) (cs : list RGB) (n : nat) :
  (r1 n == r2 n)%Q ->
  update_center r1 samples sums counts c (cs, n)
  = update_center r2 samples sums counts c (cs, n).
Proof.
  intros E. unfold update_center.
  rewrite (random_sample_ext r1 r2 samples n E). reflexivity.
Qed.

Lemma update_center_counter (r : rng) (samples sums : list RGB)
    (counts : list Z) (c : Z) (cs cs' : list RGB) (n n' : nat) :
  update_center r samples sums counts c (cs, n) = Some (cs', n') ->
  (n <= n' <= S n)%nat.
Proof.
  unfold update_center.
  destruct (random_sample r samples n) as [[s n1]|] eqn:E.
  - apply random_sample_counter in E. subst n1.
    destruct (lookupZ counts c) as [cnt|]; [destruct (0 <? cnt)|];
      destruct (lookupZ cs c); cbn [mbind option_bind];
      try destruct (lookupZ sums c) as [[[s0 s1] s2]|]; cbn [mbind option_bind];
      intros [= <- <-] || discriminate; lia.
  - destruct (lookupZ counts c) as [cnt|]; [destruct (0 <? cnt)|];
      cbn [mbind option_bind]; try discriminate.
    destruct (lookupZ cs c); cbn [mbind option_bind]; [|discriminate].
    destruct (lookupZ sums c) as [[[s0 s1] s2]|]; cbn [mbind option_bind];
      intros [= <- <-] || discriminate; lia.
Qed.

Lemma update_loop_counter (r : rng) (samples sums : list RGB)
    (counts : list Z) (k : Z) (cs cs' : list RGB) (n n' : nat) :
  for_loop 0 k 1 (fun c st => st ≫= update_center r samples sums counts c)
    (Some (cs, n)) = Some (cs', n') ->
  (n <= n' <= n + Z.to_nat k)%nat.
Proof.
  destruct (for_loop_inv
    (fun (c : Z) (st : option (list RGB * nat)) =>
       0 <= c <= Z.max 0 k /\
       forall cs' n', st = Some (cs', n') -> (n <= n' <= n + Z.to_nat c)%nat)
    (fun c st => st ≫= update_center r samples sums counts c)
    k 1 ltac:(lia)) with (i := 0) (s := Some (cs, n))
    as (j & Hj & Hjk & Hfin).
  - intros c st Hc [Hc0 Hcnt]. split; [lia|].
    intros cs1 n1.
    destruct st as [[cs0 n0]|]; [|discriminate].
    specialize (Hcnt cs0 n0 eq_refl). cbn [mbind option_bind].
    intros E. apply update_center_counter in E. lia.
  - split; [lia|]. intros cs1 n1 [= <- <-]. lia.
  - intros E. specialize (Hfin cs' n' E). lia.
Qed.

Lemma update_loop_ext (r1 r2 : rng) (samples sums : list RGB)
    (counts : list Z) (k : Z) (cs : list RGB) (n : nat) :
  agree_on r1 r2 n (n + Z.to_nat k) ->
  for_loop 0 k 1 (fun c st => st ≫= update_center r1 samples sums counts c)
    (Some (cs, n))
  = for_loop 0 k 1 (fun c st => st ≫= update_center r2 samples sums counts c)
    (Some (cs, n)).
Proof.
  intros Hag.
  apply (for_loop_ext_inv
    (fun (c : Z) (st : option (list RGB * nat)) =>
       0 <= c /\
       forall cs' n', st = Some (cs', n') -> (n <= n' <= n + Z.to_nat c)%nat));
    [lia| |].
  - intros c st Hc [Hc0 Hcnt].
    destruct st as [[cs0 n0]|];
      [|split; [reflexivity | split; [lia | discriminate]]].
    specialize (Hcnt cs0 n0 eq_refl). cbn [mbind option_bind].
    rewrite (update_center_ext r1 r2) by (apply Hag; lia).
    split; [reflexivity|]. split; [lia|].
    intros cs1 n1 E. apply update_center_counter in E. lia.
  - split; [lia|]. intros cs1 n1 [= <- <-]. lia.
Qed.

Lemma kmeans_iter_counter (r : rng) (samples : list RGB) (k : Z)
    (cs cs' : list RGB) (n n' : nat) :
  kmeans_iter r samples k (cs, n) = Some (cs', n') ->
  (n <= n' <= n + Z.to_nat k)%nat.
Proof.
  unfold kmeans_iter. cbv zeta.
  destruct (accumulate _ _) as [[sums counts]|]; cbn [mbind option_bind];
    [|discriminate].
  apply update_loop_counter.
Qed.

Lemma kmeans_iter_ext (r1 r2 : rng) (samples : list RGB) (k : Z)
    (cs : list RGB) (n : nat) :
  agree_on r1 r2 n (n + Z.to_nat k) ->
  kmeans_iter r1 samples k (cs, n) = kmeans_iter r2 samples k (cs, n).
Proof.
  intros Hag. unfold kmeans_iter. cbv zeta.
  destruct (accumulate _ _) as [[sums counts]|]; cbn [mbind option_bind];
    [|reflexivity].
  apply update_loop_ext. exact Hag.
Qed.

Lemma agree_on_sub (r1 r2 : rng) (lo hi lo' hi' : nat) :
  agree_on r1 r2 lo hi -> (lo <= lo')%nat -> (hi' <= hi)%nat ->
  agree_on r1 r2 lo' hi'.
Proof. intros H Hlo Hhi m Hm. apply H. lia. Qed.

(** Two random sources that agree on the draws a call can make give the
    same palette and leave the same draw counter. *)
Lemma build_palette_ext (r1 r2 : rng) (w h : Z) (d : list Z)
    (k maxIters : Z) (n : nat) :
  agree_on r1 r2 n (n + max_draws k maxIters) ->
  build_palette r1 w h d k maxIters n = build_palette r2 w h d k maxIters n.
Proof.
  intros Hag. unfold build_palette. cbv zeta.
  destruct (length (collect_samples w h d) =? 0)%nat; [reflexivity|].
  set (samples := collect_samples w h d).
  set (K := Z.to_nat (clamp_k k)).
  assert (HK : max_draws k maxIters = (K * (1 + Z.to_nat maxIters))%nat)
    by reflexivity.
  rewrite <- (seed_centers_ext r1 r2 samples (clamp_k k) n)
    by (eapply agree_on_sub; [exact Hag | lia | fold K; nia]).
  apply (for_loop_ext_inv
    (fun (i : Z) (st : option (list RGB * nat)) =>
       0 <= i /\
       forall cs n', st = Some (cs, n') ->
         (n <= n' <= n + K + Z.to_nat i * K)%nat));
    [lia| |].
  - intros i st Hi [Hi0 Hcnt].
    destruct st as [[cs n']|];
      [|split; [reflexivity | split; [lia | discriminate]]].
    specialize (Hcnt cs n' eq_refl). cbn [mbind option_bind].
    rewrite (kmeans_iter_ext r1 r2).
    + split; [reflexivity|]. split; [lia|].
      intros cs1 n1 E. apply kmeans_iter_counter in E. fold K in E.
      replace (Z.to_nat (i + 1)) with (S (Z.to_nat i)) by lia. lia.
    + fold K. eapply agree_on_sub; [exact Hag | lia |].
      rewrite HK.
      assert (Z.to_nat i < Z.to_nat maxIters)%nat by lia. nia.
  - split; [lia|]. intros cs n' E.
    pose proof (seed_centers_counter r1 samples (clamp_k k) n cs n' E) as Hc.
    fold K in Hc. split; [|lia].
    clear - E. revert E. unfold seed_centers.
    destruct (for_loop_inv
      (fun (i : Z) (st : option (list RGB * nat)) =>
         forall cs n', st = Some (cs, n') -> (n <= n')%nat)
      (fun (_ : Z) (st : option (list RGB * nat)) =>
         '(centers, n) ← st;
         '(s, n') ← random_sample r1 samples n;
         Some (centers ++ [s], n'))
      (clamp_k k) 1 ltac:(lia)) with (i := 0) (s := Some (@nil RGB, n))
      as (j & _ & Hfin).
    + intros i st _ Hcnt cs' n''.
      destruct st as [[cs0 n0]|]; [|discriminate].
      specialize (Hcnt cs0 n0 eq_refl). cbn [mbind option_bind].
      destruct (random_sample r1 samples n0) as [[s n1]|] eqn:E;
        [|discriminate].
      apply random_sample_counter in E. cbn [mbind option_bind].
      intros [= <- <-]. lia.
    + intros cs' n'' [= <- <-]. lia.
    + intros E. exact (Hfin cs n' E).
Qed.

(** C9.  Two runs on the same store, image and parameters whose random
    sources return equal numbers at the draws a run can make (at most
    [k * (1 + maxIters)] of them, [k] the clamped palette size) build the
    same palette and end with the same store and the same returned image:
    the draws are the only input of the transformation besides the image
    and the parameters.  Without quantization the run does not depend on
    the random source at all. *)
Theorem processImage_deterministic (r1 r2 : rng) (n : nat)
    (σ : gmap loc (list Z)) (source : ImageData) (pixelate : bool)
    (blockSize : Q) (quantize : bool) (paletteSize maxKMeansIters : Z) :
  agree_on r1 r2 n (n + max_draws paletteSize maxKMeansIters) ->
  buildPalette r1 σ source paletteSize maxKMeansIters n
  = buildPalette r2 σ source paletteSize maxKMeansIters n /\
  processImage r1 n σ source pixelate blockSize quantize paletteSize
    maxKMeansIters
  = processImage r2 n σ source pixelate blockSize quantize paletteSize
      maxKMeansIters /\
  processImage r1 n σ source pixelate blockSize false paletteSize
    maxKMeansIters
  = processImage r2 n σ source pixelate blockSize false paletteSize
      maxKMeansIters.
Proof.
  intros Hag. split; [|split].
  - unfold buildPalette. apply build_palette_ext. exact Hag.
  - unfold processImage, buildPalette. cbv zeta.
    destruct (copy_image σ source) as [σ1 copy].
    destruct quantize; [|reflexivity].
    rewrite (build_palette_ext r1 r2) by exact Hag. reflexivity.
  - reflexivity.
Qed.

Lemma demo_rng_late_agree : agree_on demo_rng demo_rng_late 0 (0 + max_draws 2 8).
Proof.
  intros m Hm. unfold demo_rng, demo_rng_late.
  assert (Hb : max_draws 2 8 = 18%nat) by reflexivity. rewrite Hb in Hm.
  destruct (Nat.ltb_spec m 100); [reflexivity | lia].
Qed.

Lemma processImage_deterministic_witness :
  agree_on demo_rng demo_rng_late 0 (0 + max_draws 2 8) /\
  processImage demo_rng 0 demo_store demo_image true (2 # 1) true 2 8
  = processImage demo_rng_late 0 demo_store demo_image true (2 # 1) true 2 8.
Proof.
  split; [exact demo_rng_late_agree|].
  exact (proj1 (proj2 (processImage_deterministic demo_rng demo_rng_late 0
                         demo_store demo_image true (2 # 1) true 2 8
                         demo_rng_late_agree))).
Defined.

(** The whole pipeline on the 2x2 image: quantization to the palette of
    [buildPalette_demo], then one 2x2 block flattened to the pixel at
    (1, 1). *)
Example processImage_demo :
  (processImage demo_rng 0 demo_store demo_image true (2 # 1) true 2 8).1
    !! 2%positive
  = Some [118; 118; 33; 128;  118; 118; 33; 128;
          118; 118; 33; 128;  118; 118; 33; 128].
Proof. vm_compute. reflexivity. Qed.

(** ** The page: requests while a run is in flight *)

(** The recursion of the [finally] block is at most one call deep. *)
Lemma processAndRender_returns (p : page) :
  exists p', processAndRender 2 p = Some p'.
Proof.
  unfold processAndRender. cbn [set_flags post_message isProcessing pendingRun
    has_worker has_image].
  destruct (negb (has_worker p) || negb (has_image p)); [eauto|].
  destruct (isProcessing p); [eauto|].
  destruct (pendingRun p); eauto.
Qed.

Lemma processAndRender_fuel (fuel : nat) (p : page) :
  processAndRender (2 + fuel) p = processAndRender 2 p.
Proof.
  cbn [Nat.add processAndRender set_flags post_message isProcessing pendingRun
    has_worker has_image].
  destruct (negb (has_worker p) || negb (has_image p)); [reflexivity|].
  destruct (isProcessing p); [reflexivity|].
  destruct (pendingRun p); [|reflexivity].
  destruct fuel; reflexivity.
Qed.

(** [processAndRender] always returns with [isProcessing] reset, so a call
    that starts with both flags clear posts its message at once, whatever
    the number of requests still in flight. *)
Lemma processAndRender_idle (p : page) :
  has_worker p = true -> has_image p = true ->
  isProcessing p = false -> pendingRun p = false ->
  processAndRender 2 p = Some (post_message p).
Proof.
  destruct p as [hw hi px bs qz ps ip pr po an].
  cbn [has_worker has_image isProcessing pendingRun].
  intros -> -> -> ->. reflexivity.
Qed.

(** From the initial page every request is posted at once: the flags are
    clear between any two events, no request is ever recorded as pending,
    and the number of posted messages is the number of requests. *)
Lemma requests_never_pending (es : list event) :
  exists p, run initial_page es = Some p /\
    isProcessing p = false /\ pendingRun p = false /\
    length (posted p) = count_requests es.
Proof.
  assert (Hgen : forall es p0,
    has_worker p0 = true -> has_image p0 = true ->
    isProcessing p0 = false -> pendingRun p0 = false ->
    exists p, run p0 es = Some p /\
      isProcessing p = false /\ pendingRun p = false /\
      length (posted p) = (length (posted p0) + count_requests es)%nat).
  { clear es. induction es as [|e es IH]; intros p0 Hw Hi Hp Hr.
    - exists p0. cbn [run count_requests]. repeat split; auto.
    - destruct e as [| |px bs qz ps]; cbn [run step].
      + rewrite (processAndRender_idle p0 Hw Hi Hp Hr). cbn [mbind option_bind].
        destruct (IH (post_message p0)) as (p & Hrun & H1 & H2 & H3);
          [exact Hw | exact Hi | exact Hp | exact Hr|].
        exists p. split; [exact Hrun|]. split; [exact H1|]. split; [exact H2|].
        rewrite H3. cbn [post_message posted count_requests].
        rewrite length_app. simpl. lia.
      + cbn [mbind option_bind].
        destruct (IH (on_worker_message p0)) as (p & Hrun & H1 & H2 & H3);
          [exact Hw | exact Hi | exact Hp | exact Hr|].
        exists p. split; [exact Hrun|]. split; [exact H1|]. split; [exact H2|].
        rewrite H3. reflexivity.
      + cbn [mbind option_bind].
        destruct (IH (set_params p0 px bs qz ps)) as (p & Hrun & H1 & H2 & H3);
          [exact Hw | exact Hi | exact Hp | exact Hr|].
        exists p. split; [exact Hrun|]. split; [exact H1|]. split; [exact H2|].
        rewrite H3. reflexivity. }
  destruct (Hgen es initial_page eq_refl eq_refl eq_refl eq_refl)
    as (p & Hrun & H1 & H2 & H3).
  exists p. auto.
Qed.

(** C7, on the code.  Two requests with no answer from the worker in
    between: the second request is posted at once, so two requests are in
    flight and nothing is recorded as pending, where the coalescing rule
    asks for one message posted and [pendingRun] set. *)
Theorem second_request_not_coalesced :
  exists p,
    run initial_page [Request_render; Request_render] = Some p /\
    length (posted p) = 2%nat /\
    in_flight p = 2%nat /\
    isProcessing p = false /\
    pendingRun p = false.
Proof.
  eexists. split; [reflexivity|]. repeat split.
Qed.

(** The branch that records a pending run is taken only when
    [isProcessing] is set at the call, and then exactly one follow-up
    would run: with the flag set, a request posts nothing and sets
    [pendingRun]. *)
Example request_while_flag_set :
  processAndRender 2 (set_flags initial_page true false)
  = Some (set_flags initial_page true true).
Proof. reflexivity. Qed.

(* ===================================================================== *)
(** * Further properties of the code *)
(* ===================================================================== *)

(** ** Buffers stay well formed *)

Lemma for_fuel_preserves {S : Type} (P : S -> Prop) (body : Z -> S -> S)
    (bound step : Z) :
  (forall j t, P t -> P (body j t)) ->
  forall fuel i s, P s -> P (for_fuel fuel i bound step body s).
Proof.
  intros Hbody. induction fuel as [|fuel IH]; intros i s Hs; simpl.
  - exact Hs.
  - destruct (i <? bound); [apply IH, Hbody, Hs | exact Hs].
Qed.

Lemma for_loop_preserves {S : Type} (P : S -> Prop) (body : Z -> S -> S)
    (i bound step : Z) (s : S) :
  (forall j t, P t -> P (body j t)) -> P s ->
  P (for_loop i bound step body s).
Proof.
  intros Hbody Hs. unfold for_loop. apply for_fuel_preserves; assumption.
Qed.

Lemma store8_bytes (a : list Z) (i : Z) (v : num) :
  Forall (fun b => 0 <= b <= 255) a ->
  Forall (fun b => 0 <= b <= 255) (store8 a i v).
Proof.
  intros Ha. unfold store8. destruct (0 <=? i); [|exact Ha].
  apply Forall_insert; [exact Ha | apply to_u8c_range].
Qed.

Lemma pixelate_data_bytes (w h : Z) (blockSize : Q) (d : list Z) :
  Forall (fun b => 0 <= b <= 255) d ->
  Forall (fun b => 0 <= b <= 255) (pixelate_data w h blockSize d).
Proof.
  intros Hd. unfold pixelate_data, pixelate_block.
  apply for_loop_preserves; [|exact Hd]. intros by_ t Ht.
  apply for_loop_preserves; [|exact Ht]. intros bx t1 Ht1.
  apply for_loop_preserves; [|exact Ht1]. intros y t2 Ht2.
  apply for_loop_preserves; [|exact Ht2]. intros x t3 Ht3.
  unfold fill_pixel. repeat apply store8_bytes. exact Ht3.
Qed.

Lemma quantize_data_bytes (palette : list RGB) (d d' : list Z) :
  Forall (fun b => 0 <= b <= 255) d ->
  quantize_data palette d = Some d' ->
  Forall (fun b => 0 <= b <= 255) d'.
Proof.
  intros Hd. unfold quantize_data.
  assert (H : forall t, for_loop 0 ((Z.of_nat (length d) + 3) / 4) 1
                 (fun i st => st ≫= quantize_pixel palette i) (Some d) = Some t ->
               Forall (fun b => 0 <= b <= 255) t); [|apply H].
  apply (for_loop_preserves
    (fun st : option (list Z) =>
       forall t, st = Some t -> Forall (fun b => 0 <= b <= 255) t)).
  - intros i [t|] Ht t'; [|discriminate].
    cbn [mbind option_bind]. unfold quantize_pixel. cbv zeta.
    destruct (palette !! _) as [[[nr ng] nb]|]; [|discriminate].
    cbn [mbind option_bind]. intros [= <-].
    repeat apply store8_bytes. apply Ht. reflexivity.
  - intros t [= <-]. exact Hd.
Qed.

Lemma pixelate_data_well_formed (w h : Z) (blockSize : Q) (d : list Z) :
  well_formed w h d -> well_formed w h (pixelate_data w h blockSize d).
Proof.
  intros (Hw & Hh & Hlen & Hb).
  split; [exact Hw|]. split; [exact Hh|]. split.
  - rewrite pixelate_data_length by assumption. exact Hlen.
  - apply pixelate_data_bytes. exact Hb.
Qed.

Lemma quantize_data_well_formed (palette : list RGB) (w h : Z)
    (d d' : list Z) :
  well_formed w h d -> palette <> [] ->
  quantize_data palette d = Some d' -> well_formed w h d'.
Proof.
  intros (Hw & Hh & Hlen & Hb) Hne Hq.
  destruct (quantize_data_spec palette d Hne) as (d1 & Hq1 & Hl & _).
  assert (d1 = d') by congruence. subst d1.
  split; [exact Hw|]. split; [exact Hh|]. split.
  - rewrite Hl. exact Hlen.
  - eapply quantize_data_bytes; eauto.
Qed.

(** ** The palette consists of 8-bit colours *)

Lemma read_rgb_bytes (w h : Z) (d : list Z) (i : Z) :
  well_formed w h d -> 0 <= i < w * h -> byte_rgb (read_rgb d i).
Proof.
  intros (Hw & Hh & Hlen & Hb) Hi. unfold read_rgb. cbv zeta.
  assert (Hc : forall c, 0 <= c < 3 ->
            exists v, lookupZ d (i * 4 + c) = Some v /\ 0 <= v <= 255).
  { intros c Hc.
    assert (Hin : 0 <= i * 4 + c < Z.of_nat (length d)) by lia.
    destruct (lookupZ_lt_is_Some d _ Hin) as [v Hv]. exists v.
    split; [exact Hv|].
    pose proof (lookupZ_byte d _ Hb Hin) as E. rewrite Hv in E.
    simpl in E. injection E as E. rewrite <- E. apply clamp8_range. }
  destruct (Hc 0 ltac:(lia)) as (r & Hr & Hrb).
  destruct (Hc 1 ltac:(lia)) as (g & Hg & Hgb).
  destruct (Hc 2 ltac:(lia)) as (b & Hbl & Hbb).
  rewrite Z.add_0_r in Hr. rewrite Hr, Hg, Hbl. simpl. auto.
Qed.

Lemma collect_samples_bytes (w h : Z) (d : list Z) :
  well_formed w h d -> Forall byte_rgb (collect_samples w h d).
Proof.
  intros Hwf. unfold collect_samples.
  destruct (for_loop_inv
    (fun i samples => 0 <= i /\ Forall byte_rgb samples)
    (fun i samples => samples ++ [read_rgb d i]) (w * h)
    (sample_step (w * h)) (sample_step_pos _)) with (i := 0) (s := @nil RGB)
    as (j & _ & _ & Hfin).
  - intros i samples Hi [Hi0 Hs]. pose proof (sample_step_pos (w * h)).
    split; [lia|]. apply Forall_app. split; [exact Hs|].
    repeat constructor. apply (read_rgb_bytes w h); [exact Hwf | lia].
  - split; [lia | constructor].
  - exact Hfin.
Qed.

Lemma random_sample_elem (r : rng) (samples : list RGB) (n n' : nat)
    (s : RGB) :
  random_sample r samples n = Some (s, n') -> s ∈ samples.
Proof.
  unfold random_sample.
  destruct (lookupZ samples _) as [s'|] eqn:E; [|discriminate].
  cbn [mbind option_bind]. intros [= <- _].
  unfold lookupZ in E. destruct (0 <=? _); [|discriminate].
  apply list_elem_of_lookup. eauto.
Qed.

Lemma seed_centers_elem (r : rng) (samples : list RGB) (k : Z) (n n' : nat)
    (cs : list RGB) :
  seed_centers r samples k n = Some (cs, n') ->
  Forall (fun c => c ∈ samples) cs.
Proof.
  unfold seed_centers.
  assert (H : forall st,
    st = for_loop 0 k 1
      (fun (_ : Z) (st : option (list RGB * nat)) =>
         '(centers, n) ← st;
         '(s, n') ← random_sample r samples n;
         Some (centers ++ [s], n'))
      (Some ([], n)) ->
    forall cs n', st = Some (cs, n') -> Forall (fun c => c ∈ samples) cs).
  { intros st ->.
    apply (for_loop_preserves
      (fun st : option (list RGB * nat) =>
         forall cs n', st = Some (cs, n') -> Forall (fun c => c ∈ samples) cs)).
    - intros _ [[cs0 n0]|] Hst cs1 n1; [|discriminate].
      cbn [mbind option_bind].
      destruct (random_sample r samples n0) as [[s n2]|] eqn:E; [|discriminate].
      cbn [mbind option_bind]. intros [= <- <-].
      apply Forall_app. split; [eapply Hst; reflexivity|].
      repeat constructor. eapply random_sample_elem; eauto.
    - intros cs1 n1 [= <- <-]. constructor. }
  intros E. eapply H; [reflexivity | exact E].
Qed.

Lemma add_sample_sum_ok (sums sums' : list RGB) (counts counts' : list Z)
    (p : RGB) (c : nat) :
  Forall2 sum_ok sums counts -> byte_rgb p ->
  add_sample (sums, counts) (p, c) = Some (sums', counts') ->
  Forall2 sum_ok sums' counts'.
Proof.
  intros Hok Hp. unfold add_sample. destruct p as [[p0 p1] p2].
  destruct (sums !! c) as [[[s0 s1] s2]|] eqn:Es; [|discriminate].
  destruct (counts !! c) as [cnt|] eqn:Ec; [|discriminate].
  cbn [mbind option_bind]. intros [= <- <-].
  apply Forall2_insert; [exact Hok|].
  pose proof (Forall2_lookup_lr _ _ _ _ _ _ Hok Es Ec) as [Hcnt Hs].
  destruct p0 as [p0|], p1 as [p1|], p2 as [p2|]; try contradiction.
  destruct s0 as [s0|], s1 as [s1|], s2 as [s2|]; try contradiction.
  simpl in Hp. split; [lia|]. simpl. lia.
Qed.

Lemma accumulate_sum_ok (pcs : list (RGB * nat)) :
  Forall (fun pc => byte_rgb pc.1) pcs ->
  forall (sums sums' : list RGB) (counts counts' : list Z),
    Forall2 sum_ok sums counts ->
    accumulate pcs (sums, counts) = Some (sums', counts') ->
    Forall2 sum_ok sums' counts'.
Proof.
  induction 1 as [|[p c] rest Hp _ IH]; intros sums sums' counts counts' Hok;
    cbn [accumulate].
  - intros [= <- <-]. exact Hok.
  - destruct (add_sample (sums, counts) (p, c)) as [[sums1 counts1]|] eqn:E;
      [|discriminate].
    cbn [mbind option_bind]. apply IH.
    eapply add_sample_sum_ok; eauto.
Qed.

Lemma round_div_byte (a cnt : Z) :
  0 < cnt -> 0 <= a <= 255 * cnt ->
  exists v, round_div (Some a) cnt = Some v /\ 0 <= v <= 255.
Proof.
  intros Hcnt Ha. eexists. split; [reflexivity|]. split.
  - apply Z.div_pos; lia.
  - assert ((2 * a + cnt) / (2 * cnt) < 256); [|lia].
    apply Z.div_lt_upper_bound; lia.
Qed.

Lemma lookupZ_elem {A : Type} (l : list A) (i : Z) (x : A) :
  lookupZ l i = Some x -> l !! Z.to_nat i = Some x.
Proof. unfold lookupZ. destruct (0 <=? i); [auto | discriminate]. Qed.

Lemma update_center_bytes (r : rng) (samples sums : list RGB)
    (counts : list Z) (c : Z) (cs cs' : list RGB) (n n' : nat) :
  Forall byte_rgb samples -> Forall2 sum_ok sums counts ->
  Forall byte_rgb cs ->
  update_center r samples sums counts c (cs, n) = Some (cs', n') ->
  Forall byte_rgb cs'.
Proof.
  intros Hsamp Hok Hcs. unfold update_center.
  assert (Hreseed :
    ('(s, n1) ← random_sample r samples n;
     _ ← lookupZ cs c; Some (<[Z.to_nat c := s]> cs, n1)) = Some (cs', n') ->
    Forall byte_rgb cs').
  { destruct (random_sample r samples n) as [[s n1]|] eqn:E; [|discriminate].
    cbn [mbind option_bind].
    destruct (lookupZ cs c); [|discriminate]. cbn [mbind option_bind].
    intros [= <- <-]. apply Forall_insert; [exact Hcs|].
    rewrite Forall_forall in Hsamp. apply Hsamp.
    eapply random_sample_elem; eauto. }
  destruct (lookupZ counts c) as [cnt|] eqn:Ec; [|exact Hreseed].
  destruct (Z.ltb_spec 0 cnt) as [Hpos|_]; [|exact Hreseed].
  destruct (lookupZ cs c); [|discriminate]. cbn [mbind option_bind].
  destruct (lookupZ sums c) as [[[s0 s1] s2]|] eqn:Es; [|discriminate].
  cbn [mbind option_bind]. intros [= <- <-].
  apply Forall_insert; [exact Hcs|].
  apply lookupZ_elem in Ec, Es.
  pose proof (Forall2_lookup_lr _ _ _ _ _ _ Hok Es Ec) as [_ Hs].
  destruct s0 as [s0|], s1 as [s1|], s2 as [s2|]; try contradiction.
  destruct Hs as (H0 & H1 & H2).
  destruct (round_div_byte s0 cnt Hpos H0) as (v0 & -> & ?).
  destruct (round_div_byte s1 cnt Hpos H1) as (v1 & -> & ?).
  destruct (round_div_byte s2 cnt Hpos H2) as (v2 & -> & ?).
  simpl. auto.
Qed.

Lemma zip_assignments_bytes (samples : list RGB) (f : RGB -> nat) :
  Forall byte_rgb samples ->
  Forall (fun pc : RGB * nat => byte_rgb pc.1) (zip samples (map f samples)).
Proof.
  induction 1 as [|p rest Hp _ IH]; simpl; constructor; auto.
Qed.

Lemma sum_ok_init (K : nat) :
  Forall2 sum_ok (replicate K (Some 0, Some 0, Some 0)) (replicate K 0).
Proof.
  induction K as [|K IH]; simpl; constructor; [|exact IH].
  split; [lia|]. simpl. lia.
Qed.

Lemma kmeans_iter_bytes (r : rng) (samples : list RGB) (k : Z)
    (cs cs' : list RGB) (n n' : nat) :
  Forall byte_rgb samples -> Forall byte_rgb cs ->
  kmeans_iter r samples k (cs, n) = Some (cs', n') ->
  Forall byte_rgb cs'.
Proof.
  intros Hsamp Hcs. unfold kmeans_iter. cbv zeta.
  destruct (accumulate _ _) as [[sums counts]|] eqn:Eacc; [|discriminate].
  cbn [mbind option_bind].
  pose proof (accumulate_sum_ok _ (zip_assignments_bytes samples _ Hsamp)
                _ _ _ _ (sum_ok_init _) Eacc) as Hok.
  assert (H : forall st,
    st = for_loop 0 k 1
           (fun c st => st ≫= update_center r samples sums counts c)
           (Some (cs, n)) ->
    forall cs1 n1, st = Some (cs1, n1) -> Forall byte_rgb cs1).
  { intros st ->.
    apply (for_loop_preserves
      (fun st : option (list RGB * nat) =>
         forall cs1 n1, st = Some (cs1, n1) -> Forall byte_rgb cs1)).
    - intros c [[cs0 n0]|] Hst cs1 n1; [|discriminate].
      cbn [mbind option_bind]. intros E.
      eapply update_center_bytes;
        [exact Hsamp | exact Hok | exact (Hst cs0 n0 eq_refl) | exact E].
    - intros cs1 n1 [= <- <-]. exact Hcs. }
  intros E. eapply H; [reflexivity | exact E].
Qed.

Lemma build_palette_bytes (r : rng) (w h : Z) (d : list Z)
    (k maxIters : Z) (n n' : nat) (palette : list RGB) :
  well_formed w h d ->
  build_palette r w h d k maxIters n = Some (palette, n') ->
  Forall byte_rgb palette.
Proof.
  intros Hwf. unfold build_palette. cbv zeta.
  pose proof (collect_samples_bytes w h d Hwf) as Hsamp.
  destruct (length (collect_samples w h d) =? 0)%nat.
  - intros [= <- _]. repeat constructor; simpl; lia.
  - assert (H : forall st,
      st = for_loop 0 maxIters 1
             (fun _ st => st ≫= kmeans_iter r (collect_samples w h d) (clamp_k k))
             (seed_centers r (collect_samples w h d) (clamp_k k) n) ->
      forall cs1 n1, st = Some (cs1, n1) -> Forall byte_rgb cs1).
    { intros st ->.
      apply (for_loop_preserves
        (fun st : option (list RGB * nat) =>
           forall cs1 n1, st = Some (cs1, n1) -> Forall byte_rgb cs1)).
      - intros _ [[cs0 n0]|] Hst cs1 n1; [|discriminate].
        cbn [mbind option_bind]. intros E.
        eapply kmeans_iter_bytes;
          [exact Hsamp | exact (Hst cs0 n0 eq_refl) | exact E].
      - intros cs1 n1 E. apply seed_centers_elem in E.
        rewrite Forall_forall in *. auto. }
    intros E. eapply H; [reflexivity | exact E].
Qed.

Lemma byte_rgb_colors (palette : list RGB) :
  Forall byte_rgb palette ->
  exists cs : list color, palette = map rgb_of cs /\ Forall is_color cs.
Proof.
  induction 1 as [|e rest He _ (cs & -> & Hcs)].
  - exists []. split; [reflexivity | constructor].
  - destruct e as [[[r|] [g|]] [b|]]; try contradiction.
    exists ((r, g, b) :: cs). split; [reflexivity|].
    constructor; [exact He | exact Hcs].
Qed.

(** X1.  For a well-formed image and a random source in [[0, 1)],
    [buildPalette] returns a non-empty list of 8-bit colours: every
    centroid is a sample of the image or the rounded mean of samples. *)
Theorem buildPalette_colours (r : rng) (σ : gmap loc (list Z))
    (img : ImageData) (k maxIters : Z) (n : nat) (d : list Z) :
  valid_rng r ->
  σ !! data img = Some d ->
  well_formed (width img) (height img) d ->
  exists (cs : list color) (n' : nat),
    buildPalette r σ img k maxIters n = Some (map rgb_of cs, n') /\
    cs <> [] /\ Forall is_color cs.
Proof.
  intros Hr Hσ Hwf. unfold buildPalette. rewrite (bytes_of_lookup σ _ d Hσ).
  destruct (build_palette_nonempty r (width img) (height img) d k maxIters n Hr)
    as (palette & n' & Hb & Hne).
  destruct (byte_rgb_colors palette (build_palette_bytes _ _ _ _ _ _ _ _ _ Hwf Hb))
    as (cs & -> & Hcs).
  exists cs, n'. split; [exact Hb|]. split; [|exact Hcs].
  intros ->. apply Hne. reflexivity.
Qed.

Lemma buildPalette_colours_witness :
  valid_rng demo_rng /\
  demo_store !! data demo_image = Some demo_bytes /\
  well_formed (width demo_image) (height demo_image) demo_bytes /\
  exists (cs : list color) (n' : nat),
    buildPalette demo_rng demo_store demo_image 4 8 0 = Some (map rgb_of cs, n') /\
    cs <> [] /\ Forall is_color cs.
Proof.
  split; [exact demo_rng_valid|]. split; [reflexivity|].
  split; [exact demo_well_formed|].
  exact (buildPalette_colours demo_rng demo_store demo_image 4 8 0 demo_bytes
           demo_rng_valid eq_refl demo_well_formed).
Defined.

(** ** The run as a composition *)

(** The store and result of a run, in terms of the three stages applied to
    the bytes of the source. *)
Lemma processImage_bytes (r : rng) (n : nat) (σ : gmap loc (list Z))
    (source : ImageData) (pixelate : bool) (blockSize : Q) (quantize : bool)
    (paletteSize maxKMeansIters : Z) (d : list Z) :
  σ !! data source = Some d ->
  processImage r n σ source pixelate blockSize quantize paletteSize
    maxKMeansIters
  = match
      (if quantize then
         '(palette, n') ← build_palette r (width source) (height source) d
                            paletteSize maxKMeansIters n;
         dq ← quantize_data palette d;
         Some (dq, n')
       else Some (d, n))
    with
    | Some (dq, n') =>
        (<[fresh (dom σ) :=
             if pixelate
             then pixelate_data (width source) (height source) blockSize dq
             else dq]> σ,
         Some (mkImageData (width source) (height source) (fresh (dom σ)), n'))
    | None => (<[fresh (dom σ) := d]> σ, None)
    end.
Proof.
  intros Hσ.
  unfold processImage, copy_image, buildPalette, qunatizeImage, pixelateImage.
  cbn [width height data]. rewrite (bytes_of_lookup σ _ d Hσ).
  destruct quantize.
  - rewrite bytes_of_insert.
    destruct (build_palette _ _ _ _ _ _ _) as [[palette n']|];
      cbn [mbind option_bind]; [|reflexivity].
    destruct (quantize_data palette d) as [dq|]; cbn [mbind option_bind];
      [|reflexivity].
    destruct pixelate.
    + rewrite bytes_of_insert, !insert_insert_eq. reflexivity.
    + rewrite insert_insert_eq. reflexivity.
  - destruct pixelate.
    + rewrite bytes_of_insert, insert_insert_eq. reflexivity.
    + reflexivity.
Qed.

Lemma rgba_at_pixel_rgba (w : Z) (d : list Z) (x y : Z) :
  rgba_at w d x y = pixel_rgba d (y * w + x).
Proof.
  unfold rgba_at, pixel_rgba, pixel_index. rewrite Z.add_0_r. reflexivity.
Qed.

Lemma pixel_rgba_inv (d : list Z) (i r g b a : Z) :
  pixel_rgba d i = Some (r, g, b, a) ->
  lookupZ d (i * 4) = Some r /\ lookupZ d (i * 4 + 1) = Some g /\
  lookupZ d (i * 4 + 2) = Some b /\ lookupZ d (i * 4 + 3) = Some a.
Proof.
  unfold pixel_rgba.
  destruct (lookupZ d (i * 4)); [|discriminate].
  destruct (lookupZ d (i * 4 + 1)); [|discriminate].
  destruct (lookupZ d (i * 4 + 2)); [|discriminate].
  destruct (lookupZ d (i * 4 + 3)); [|discriminate].
  cbn [mbind option_bind]. intros [= -> -> -> ->]. auto.
Qed.

(** Pixel-wise description of palette application with a palette of
    colours. *)
Lemma quantize_data_pixels (cs : list color) (d : list Z) :
  cs <> [] -> Forall is_color cs ->
  exists d', quantize_data (map rgb_of cs) d = Some d' /\
    length d' = length d /\
    forall i r g b a, pixel_rgba d i = Some (r, g, b, a) ->
      exists j r' g' b',
        nearest (map rgb_of cs) (rgb_of (r, g, b)) = j /\
        first_nearest cs (r, g, b) j /\
        cs !! j = Some (r', g', b') /\
        pixel_rgba d' i = Some (r', g', b', a).
Proof.
  intros Hne Hcols.
  assert (Hne' : map rgb_of cs <> []) by (destruct cs; [congruence | discriminate]).
  destruct (quantize_data_spec (map rgb_of cs) d Hne') as (d' & Hq & Hlen & Hbytes).
  exists d'. split; [exact Hq|]. split; [exact Hlen|].
  intros i r g b a Hpix.
  pose proof (nearest_first_nearest cs (r, g, b) Hne) as Hfirst.
  set (j := nearest (map rgb_of cs) (rgb_of (r, g, b))) in *.
  pose proof Hfirst as (e & He & _).
  assert (Hcol : is_color e).
  { rewrite Forall_forall in Hcols. apply Hcols.
    apply list_elem_of_lookup. eauto. }
  destruct e as [[r' g'] b'].
  exists j, r', g', b'. split; [reflexivity|]. split; [exact Hfirst|].
  split; [exact He|].
  pose proof (pixel_rgba_inv d i r g b a Hpix) as (H0 & H1 & H2 & H3).
  assert (Hin : forall c, 0 <= c < 4 -> 0 <= i * 4 + c < Z.of_nat (length d)).
  { intros c Hc. apply lookupZ_Some_lt in H0, H3. lia. }
  assert (Hch : forall c, 0 <= c < 3 ->
            lookupZ d' (i * 4 + c) = rgb_channel (rgb_of (r', g', b')) c).
  { intros c Hc. rewrite Hbytes by (apply Hin; lia).
    apply (quantized_byte_rgb cs d i c r g b a j); auto. }
  assert (Ha : lookupZ d' (i * 4 + 3) = Some a).
  { rewrite Hbytes by (apply Hin; lia). unfold quantized_byte.
    replace ((i * 4 + 3) mod 4) with 3
      by (apply (Z.mod_unique (i * 4 + 3) 4 i 3); lia).
    simpl. exact H3. }
  unfold pixel_rgba.
  replace (i * 4) with (i * 4 + 0) at 1 by lia.
  rewrite (Hch 0), (Hch 1), (Hch 2), Ha by lia. reflexivity.
Qed.

Lemma pixel_rgba_is_Some (w h : Z) (d : list Z) (i : Z) :
  Z.of_nat (length d) = w * h * 4 -> 0 <= i < w * h ->
  is_Some (pixel_rgba d i).
Proof.
  intros Hlen Hi. unfold pixel_rgba.
  assert (Hc : forall c, 0 <= c < 4 -> is_Some (lookupZ d (i * 4 + c)))
    by (intros c Hc; apply lookupZ_lt_is_Some; lia).
  pose proof (Hc 0 ltac:(lia)) as [r Hr]. rewrite Z.add_0_r in Hr.
  destruct (Hc 1 ltac:(lia)) as [g ->], (Hc 2 ltac:(lia)) as [b ->],
    (Hc 3 ltac:(lia)) as [a ->].
  rewrite Hr. simpl. eauto.
Qed.

Lemma linear_index_range (w h x y : Z) :
  0 <= x < w -> 0 <= y < h -> 0 <= y * w + x < w * h.
Proof. intros Hx Hy. nia. Qed.

Lemma build_palette_size (r : rng) (w h : Z) (d : list Z)
    (k maxIters : Z) (n n' : nat) (palette : list RGB) :
  valid_rng r ->
  build_palette r w h d k maxIters n = Some (palette, n') ->
  1 <= Z.of_nat (length palette) <= Z.min (Z.max 1 k) 256.
Proof.
  intros Hr Hb. destruct (Z.lt_ge_cases 0 (w * h)) as [Htot|Htot].
  - destruct (build_palette_returns r w h d k maxIters n Hr Htot)
      as (p & n1 & Hb1 & Hl).
    assert (p = palette) by congruence. subst p.
    rewrite Hl. unfold clamp_k. lia.
  - rewrite build_palette_empty in Hb by exact Htot.
    injection Hb as <- _. simpl. lia.
Qed.

(** X2.  A run with quantization on a well-formed image returns, and every
    pixel of its output carries the RGB value of an entry of the palette
    built for the image, whether or not pixelation follows; the output
    therefore shows at most [min(max(1, paletteSize), 256)] colours. *)
Theorem processImage_palette_closure (r : rng) (n : nat)
    (σ : gmap loc (list Z)) (source : ImageData) (pixelate : bool)
    (blockSize : Q) (paletteSize maxKMeansIters : Z) (d : list Z) :
  valid_rng r ->
  σ !! data source = Some d ->
  well_formed (width source) (height source) d ->
  exists (cs : list color) (n' : nat) (σ' : gmap loc (list Z))
         (out : ImageData) (d' : list Z),
    buildPalette r σ source paletteSize maxKMeansIters n
    = Some (map rgb_of cs, n') /\
    1 <= Z.of_nat (length cs) <= Z.min (Z.max 1 paletteSize) 256 /\
    processImage r n σ source pixelate blockSize true paletteSize
      maxKMeansIters = (σ', Some (out, n')) /\
    σ' !! data out = Some d' /\
    forall x y, 0 <= x < width source -> 0 <= y < height source ->
      exists r' g' b' a,
        (r', g', b') ∈ cs /\
        rgba_at (width source) d' x y = Some (r', g', b', a).
Proof.
  intros Hr Hσ Hwf.
  set (w := width source) in *. set (h := height source) in *.
  destruct (build_palette_nonempty r w h d paletteSize maxKMeansIters n Hr)
    as (palette & n' & Hb & Hne).
  pose proof (build_palette_size r w h d _ _ _ _ _ Hr Hb) as Hsize.
  destruct (byte_rgb_colors palette (build_palette_bytes _ _ _ _ _ _ _ _ _ Hwf Hb))
    as (cs & -> & Hcs).
  assert (Hne' : cs <> []) by (intros ->; apply Hne; reflexivity).
  destruct (quantize_data_pixels cs d Hne' Hcs) as (dq & Hq & Hlq & Hpix).
  pose proof (quantize_data_well_formed _ w h d dq Hwf Hne Hq) as Hwfq.
  rewrite length_map in Hsize.
  assert (Hqpix : forall x y, 0 <= x < w -> 0 <= y < h ->
            exists r' g' b' a, (r', g', b') ∈ cs /\
              rgba_at w dq x y = Some (r', g', b', a)).
  { intros x y Hx Hy. rewrite rgba_at_pixel_rgba.
    destruct Hwf as (_ & _ & Hlen & _).
    destruct (pixel_rgba_is_Some w h d (y * w + x) Hlen
                (linear_index_range w h x y Hx Hy)) as [[[[r0 g0] b0] a0] Hp].
    destruct (Hpix _ _ _ _ _ Hp) as (j & r' & g' & b' & _ & _ & Hj & Hp').
    exists r', g', b', a0. split; [|exact Hp'].
    apply list_elem_of_lookup. eauto. }
  exists cs, n'.
  rewrite (processImage_bytes r n σ source pixelate blockSize true
             paletteSize maxKMeansIters d Hσ).
  fold w h. rewrite Hb. cbn [mbind option_bind]. rewrite Hq.
  cbn [mbind option_bind].
  eexists _, _, _. split.
  { unfold buildPalette. rewrite (bytes_of_lookup σ _ d Hσ). exact Hb. }
  split; [exact Hsize|]. split; [reflexivity|].
  split; [apply lookup_insert_eq|].
  intros x y Hx Hy. destruct pixelate.
  - rewrite pixelate_data_rgba by assumption.
    assert (Hs : 1 <= block_size blockSize) by (unfold block_size; lia).
    apply Hqpix.
    + apply (block_centre_in_block _ w x Hs Hx).
    + apply (block_centre_in_block _ h y Hs Hy).
  - apply Hqpix; assumption.
Qed.

Lemma processImage_palette_closure_witness :
  valid_rng demo_rng /\
  demo_store !! data demo_image = Some demo_bytes /\
  well_formed (width demo_image) (height demo_image) demo_bytes /\
  exists (cs : list color) (n' : nat),
    buildPalette demo_rng demo_store demo_image 2 8 0
    = Some (map rgb_of cs, n') /\
    1 <= Z.of_nat (length cs) <= Z.min (Z.max 1 2) 256.
Proof.
  split; [exact demo_rng_valid|]. split; [reflexivity|].
  split; [exact demo_well_formed|].
  destruct (processImage_palette_closure demo_rng 0 demo_store demo_image
              true (2 # 1) 2 8 demo_bytes demo_rng_valid eq_refl
              demo_well_formed) as (cs & n' & _ & _ & _ & Hb & Hsz & _).
  exists cs, n'. split; [exact Hb | exact Hsz].
Defined.

(** X3.  The output of a run on a well-formed image, for every
    combination of the two flags, is again a well-formed buffer of the
    same width and height: the right length, every byte in [[0, 255]]. *)
Theorem processImage_output_well_formed (r : rng) (n : nat)
    (σ : gmap loc (list Z)) (source : ImageData) (pixelate : bool)
    (blockSize : Q) (quantize : bool) (paletteSize maxKMeansIters : Z)
    (d : list Z) :
  valid_rng r ->
  σ !! data source = Some d ->
  well_formed (width source) (height source) d ->
  exists (σ' : gmap loc (list Z)) (out : ImageData) (n' : nat) (d' : list Z),
    processImage r n σ source pixelate blockSize quantize paletteSize
      maxKMeansIters = (σ', Some (out, n')) /\
    σ' !! data out = Some d' /\
    width out = width source /\ height out = height source /\
    well_formed (width out) (height out) d'.
Proof.
  intros Hr Hσ Hwf.
  rewrite (processImage_bytes r n σ source pixelate blockSize quantize
             paletteSize maxKMeansIters d Hσ).
  assert (Hq : exists dq n',
    (if quantize then
       '(palette, n') ← build_palette r (width source) (height source) d
                          paletteSize maxKMeansIters n;
       dq ← quantize_data palette d; Some (dq, n')
     else Some (d, n)) = Some (dq, n') /\
    well_formed (width source) (height source) dq).
  { destruct quantize; [|eauto].
    destruct (build_palette_nonempty r (width source) (height source) d
                paletteSize maxKMeansIters n Hr) as (palette & n' & -> & Hne).
    destruct (quantize_data_spec palette d Hne) as (dq & Hqd & _).
    cbn [mbind option_bind]. rewrite Hqd. cbn [mbind option_bind].
    exists dq, n'. split; [reflexivity|].
    eapply quantize_data_well_formed; eauto. }
  destruct Hq as (dq & n' & -> & Hwfq).
  eexists _, _, _, _. split; [reflexivity|].
  split; [apply lookup_insert_eq|]. cbn [width height].
  split; [reflexivity|]. split; [reflexivity|].
  destruct pixelate; [apply pixelate_data_well_formed|]; exact Hwfq.
Qed.

Lemma processImage_output_well_formed_witness :
  valid_rng demo_rng /\
  demo_store !! data demo_image = Some demo_bytes /\
  well_formed (width demo_image) (height demo_image) demo_bytes /\
  exists (σ' : gmap loc (list Z)) (out : ImageData) (n' : nat) (d' : list Z),
    processImage demo_rng 0 demo_store demo_image true (3 # 1) true 5 8
    = (σ', Some (out, n')) /\
    σ' !! data out = Some d' /\
    well_formed (width out) (height out) d'.
Proof.
  split; [exact demo_rng_valid|]. split; [reflexivity|].
  split; [exact demo_well_formed|].
  destruct (processImage_output_well_formed demo_rng 0 demo_store demo_image
              true (3 # 1) true 5 8 demo_bytes demo_rng_valid eq_refl
              demo_well_formed) as (σ' & out & n' & d' & H1 & H2 & _ & _ & H3).
  exists σ', out, n', d'. auto.
Defined.

(** ** Palette application: edge cases and algebra *)

Lemma for_loop_None {A : Type} (f : Z -> A -> option A) (i bound step : Z) :
  for_loop i bound step (fun j st => st ≫= f j) None = None.
Proof.
  apply (for_loop_preserves (fun st : option A => st = None)); [|reflexivity].
  intros j t ->. reflexivity.
Qed.

Lemma quantize_data_nil (d : list Z) :
  quantize_data [] d = if (length d =? 0)%nat then Some d else None.
Proof.
  unfold quantize_data. rewrite for_loop_unfold by lia.
  destruct (Nat.eqb_spec (length d) 0) as [E|E].
  - rewrite E. reflexivity.
  - assert (Hb : 0 < (Z.of_nat (length d) + 3) / 4)
      by (apply Z.div_str_pos; lia).
    destruct (Z.ltb_spec 0 ((Z.of_nat (length d) + 3) / 4)); [|lia].
    cbn [mbind option_bind]. unfold quantize_pixel at 1. cbv zeta.
    cbn [lookup list_lookup mbind option_bind]. apply for_loop_None.
Qed.

(** X4.  Applying an empty palette throws as soon as the buffer has a
    byte, before any store ([None], store unchanged); on an empty buffer
    it returns with the buffer as it was. *)
Theorem qunatizeImage_empty_palette (σ : gmap loc (list Z))
    (img : ImageData) (d : list Z) :
  σ !! data img = Some d ->
  (d <> [] -> qunatizeImage σ img [] = None) /\
  (d = [] -> qunatizeImage σ img [] = Some σ).
Proof.
  intros Hσ. unfold qunatizeImage.
  rewrite (bytes_of_lookup σ _ d Hσ), quantize_data_nil. split.
  - intros Hne. destruct d; [congruence | reflexivity].
  - intros ->. cbn. f_equal. apply insert_id. exact Hσ.
Qed.

Lemma qunatizeImage_empty_palette_witness :
  demo_store !! data demo_image = Some demo_bytes /\
  demo_bytes <> [] /\
  qunatizeImage demo_store demo_image [] = None.
Proof.
  split; [reflexivity|]. split; [discriminate|].
  exact (proj1 (qunatizeImage_empty_palette demo_store demo_image demo_bytes
                  eq_refl) ltac:(discriminate)).
Defined.

Lemma sq_dist_zero (p e : color) : sq_dist p e <= 0 -> e = p.
Proof.
  destruct p as [[r g] b], e as [[r' g'] b']. simpl. intros H.
  pose proof (Z.square_nonneg (r - r')).
  pose proof (Z.square_nonneg (g - g')).
  pose proof (Z.square_nonneg (b - b')).
  assert (r - r' = 0) by nia. assert (g - g' = 0) by nia.
  assert (b - b' = 0) by nia.
  repeat f_equal; lia.
Qed.

Lemma sq_dist_refl (p : color) : sq_dist p p = 0.
Proof. destruct p as [[r g] b]. simpl. lia. Qed.

Lemma pixel_index_of_linear (m : Z) :
  0 <= m -> exists i c, 0 <= i /\ 0 <= c < 4 /\ m = i * 4 + c.
Proof.
  intros Hm. exists (m / 4), (m mod 4).
  pose proof (Z.mod_pos_bound m 4 ltac:(lia)).
  pose proof (Z.div_mod m 4 ltac:(lia)).
  split; [apply Z.div_pos; lia|]. split; lia.
Qed.

Lemma pixel_rgba_eq_lookup (d1 d2 : list Z) (i c : Z) :
  is_Some (pixel_rgba d1 i) ->
  pixel_rgba d1 i = pixel_rgba d2 i -> 0 <= c < 4 ->
  lookupZ d1 (i * 4 + c) = lookupZ d2 (i * 4 + c).
Proof.
  intros [[[[r g] b] a] H1] E Hc. rewrite H1 in E. symmetry in E.
  apply pixel_rgba_inv in H1, E.
  destruct H1 as (? & ? & ? & ?), E as (? & ? & ? & ?).
  assert (c = 0 \/ c = 1 \/ c = 2 \/ c = 3) as [-> | [-> | [-> | ->]]] by lia;
    rewrite ?Z.add_0_r; congruence.
Qed.

(** Palette application is idempotent on buffers made of whole pixels. *)
Lemma quantize_data_idempotent (cs : list color) (d dq : list Z) :
  cs <> [] -> Forall is_color cs ->
  (4 | Z.of_nat (length d)) ->
  quantize_data (map rgb_of cs) d = Some dq ->
  quantize_data (map rgb_of cs) dq = Some dq.
Proof.
  intros Hne Hcols [q Hq] Hdq.
  destruct (quantize_data_pixels cs d Hne Hcols) as (dq1 & Hq1 & Hl1 & Hp1).
  assert (dq1 = dq) by congruence. subst dq1.
  destruct (quantize_data_pixels cs dq Hne Hcols) as (dq2 & Hq2 & Hl2 & Hp2).
  rewrite Hq2. f_equal.
  apply list_eq. intros m.
  destruct (decide (m < length dq)%nat) as [Hm|Hm];
    [|rewrite !lookup_ge_None_2 by lia; reflexivity].
  rewrite <- !lookupZ_of_nat.
  destruct (pixel_index_of_linear (Z.of_nat m) ltac:(lia))
    as (i & c & Hi & Hc & Em).
  rewrite Em.
  assert (Hfull : 0 <= i < q * 1) by lia.
  destruct (pixel_rgba_is_Some q 1 d i ltac:(lia) Hfull) as [[[[r g] b] a] Hd].
  destruct (Hp1 _ _ _ _ _ Hd) as (j & r' & g' & b' & _ & _ & Hj & Hdq1).
  destruct (Hp2 _ _ _ _ _ Hdq1)
    as (j2 & r2 & g2 & b2 & _ & Hfirst & Hj2 & Hdq2).
  destruct Hfirst as (e & He & Hmin & _).
  assert (Ee : Some e = Some (r2, g2, b2)) by (rewrite <- He; exact Hj2).
  injection Ee as ->.
  specialize (Hmin j (r', g', b') Hj). rewrite sq_dist_refl in Hmin.
  apply sq_dist_zero in Hmin. injection Hmin as -> -> ->.
  apply pixel_rgba_eq_lookup; [rewrite Hdq2; eauto | congruence | exact Hc].
Qed.

(** X5.  Palette application is idempotent: on a well-formed image and
    with a non-empty palette of colours, applying the same palette to the
    result changes nothing (each pixel already is a palette entry, and an
    entry at distance 0 has the same colour). *)
Theorem qunatizeImage_idempotent (σ : gmap loc (list Z)) (img : ImageData)
    (cs : list color) (d : list Z) :
  σ !! data img = Some d ->
  well_formed (width img) (height img) d ->
  cs <> [] -> Forall is_color cs ->
  exists σ' : gmap loc (list Z),
    qunatizeImage σ img (map rgb_of cs) = Some σ' /\
    qunatizeImage σ' img (map rgb_of cs) = Some σ'.
Proof.
  intros Hσ (_ & _ & Hlen & _) Hne Hcols.
  destruct (quantize_data_pixels cs d Hne Hcols) as (dq & Hq & _).
  exists (<[data img := dq]> σ). unfold qunatizeImage.
  rewrite (bytes_of_lookup σ _ d Hσ), Hq. cbn [mbind option_bind].
  split; [reflexivity|].
  rewrite bytes_of_insert.
  rewrite (quantize_data_idempotent cs d dq Hne Hcols); [| |exact Hq].
  - cbn [mbind option_bind]. rewrite insert_insert_eq. reflexivity.
  - exists (width img * height img). lia.
Qed.

Lemma qunatizeImage_idempotent_witness :
  demo_store !! data demo_image = Some demo_bytes /\
  well_formed (width demo_image) (height demo_image) demo_bytes /\
  [(0, 0, 0); (200, 10, 10)] <> [] /\
  Forall is_color [(0, 0, 0); (200, 10, 10)] /\
  exists σ' : gmap loc (list Z),
    qunatizeImage demo_store demo_image (map rgb_of [(0, 0, 0); (200, 10, 10)])
    = Some σ' /\
    qunatizeImage σ' demo_image (map rgb_of [(0, 0, 0); (200, 10, 10)])
    = Some σ'.
Proof.
  assert (Hc : Forall is_color [(0, 0, 0); (200, 10, 10)])
    by (repeat constructor; simpl; lia).
  split; [reflexivity|]. split; [exact demo_well_formed|].
  split; [discriminate|]. split; [exact Hc|].
  exact (qunatizeImage_idempotent demo_store demo_image
           [(0, 0, 0); (200, 10, 10)] demo_bytes eq_refl demo_well_formed
           ltac:(discriminate) Hc).
Defined.

(** ** Pixelation: edge cases and algebra *)

(** On a well-formed buffer each byte after pixelation is the byte of the
    representative pixel. *)
Lemma pixelate_data_lookup_bytes (w h : Z) (blockSize : Q) (d : list Z)
    (x y c : Z) :
  well_formed w h d ->
  0 <= x < w -> 0 <= y < h -> 0 <= c < 4 ->
  lookupZ (pixelate_data w h blockSize d) (pixel_index w x y c)
  = lookupZ d (pixel_index w (block_centre (block_size blockSize) w x)
                             (block_centre (block_size blockSize) h y) c).
Proof.
  intros (Hw & Hh & Hlen & Hb) Hx Hy Hc.
  destruct (pixelate_data_lookup w h blockSize d Hw Hh Hlen) as [_ Hp].
  rewrite Hp by assumption. unfold target.
  assert (Hs : 1 <= block_size blockSize) by (unfold block_size; lia).
  apply lookupZ_byte; [exact Hb|]. rewrite Hlen.
  apply pixel_index_range; [| |exact Hc].
  - apply (block_centre_in_block _ w x Hs Hx).
  - apply (block_centre_in_block _ h y Hs Hy).
Qed.

Lemma list_eq_pixels (w h : Z) (d1 d2 : list Z) :
  0 <= w -> 0 <= h ->
  Z.of_nat (length d1) = w * h * 4 -> length d2 = length d1 ->
  (forall x y c, 0 <= x < w -> 0 <= y < h -> 0 <= c < 4 ->
     lookupZ d1 (pixel_index w x y c) = lookupZ d2 (pixel_index w x y c)) ->
  d1 = d2.
Proof.
  intros Hw Hh Hlen Hl Hpix. apply list_eq. intros m.
  destruct (decide (m < length d1)%nat) as [Hm|Hm];
    [|rewrite !lookup_ge_None_2 by lia; reflexivity].
  destruct (pixel_index_decompose w h (Z.of_nat m) Hw Hh ltac:(lia))
    as (x & y & c & Hx & Hy & Hc & E).
  rewrite <- !lookupZ_of_nat, E. apply Hpix; assumption.
Qed.

Lemma block_size_one (blockSize : Q) :
  (blockSize < 2)%Q -> block_size blockSize = 1.
Proof.
  intros Hlt. unfold block_size.
  assert (Qfloor blockSize < 2); [|lia].
  rewrite Zlt_Qlt. apply Qle_lt_trans with blockSize; [apply Qfloor_le|].
  exact Hlt.
Qed.

(** X6.  With a block size below 2 (also zero or negative: the size is
    raised to 1) pixelation leaves a well-formed image exactly as it was. *)
Theorem pixelateImage_small_block (σ : gmap loc (list Z)) (img : ImageData)
    (blockSize : Q) (d : list Z) :
  σ !! data img = Some d ->
  well_formed (width img) (height img) d ->
  (blockSize < 2)%Q ->
  pixelateImage σ img blockSize = σ.
Proof.
  intros Hσ Hwf Hsmall. unfold pixelateImage.
  rewrite (bytes_of_lookup σ _ d Hσ).
  apply insert_id. rewrite Hσ. f_equal.
  pose proof Hwf as (Hw & Hh & Hlen & _).
  apply (list_eq_pixels (width img) (height img));
    [exact Hw | exact Hh | exact Hlen | |].
  - apply pixelate_data_length; assumption.
  - intros x y c Hx Hy Hc.
    rewrite pixelate_data_lookup_bytes by assumption.
    rewrite (block_size_one blockSize Hsmall).
    unfold block_centre, block_origin.
    rewrite !Z.div_1_r. change (1 / 2) with 0.
    f_equal. f_equal; lia.
Qed.

Lemma pixelateImage_small_block_witness :
  demo_store !! data demo_image = Some demo_bytes /\
  well_formed (width demo_image) (height demo_image) demo_bytes /\
  (-3 # 2 < 2)%Q /\
  pixelateImage demo_store demo_image (-3 # 2) = demo_store.
Proof.
  split; [reflexivity|]. split; [exact demo_well_formed|].
  split; [reflexivity|].
  exact (pixelateImage_small_block demo_store demo_image (-3 # 2) demo_bytes
           eq_refl demo_well_formed eq_refl).
Defined.

(** X7.  With a block at least as large as the image in both directions
    the whole image becomes one flat colour: the original value at
    [(min(floor(size/2), width - 1), min(floor(size/2), height - 1))]. *)
Theorem pixelateImage_single_block (σ : gmap loc (list Z)) (img : ImageData)
    (blockSize : Q) (d : list Z) :
  σ !! data img = Some d ->
  well_formed (width img) (height img) d ->
  width img <= block_size blockSize ->
  height img <= block_size blockSize ->
  exists d',
    pixelateImage σ img blockSize !! data img = Some d' /\
    forall x y, 0 <= x < width img -> 0 <= y < height img ->
      rgba_at (width img) d' x y
      = rgba_at (width img) d
          (Z.min (block_size blockSize / 2) (width img - 1))
          (Z.min (block_size blockSize / 2) (height img - 1)).
Proof.
  intros Hσ Hwf Hbw Hbh. unfold pixelateImage.
  rewrite (bytes_of_lookup σ _ d Hσ). eexists.
  split; [apply lookup_insert_eq|].
  intros x y Hx Hy. rewrite pixelate_data_rgba by assumption.
  unfold block_centre, block_origin.
  rewrite (Z.div_small x), (Z.div_small y) by lia.
  rewrite !Z.mul_0_r, !Z.add_0_l. reflexivity.
Qed.

Lemma pixelateImage_single_block_witness :
  demo_store !! data demo_image = Some demo_bytes /\
  well_formed (width demo_image) (height demo_image) demo_bytes /\
  width demo_image <= block_size (7 # 2) /\
  height demo_image <= block_size (7 # 2) /\
  exists d',
    pixelateImage demo_store demo_image (7 # 2) !! data demo_image = Some d' /\
    rgba_at 2 d' 0 0 = rgba_at 2 demo_bytes 1 1.
Proof.
  split; [reflexivity|]. split; [exact demo_well_formed|].
  split; [vm_compute; discriminate|]. split; [vm_compute; discriminate|].
  destruct (pixelateImage_single_block demo_store demo_image (7 # 2)
              demo_bytes eq_refl demo_well_formed
              ltac:(vm_compute; discriminate) ltac:(vm_compute; discriminate))
    as (d' & Hd' & Hpix).
  exists d'. split; [exact Hd'|].
  exact (Hpix 0 0 ltac:(simpl; lia) ltac:(simpl; lia)).
Defined.

Lemma read_rgb_pixel_index (d : list Z) (w x y : Z) :
  read_rgb d (y * w + x)
  = (lookupZ d (pixel_index w x y 0), lookupZ d (pixel_index w x y 1),
     lookupZ d (pixel_index w x y 2)).
Proof. unfold read_rgb, pixel_index. rewrite Z.add_0_r. reflexivity. Qed.

Lemma quantized_byte_pixel_index (palette : list RGB) (d : list Z)
    (w x y c : Z) :
  0 <= c < 4 ->
  quantized_byte palette d (pixel_index w x y c)
  = if c =? 3 then lookupZ d (pixel_index w x y c)
    else e ← palette !! nearest palette (read_rgb d (y * w + x));
         Some (to_u8c (rgb_channel e c)).
Proof.
  intros Hc. unfold quantized_byte, pixel_index.
  replace (((y * w + x) * 4 + c) mod 4) with c
    by (apply (Z.mod_unique _ 4 (y * w + x) c); lia).
  replace (((y * w + x) * 4 + c) / 4) with (y * w + x)
    by (apply (Z.div_unique _ 4 (y * w + x) c); lia).
  reflexivity.
Qed.

(** For a fixed palette the two effects commute on the bytes. *)
Lemma quantize_pixelate_commute (palette : list RGB) (w h : Z)
    (blockSize : Q) (d dq : list Z) :
  well_formed w h d -> palette <> [] ->
  quantize_data palette d = Some dq ->
  quantize_data palette (pixelate_data w h blockSize d)
  = Some (pixelate_data w h blockSize dq).
Proof.
  intros Hwf Hne Hq.
  pose proof (quantize_data_well_formed palette w h d dq Hwf Hne Hq) as Hwfq.
  pose proof (pixelate_data_well_formed w h blockSize d Hwf) as Hwfp.
  destruct (quantize_data_spec palette d Hne) as (dq1 & Hq1 & Hl1 & Hb1).
  assert (dq1 = dq) by congruence. subst dq1.
  destruct (quantize_data_spec palette (pixelate_data w h blockSize d) Hne)
    as (dpq & Hpq & Hl2 & Hb2).
  rewrite Hpq. f_equal.
  pose proof Hwf as (Hw & Hh & Hlen & _).
  pose proof Hwfp as (_ & _ & Hlenp & _).
  pose proof Hwfq as (_ & _ & Hlenq & _).
  assert (Hs : 1 <= block_size blockSize) by (unfold block_size; lia).
  apply (list_eq_pixels w h); [exact Hw | exact Hh | lia | |].
  - rewrite pixelate_data_length by lia. lia.
  - intros x y c Hx Hy Hc.
    destruct (block_centre_in_block _ w x Hs Hx) as [_ Hcx].
    destruct (block_centre_in_block _ h y Hs Hy) as [_ Hcy].
    rewrite (pixelate_data_lookup_bytes w h blockSize dq) by assumption.
    rewrite Hb2 by (rewrite Hlenp; apply pixel_index_range; assumption).
    rewrite Hb1 by (rewrite Hlen; apply pixel_index_range; assumption).
    rewrite !quantized_byte_pixel_index by assumption.
    rewrite !read_rgb_pixel_index.
    rewrite !(pixelate_data_lookup_bytes w h blockSize d) by (auto; lia).
    reflexivity.
Qed.

(** X8.  For a fixed non-empty palette, quantization and pixelation
    commute on a well-formed image: pixelating and then applying the
    palette gives the same store as applying the palette and then
    pixelating. *)
Theorem qunatizeImage_pixelateImage_commute (σ : gmap loc (list Z))
    (img : ImageData) (palette : list RGB) (blockSize : Q) (d : list Z) :
  σ !! data img = Some d ->
  well_formed (width img) (height img) d ->
  palette <> [] ->
  qunatizeImage (pixelateImage σ img blockSize) img palette
  = (fun σ' => pixelateImage σ' img blockSize) <$> qunatizeImage σ img palette
  /\ is_Some (qunatizeImage σ img palette).
Proof.
  intros Hσ Hwf Hne.
  destruct (quantize_data_spec palette d Hne) as (dq & Hq & _).
  unfold qunatizeImage, pixelateImage.
  rewrite !(bytes_of_lookup σ _ d Hσ), bytes_of_insert, Hq.
  rewrite (quantize_pixelate_commute palette _ _ blockSize d dq Hwf Hne Hq).
  cbn [mbind option_bind fmap option_fmap option_map].
  rewrite bytes_of_insert, !insert_insert_eq. split; [reflexivity | eauto].
Qed.

Lemma qunatizeImage_pixelateImage_commute_witness :
  demo_store !! data demo_image = Some demo_bytes /\
  well_formed (width demo_image) (height demo_image) demo_bytes /\
  [(Some 0, Some 0, Some 0); (Some 255, Some 255, Some 255)] <> [] /\
  qunatizeImage (pixelateImage demo_store demo_image (2 # 1)) demo_image
    [(Some 0, Some 0, Some 0); (Some 255, Some 255, Some 255)]
  = (fun σ' => pixelateImage σ' demo_image (2 # 1))
      <$> qunatizeImage demo_store demo_image
            [(Some 0, Some 0, Some 0); (Some 255, Some 255, Some 255)].
Proof.
  split; [reflexivity|]. split; [exact demo_well_formed|].
  split; [discriminate|].
  exact (proj1 (qunatizeImage_pixelateImage_commute demo_store demo_image
                  [(Some 0, Some 0, Some 0); (Some 255, Some 255, Some 255)]
                  (2 # 1) demo_bytes eq_refl demo_well_formed
                  ltac:(discriminate))).
Defined.

(** ** Sampling and random draws: bounds *)

(** X9.  The sample set of a non-empty image is never empty, never larger
    than the pixel population, and holds at most 9999 samples; from 5000
    pixels on it holds at least 5000 samples. *)
Theorem sample_count_bounds (w h : Z) (d : list Z) :
  0 < w * h ->
  1 <= Z.of_nat (length (collect_samples w h d)) <= 9999 /\
  Z.of_nat (length (collect_samples w h d)) <= w * h /\
  (5000 <= w * h -> 5000 <= Z.of_nat (length (collect_samples w h d))).
Proof.
  intros Htot.
  destruct (collect_samples_strided w h d Htot) as (n & -> & Hn).
  rewrite strided_pixels_length, Hn.
  set (T := w * h) in *.
  assert (Hstep : sample_step T = Z.max 1 (T / 5000)) by reflexivity.
  pose proof (Z.mul_div_le T 5000 ltac:(lia)) as Hlo.
  pose proof (Z.mul_succ_div_gt T 5000 ltac:(lia)) as Hhi.
  assert (Hq : 0 <= T / 5000) by (apply Z.div_pos; lia).
  set (s := sample_step T) in *.
  assert (Hs : 1 <= s) by lia.
  assert (Hle : (T + s - 1) / s <= T)
    by (apply Z.div_le_upper_bound; nia).
  split; [split|split].
  - apply Z.div_le_lower_bound; lia.
  - destruct (Z.lt_ge_cases T 10000) as [Hsmall|Hlarge]; [lia|].
    assert (2 <= T / 5000) by (apply Z.div_le_lower_bound; lia).
    assert ((T + s - 1) / s <= 7500); [|lia].
    apply Z.div_le_upper_bound; lia.
  - exact Hle.
  - intros Hbig. apply Z.div_le_lower_bound; [lia|].
    assert (1 <= T / 5000) by (apply Z.div_le_lower_bound; lia). lia.
Qed.

Lemma sample_count_bounds_witness :
  0 < 2 * 2 /\
  1 <= Z.of_nat (length (collect_samples 2 2 demo_bytes)) <= 9999.
Proof.
  split; [lia|].
  exact (proj1 (sample_count_bounds 2 2 demo_bytes ltac:(lia))).
Defined.

Lemma build_palette_draws (r : rng) (w h : Z) (d : list Z)
    (k maxIters : Z) (n n' : nat) (palette : list RGB) :
  valid_rng r -> 0 < w * h ->
  build_palette r w h d k maxIters n = Some (palette, n') ->
  (n + Z.to_nat (clamp_k k) <= n' <= n + max_draws k maxIters)%nat /\
  (maxIters <= 0 -> n' = (n + Z.to_nat (clamp_k k))%nat).
Proof.
  intros Hr Htot. unfold build_palette. cbv zeta.
  pose proof (collect_samples_nonempty w h d Htot) as Hlen.
  pose proof (clamp_k_range k) as Hk.
  destruct (Nat.eqb_spec (length (collect_samples w h d)) 0) as [E|_]; [lia|].
  destruct (seed_centers_spec r (collect_samples w h d) (clamp_k k) n Hr Hlen
              ltac:(lia)) as (centers & -> & _ & _).
  set (K := Z.to_nat (clamp_k k)).
  assert (HK : max_draws k maxIters = (K * (1 + Z.to_nat maxIters))%nat)
    by reflexivity.
  destruct (for_loop_inv
    (fun (i : Z) (st : option (list RGB * nat)) =>
       0 <= i <= Z.max 0 maxIters /\
       forall cs n1, st = Some (cs, n1) ->
         (n + K <= n1 <= n + K + Z.to_nat i * K)%nat)
    (fun _ st => st ≫= kmeans_iter r (collect_samples w h d) (clamp_k k))
    maxIters 1 ltac:(lia)) with (i := 0) (s := Some (centers, (n + K)%nat))
    as (j & Hj & Hjr & Hfin).
  - intros i st Hi [Hi0 Hcnt]. split; [lia|].
    intros cs1 n1. destruct st as [[cs0 n0]|]; [|discriminate].
    specialize (Hcnt cs0 n0 eq_refl). cbn [mbind option_bind].
    intros E. apply kmeans_iter_counter in E. fold K in E.
    replace (Z.to_nat (i + 1)) with (S (Z.to_nat i)) by lia. lia.
  - split; [lia|]. intros cs1 n1 [= <- <-]. lia.
  - intros E. specialize (Hfin palette n' E). split.
    + split; [lia|]. rewrite HK.
      assert (Z.to_nat j <= Z.to_nat maxIters)%nat by lia. nia.
    + intros Hz. assert (j = 0) by lia. subst j. simpl in Hfin. lia.
Qed.

(** X10.  On a non-empty image [buildPalette] calls the random source at
    least [k] times (the seeds) and at most [k * (1 + maxIters)] times
    (one re-seed per centroid and iteration at most), [k] the clamped
    palette size; with [maxIters <= 0] it makes exactly [k] draws. *)
Theorem buildPalette_draw_count (r : rng) (σ : gmap loc (list Z))
    (img : ImageData) (k maxIters : Z) (n : nat) :
  valid_rng r ->
  0 < width img * height img ->
  exists palette n',
    buildPalette r σ img k maxIters n = Some (palette, n') /\
    (n + Z.to_nat (clamp_k k) <= n' <= n + max_draws k maxIters)%nat /\
    (maxIters <= 0 -> n' = (n + Z.to_nat (clamp_k k))%nat).
Proof.
  intros Hr Htot. unfold buildPalette.
  destruct (build_palette_returns r (width img) (height img)
              (bytes_of σ (data img)) k maxIters n Hr Htot)
    as (palette & n' & Hb & _).
  exists palette, n'. split; [exact Hb|].
  eapply build_palette_draws; eauto.
Qed.

Lemma buildPalette_draw_count_witness :
  valid_rng demo_rng /\
  0 < width demo_image * height demo_image /\
  exists palette n',
    buildPalette demo_rng demo_store demo_image 2 8 0 = Some (palette, n') /\
    (0 + Z.to_nat (clamp_k 2) <= n' <= 0 + max_draws 2 8)%nat.
Proof.
  split; [exact demo_rng_valid|]. split; [simpl; lia|].
  destruct (buildPalette_draw_count demo_rng demo_store demo_image 2 8 0
              demo_rng_valid ltac:(simpl; lia)) as (p & n' & Hb & Hc & _).
  exists p, n'. split; [exact Hb | exact Hc].
Defined.

(** ** Palettes made of pixel colours *)

Lemma collect_samples_elem (w h : Z) (d : list Z) (s : RGB) :
  s ∈ collect_samples w h d ->
  exists i, 0 <= i < w * h /\ s = read_rgb d i.
Proof.
  unfold collect_samples.
  destruct (for_loop_inv
    (fun i samples => 0 <= i /\
       forall s, s ∈ samples -> exists j, 0 <= j < w * h /\ s = read_rgb d j)
    (fun i samples => samples ++ [read_rgb d i]) (w * h)
    (sample_step (w * h)) (sample_step_pos _)) with (i := 0) (s := @nil RGB)
    as (j & _ & _ & Hfin).
  - intros i samples Hi [Hi0 Hs]. pose proof (sample_step_pos (w * h)).
    split; [lia|]. intros s' Hin.
    apply elem_of_app in Hin as [Hin|Hin]; [auto|].
    apply list_elem_of_singleton in Hin. subst s'. exists i. split; [lia | reflexivity].
  - split; [lia|]. intros s' Hin. inversion Hin.
  - apply Hfin.
Qed.

Lemma read_rgb_pixel_rgba (d : list Z) (i r g b a : Z) :
  pixel_rgba d i = Some (r, g, b, a) -> read_rgb d i = rgb_of (r, g, b).
Proof.
  intros Hp. apply pixel_rgba_inv in Hp as (H0 & H1 & H2 & _).
  unfold read_rgb. cbv zeta. rewrite H0, H1, H2. reflexivity.
Qed.

(** X11.  With [maxIters <= 0] no clustering step runs: on a well-formed,
    non-empty image the palette is the list of the [k] seeds, and every
    entry is the RGB value of a pixel of the image. *)
Theorem buildPalette_seeds_only (r : rng) (σ : gmap loc (list Z))
    (img : ImageData) (k maxIters : Z) (n : nat) (d : list Z) :
  valid_rng r ->
  σ !! data img = Some d ->
  well_formed (width img) (height img) d ->
  0 < width img * height img ->
  maxIters <= 0 ->
  exists palette,
    buildPalette r σ img k maxIters n
    = Some (palette, (n + Z.to_nat (clamp_k k))%nat) /\
    Z.of_nat (length palette) = Z.min (Z.max 1 k) 256 /\
    forall e, e ∈ palette ->
      exists i r0 g0 b0 a0,
        0 <= i < width img * height img /\
        pixel_rgba d i = Some (r0, g0, b0, a0) /\
        e = (Some r0, Some g0, Some b0).
Proof.
  intros Hr Hσ Hwf Htot Hz. unfold buildPalette, build_palette. cbv zeta.
  rewrite (bytes_of_lookup σ _ d Hσ).
  pose proof (collect_samples_nonempty (width img) (height img) d Htot) as Hlen.
  pose proof (clamp_k_range k) as Hk.
  destruct (Nat.eqb_spec (length (collect_samples (width img) (height img) d)) 0)
    as [E|_]; [lia|].
  destruct (seed_centers_spec r _ (clamp_k k) n Hr Hlen ltac:(lia))
    as (centers & -> & Hl & Hin).
  rewrite for_loop_unfold by lia.
  destruct (Z.ltb_spec 0 maxIters); [lia|].
  exists centers. split; [reflexivity|].
  split; [rewrite Hl; unfold clamp_k; lia|].
  intros e He. rewrite Forall_forall in Hin.
  destruct (collect_samples_elem _ _ _ _ (Hin e He)) as (i & Hi & ->).
  pose proof Hwf as (_ & _ & Hlend & _).
  destruct (pixel_rgba_is_Some _ _ d i Hlend Hi) as [[[[r0 g0] b0] a0] Hp].
  exists i, r0, g0, b0, a0. split; [exact Hi|]. split; [exact Hp|].
  apply (read_rgb_pixel_rgba d i r0 g0 b0 a0 Hp).
Qed.

Lemma buildPalette_seeds_only_witness :
  valid_rng demo_rng /\
  demo_store !! data demo_image = Some demo_bytes /\
  well_formed (width demo_image) (height demo_image) demo_bytes /\
  0 < width demo_image * height demo_image /\
  0 <= 0 /\
  exists palette,
    buildPalette demo_rng demo_store demo_image 3 0 0
    = Some (palette, (0 + Z.to_nat (clamp_k 3))%nat) /\
    Z.of_nat (length palette) = Z.min (Z.max 1 3) 256.
Proof.
  split; [exact demo_rng_valid|]. split; [reflexivity|].
  split; [exact demo_well_formed|]. split; [simpl; lia|]. split; [lia|].
  destruct (buildPalette_seeds_only demo_rng demo_store demo_image 3 0 0
              demo_bytes demo_rng_valid eq_refl demo_well_formed
              ltac:(simpl; lia) ltac:(lia)) as (p & H1 & H2 & _).
  exists p. split; [exact H1 | exact H2].
Defined.

(** ** An image of one colour *)

Lemma round_div_mean (m x : Z) :
  0 < m -> round_div (Some (m * x)) m = Some x.
Proof.
  intros Hm. unfold round_div. f_equal.
  symmetry. apply (Z.div_unique _ _ x m); lia.
Qed.

Lemma Forall_eq_replicate {A : Type} (x : A) (l : list A) :
  Forall (fun y => y = x) l -> l = replicate (length l) x.
Proof.
  induction 1 as [|y l -> _ IH]; simpl; [reflexivity | f_equal; exact IH].
Qed.

Lemma map_replicate {A B : Type} (f : A -> B) (m : nat) (x : A) :
  map f (replicate m x) = replicate m (f x).
Proof. induction m as [|m IH]; simpl; [reflexivity | f_equal; exact IH]. Qed.

Lemma zip_replicate {A B : Type} (m : nat) (x : A) (y : B) :
  zip (replicate m x) (replicate m y) = replicate m (x, y).
Proof. induction m as [|m IH]; simpl; [reflexivity | f_equal; exact IH]. Qed.

(** Accumulating [m] copies of one sample, all assigned to cluster 0. *)
Lemma accumulate_replicate (m : nat) (x0 x1 x2 a0 a1 a2 c0 : Z)
    (sums : list RGB) (counts : list Z) :
  accumulate (replicate m ((Some x0, Some x1, Some x2), 0%nat))
    ((Some a0, Some a1, Some a2) :: sums, c0 :: counts)
  = Some ((Some (a0 + Z.of_nat m * x0), Some (a1 + Z.of_nat m * x1),
           Some (a2 + Z.of_nat m * x2)) :: sums,
          (c0 + Z.of_nat m) :: counts).
Proof.
  revert a0 a1 a2 c0. induction m as [|m IH]; intros a0 a1 a2 c0.
  - cbn [replicate accumulate Z.of_nat].
    rewrite !Z.mul_0_l, !Z.add_0_r. reflexivity.
  - replace (a0 + Z.of_nat (S m) * x0) with (a0 + x0 + Z.of_nat m * x0) by lia.
    replace (a1 + Z.of_nat (S m) * x1) with (a1 + x1 + Z.of_nat m * x1) by lia.
    replace (a2 + Z.of_nat (S m) * x2) with (a2 + x2 + Z.of_nat m * x2) by lia.
    replace (c0 + Z.of_nat (S m)) with (c0 + 1 + Z.of_nat m) by lia.
    cbn [replicate accumulate add_sample].
    cbn [lookup list_lookup mbind option_bind insert list_insert num_op].
    apply IH.
Qed.

Lemma kmeans_iter_uniform (r : rng) (e : color) (m : nat) (k : Z) (n : nat) :
  valid_rng r -> 1 <= k ->
  exists n',
    kmeans_iter r (replicate (S m) (rgb_of e)) k
      (replicate (Z.to_nat k) (rgb_of e), n)
    = Some (replicate (Z.to_nat k) (rgb_of e), n').
Proof.
  intros Hr Hk. unfold kmeans_iter. cbv zeta.
  destruct (Z.to_nat k) as [|K] eqn:EK; [lia|].
  rewrite map_replicate, nearest_replicate, zip_replicate.
  destruct e as [[r0 g0] b0]. cbn [rgb_of].
  change (replicate (S K) (Some 0, Some 0, Some 0))
    with ((Some 0, Some 0, Some 0) :: replicate K (Some 0, Some 0, Some 0)).
  change (replicate (S K) 0) with (0 :: replicate K 0).
  rewrite accumulate_replicate. cbn [mbind option_bind].
  change (replicate (S K) (Some r0, Some g0, Some b0))
    with ((Some r0, Some g0, Some b0) :: replicate K (Some r0, Some g0, Some b0)).
  change (replicate (S m) (Some r0, Some g0, Some b0))
    with ((Some r0, Some g0, Some b0) :: replicate m (Some r0, Some g0, Some b0)).
  set (s := (Some r0, Some g0, Some b0)).
  set (M := Z.of_nat (S m)).
  assert (HM : 0 < M) by (unfold M; lia).
  destruct (for_loop_inv
    (fun (c : Z) (st : option (list RGB * nat)) =>
       0 <= c /\ exists n', st = Some (s :: replicate K s, n'))
    (fun c st => st ≫=
       update_center r (s :: replicate m s)
         ((Some (0 + M * r0), Some (0 + M * g0), Some (0 + M * b0))
            :: replicate K (Some 0, Some 0, Some 0))
         ((0 + M) :: replicate K 0) c)
    k 1 ltac:(lia)) with (i := 0) (s := Some (s :: replicate K s, n))
    as (j & _ & _ & Hfin).
  - intros c st Hc (Hc0 & n' & ->). split; [lia|].
    cbn [mbind option_bind]. unfold update_center.
    destruct (random_sample_Some r (s :: replicate m s) n' Hr
                ltac:(simpl; lia)) as (s' & -> & Hin).
    assert (s' = s).
    { change (s :: replicate m s) with (replicate (S m) s) in Hin.
      apply elem_of_replicate in Hin. tauto. }
    subst s'.
    destruct (Z.eq_dec c 0) as [->|Hne].
    + rewrite !lookupZ_cons_0. cbn [mbind option_bind].
      rewrite !Z.add_0_l.
      destruct (Z.ltb_spec 0 M); [|lia].
      change (Z.to_nat 0) with 0%nat. cbn [insert list_insert].
      rewrite !round_div_mean by exact HM. eauto.
    + rewrite !lookupZ_cons_pos by lia.
      rewrite !lookupZ_replicate by lia. cbn [mbind option_bind].
      change (0 <? 0) with false. cbn iota.
      exists (S n'). f_equal. f_equal.
      apply list_insert_id.
      rewrite <- lookupZ_of_nat, Z2Nat.id by lia.
      rewrite lookupZ_cons_pos by lia. apply lookupZ_replicate. lia.
  - split; [lia|]. eauto.
  - exact Hfin.
Qed.

Lemma collect_samples_uniform (w h : Z) (d : list Z) (r0 g0 b0 a0 : Z) :
  0 < w * h -> uniform w h d r0 g0 b0 a0 ->
  exists m : nat,
    collect_samples w h d = replicate (S m) (rgb_of (r0, g0, b0)).
Proof.
  intros Htot Hu.
  assert (Hall : Forall (fun s => s = rgb_of (r0, g0, b0))
                   (collect_samples w h d)).
  { apply Forall_forall. intros s Hs.
    destruct (collect_samples_elem w h d s Hs) as (i & Hi & ->).
    apply (read_rgb_pixel_rgba d i r0 g0 b0 a0). apply Hu. exact Hi. }
  apply Forall_eq_replicate in Hall.
  pose proof (collect_samples_nonempty w h d Htot) as Hlen.
  destruct (length (collect_samples w h d)) as [|m]; [lia|].
  exists m. exact Hall.
Qed.

Lemma build_palette_uniform (r : rng) (w h : Z) (d : list Z)
    (k maxIters : Z) (n : nat) (r0 g0 b0 a0 : Z) :
  valid_rng r -> 0 < w * h -> uniform w h d r0 g0 b0 a0 ->
  exists n',
    build_palette r w h d k maxIters n
    = Some (replicate (Z.to_nat (clamp_k k)) (rgb_of (r0, g0, b0)), n').
Proof.
  intros Hr Htot Hu. unfold build_palette. cbv zeta.
  destruct (collect_samples_uniform w h d r0 g0 b0 a0 Htot Hu) as [m ->].
  rewrite length_replicate. cbn [Nat.eqb].
  set (s := rgb_of (r0, g0, b0)).
  pose proof (clamp_k_range k) as Hk.
  destruct (seed_centers_spec r (replicate (S m) s) (clamp_k k) n Hr
              ltac:(rewrite length_replicate; lia) ltac:(lia))
    as (centers & Hseed & Hl & Hall).
  assert (Hc : centers = replicate (Z.to_nat (clamp_k k)) s).
  { rewrite <- Hl. apply Forall_eq_replicate.
    eapply Forall_impl; [exact Hall|]. intros x Hx.
    apply elem_of_replicate in Hx. tauto. }
  subst centers. rewrite Hseed.
  destruct (for_loop_inv
    (fun (i : Z) (st : option (list RGB * nat)) =>
       exists n', st = Some (replicate (Z.to_nat (clamp_k k)) s, n'))
    (fun _ st => st ≫= kmeans_iter r (replicate (S m) s) (clamp_k k))
    maxIters 1 ltac:(lia)) with (i := 0)
      (s := Some (replicate (Z.to_nat (clamp_k k)) s,
                  (n + Z.to_nat (clamp_k k))%nat))
    as (j & _ & Hfin).
  - intros i st _ (n' & ->). cbn [mbind option_bind].
    apply kmeans_iter_uniform; [exact Hr | lia].
  - eauto.
  - exact Hfin.
Qed.

Lemma pixel_rgba_eq_lookup2 (d1 d2 : list Z) (i1 i2 c : Z) :
  is_Some (pixel_rgba d1 i1) ->
  pixel_rgba d1 i1 = pixel_rgba d2 i2 -> 0 <= c < 4 ->
  lookupZ d1 (i1 * 4 + c) = lookupZ d2 (i2 * 4 + c).
Proof.
  intros [[[[r g] b] a] H1] E Hc. rewrite H1 in E. symmetry in E.
  apply pixel_rgba_inv in H1, E.
  destruct H1 as (? & ? & ? & ?), E as (? & ? & ? & ?).
  assert (c = 0 \/ c = 1 \/ c = 2 \/ c = 3) as [-> | [-> | [-> | ->]]] by lia;
    rewrite ?Z.add_0_r; congruence.
Qed.

Lemma quantize_data_uniform (w h : Z) (d : list Z) (K : nat)
    (r0 g0 b0 a0 : Z) :
  well_formed w h d -> 0 < w * h -> uniform w h d r0 g0 b0 a0 ->
  quantize_data (replicate (S K) (rgb_of (r0, g0, b0))) d = Some d.
Proof.
  intros Hwf Htot Hu.
  assert (Hcol : is_color (r0, g0, b0)).
  { pose proof (read_rgb_bytes w h d 0 Hwf ltac:(lia)) as Hb.
    rewrite (read_rgb_pixel_rgba d 0 r0 g0 b0 a0) in Hb by (apply Hu; lia).
    exact Hb. }
  destruct (quantize_data_pixels (replicate (S K) (r0, g0, b0)) d
              ltac:(discriminate)
              ltac:(apply Forall_replicate; exact Hcol))
    as (dq & Hq & Hl & Hpix).
  rewrite map_replicate in Hq. rewrite Hq.
  f_equal. pose proof Hwf as (Hw & Hh & Hlen & _).
  apply (list_eq_pixels w h); [exact Hw | exact Hh | lia | symmetry; exact Hl |].
  intros x y c Hx Hy Hc. unfold pixel_index.
  pose proof (linear_index_range w h x y Hx Hy) as Hi.
  pose proof (Hu _ Hi) as Hp.
  destruct (Hpix _ _ _ _ _ Hp) as (j & r' & g' & b' & _ & _ & Hj & Hp').
  apply lookup_replicate_1 in Hj as [Hj _]. injection Hj as -> -> ->.
  apply pixel_rgba_eq_lookup2; [rewrite Hp'; eauto | congruence | exact Hc].
Qed.

Lemma pixelate_data_uniform (w h : Z) (blockSize : Q) (d : list Z)
    (r0 g0 b0 a0 : Z) :
  well_formed w h d -> uniform w h d r0 g0 b0 a0 ->
  pixelate_data w h blockSize d = d.
Proof.
  intros Hwf Hu. pose proof Hwf as (Hw & Hh & Hlen & _).
  assert (Hs : 1 <= block_size blockSize) by (unfold block_size; lia).
  apply (list_eq_pixels w h); [exact Hw | exact Hh | | |].
  - rewrite pixelate_data_length by assumption. exact Hlen.
  - symmetry. apply pixelate_data_length; assumption.
  - intros x y c Hx Hy Hc.
    rewrite pixelate_data_lookup_bytes by assumption.
    destruct (block_centre_in_block _ w x Hs Hx) as [_ Hcx].
    destruct (block_centre_in_block _ h y Hs Hy) as [_ Hcy].
    unfold pixel_index.
    apply pixel_rgba_eq_lookup2; [| |exact Hc].
    + rewrite Hu by (apply linear_index_range; assumption). eauto.
    + rewrite !Hu by (apply linear_index_range; assumption). reflexivity.
Qed.

(** X12.  An image whose pixels all carry the same RGBA value is a fixed
    point of the whole pipeline: for every combination of flags and
    parameters the run returns a buffer with exactly the bytes of the
    input, and the palette built for it consists of [k] copies of that
    colour. *)
Theorem processImage_uniform_image (r : rng) (n : nat)
    (σ : gmap loc (list Z)) (source : ImageData) (pixelate : bool)
    (blockSize : Q) (quantize : bool) (paletteSize maxKMeansIters : Z)
    (d : list Z) (r0 g0 b0 a0 : Z) :
  valid_rng r ->
  σ !! data source = Some d ->
  well_formed (width source) (height source) d ->
  0 < width source * height source ->
  uniform (width source) (height source) d r0 g0 b0 a0 ->
  (exists n',
     buildPalette r σ source paletteSize maxKMeansIters n
     = Some (replicate (Z.to_nat (clamp_k paletteSize))
               (Some r0, Some g0, Some b0), n')) /\
  exists (σ' : gmap loc (list Z)) (out : ImageData) (n' : nat),
    processImage r n σ source pixelate blockSize quantize paletteSize
      maxKMeansIters = (σ', Some (out, n')) /\
    σ' !! data out = Some d.
Proof.
  intros Hr Hσ Hwf Htot Hu.
  destruct (build_palette_uniform r (width source) (height source) d
              paletteSize maxKMeansIters n r0 g0 b0 a0 Hr Htot Hu)
    as [n' Hb].
  split.
  { exists n'. unfold buildPalette. rewrite (bytes_of_lookup σ _ d Hσ).
    exact Hb. }
  rewrite (processImage_bytes r n σ source pixelate blockSize quantize
             paletteSize maxKMeansIters d Hσ).
  assert (Hq : exists n1,
    (if quantize then
       '(palette, n') ← build_palette r (width source) (height source) d
                          paletteSize maxKMeansIters n;
       dq ← quantize_data palette d; Some (dq, n')
     else Some (d, n)) = Some (d, n1)).
  { destruct quantize; [|eauto]. rewrite Hb. cbn [mbind option_bind].
    pose proof (clamp_k_range paletteSize) as Hk.
    destruct (Z.to_nat (clamp_k paletteSize)) as [|K] eqn:EK; [lia|].
    rewrite (quantize_data_uniform _ _ d K r0 g0 b0 a0 Hwf Htot Hu).
    cbn [mbind option_bind]. eauto. }
  destruct Hq as [n1 ->].
  eexists _, _, _. split; [reflexivity|].
  rewrite lookup_insert_eq. f_equal.
  destruct pixelate; [|reflexivity].
  apply (pixelate_data_uniform _ _ blockSize d r0 g0 b0 a0 Hwf Hu).
Qed.

Lemma flat_well_formed : well_formed 2 1 flat_bytes.
Proof.
  unfold well_formed, flat_bytes. repeat split; try lia.
  repeat constructor; lia.
Qed.

Lemma flat_uniform : uniform 2 1 flat_bytes 7 8 9 255.
Proof.
  intros i Hi. assert (i = 0 \/ i = 1) as [-> | ->] by lia; reflexivity.
Qed.

Lemma processImage_uniform_image_witness :
  valid_rng demo_rng /\
  flat_store !! data flat_image = Some flat_bytes /\
  well_formed (width flat_image) (height flat_image) flat_bytes /\
  0 < width flat_image * height flat_image /\
  uniform (width flat_image) (height flat_image) flat_bytes 7 8 9 255 /\
  exists (σ' : gmap loc (list Z)) (out : ImageData) (n' : nat),
    processImage demo_rng 0 flat_store flat_image true (2 # 1) true 4 8
    = (σ', Some (out, n')) /\
    σ' !! data out = Some flat_bytes.
Proof.
  split; [exact demo_rng_valid|]. split; [reflexivity|].
  split; [exact flat_well_formed|]. split; [simpl; lia|].
  split; [exact flat_uniform|].
  exact (proj2 (processImage_uniform_image demo_rng 0 flat_store flat_image
                  true (2 # 1) true 4 8 flat_bytes 7 8 9 255
                  demo_rng_valid eq_refl flat_well_formed ltac:(simpl; lia)
                  flat_uniform)).
Defined.

(** ** The worker *)



(** The response to [demo_request]: the bytes of [processImage_demo], in
    the third array of the store. *)
Example worker_demo :
  let run := worker_onmessage demo_rng 0 demo_store demo_request in
  run.2 = Some (mkWorkerResponse 2 2 3%positive, 3%nat) /\
  run.1 !! 3%positive
  = Some [118; 118; 33; 128;  118; 118; 33; 128;
          118; 118; 33; 128;  118; 118; 33; 128].
Proof. vm_compute. split; reflexivity. Qed.

(** ** The page: what is posted *)

Lemma run_app (p : page) (es1 es2 : list event) :
  run p (es1 ++ es2) = run p es1 ≫= fun p' => run p' es2.
Proof.
  revert p. induction es1 as [|e es1 IH]; intros p; cbn [app run].
  - reflexivity.
  - destruct (step p e) as [p1|]; cbn [mbind option_bind]; [apply IH | reflexivity].
Qed.

Lemma step_ready (p : page) (e : event) :
  ready p -> exists p', step p e = Some p' /\ ready p'.
Proof.
  intros (Hw & Hi & Hp & Hr). destruct e as [| |px bs qz ps]; cbn [step].
  - rewrite (processAndRender_idle p Hw Hi Hp Hr).
    eexists. split; [reflexivity|]. unfold ready.
    destruct p; cbn in *. auto.
  - eexists. split; [reflexivity|]. unfold ready.
    destruct p; cbn in *. auto.
  - eexists. split; [reflexivity|]. unfold ready.
    destruct p; cbn in *. auto.
Qed.

Lemma run_ready (es : list event) (p : page) :
  ready p -> exists p', run p es = Some p' /\ ready p'.
Proof.
  revert p. induction es as [|e es IH]; intros p Hp; cbn [run].
  - eauto.
  - destruct (step_ready p e Hp) as (p1 & -> & Hp1).
    cbn [mbind option_bind]. apply IH. exact Hp1.
Qed.

Lemma initial_page_ready : ready initial_page.
Proof. repeat split. Qed.

Lemma run_posted_trace (es : list event) (p : page) :
  ready p ->
  exists p',
    run p es = Some p' /\ ready p' /\
    posted p' = posted p ++ posted_trace (live_request p) es /\
    answered p' = (answered p + count_answers es)%nat.
Proof.
  revert p. induction es as [|e es IH]; intros p Hp.
  - exists p. cbn [run posted_trace count_answers].
    rewrite app_nil_r, Nat.add_0_r. auto.
  - pose proof Hp as (Hw & Hi & Hip & Hr).
    destruct e as [| |px bs qz ps]; cbn [run step posted_trace count_answers].
    + rewrite (processAndRender_idle p Hw Hi Hip Hr). cbn [mbind option_bind].
      destruct (IH (post_message p)) as (p' & Hrun & Hp' & Hpost & Hans).
      { destruct p; cbn in *. repeat split; assumption. }
      exists p'. split; [exact Hrun|]. split; [exact Hp'|].
      rewrite Hpost, Hans. destruct p; cbn. rewrite <- app_assoc. auto.
    + cbn [mbind option_bind].
      destruct (IH (on_worker_message p)) as (p' & Hrun & Hp' & Hpost & Hans).
      { destruct p; cbn in *. repeat split; assumption. }
      exists p'. split; [exact Hrun|]. split; [exact Hp'|].
      rewrite Hpost, Hans. destruct p; cbn. split; [reflexivity | lia].
    + cbn [mbind option_bind].
      destruct (IH (set_params p px bs qz ps)) as (p' & Hrun & Hp' & Hpost & Hans).
      { destruct p; cbn in *. repeat split; assumption. }
      exists p'. split; [exact Hrun|]. split; [exact Hp'|].
      rewrite Hpost, Hans. destruct p; cbn. auto.
Qed.

(** X14.  From the initial page, whatever the sequence of render requests,
    worker answers and changes of the controls: every render request is
    posted at once with the parameters in force at that moment, in order,
    nothing else is posted, and both flags are clear afterwards.  The
    number of requests in flight is therefore not bounded by the page. *)
Theorem page_posts_every_request (es : list event) :
  exists p,
    run initial_page es = Some p /\
    isProcessing p = false /\ pendingRun p = false /\
    posted p = posted_trace (live_request initial_page) es /\
    answered p = count_answers es.
Proof.
  destruct (run_posted_trace es initial_page initial_page_ready)
    as (p & Hrun & (_ & _ & Hip & Hr) & Hpost & Hans).
  exists p. split; [exact Hrun|]. split; [exact Hip|]. split; [exact Hr|].
  split; [exact Hpost | exact Hans].
Qed.

(** A change of the controls followed by a render request posts the new
    values. *)
Example posted_trace_demo :
  posted <$> run initial_page
    [Request_render; Set_params false (4 # 1) true 8; Request_render;
     Worker_answer]
  = Some [mkRequest true (16 # 1) true 16; mkRequest false (4 # 1) true 8].
Proof. reflexivity. Qed.

(** X15.  [processAndRender] returns from every state of the page, with a
    recursion at most one call deep (more fuel changes nothing).  It never
    changes the parameters or the count of answers and leaves
    [isProcessing] as it found it.  Without worker or image, or with
    [isProcessing] set, nothing is posted; otherwise the live parameters
    are posted once, and a second time when [pendingRun] was set, and
    [pendingRun] ends clear. *)
Theorem processAndRender_all_states (fuel : nat) (p : page) :
  exists p',
    processAndRender (2 + fuel) p = Some p' /\
    isProcessing p' = isProcessing p /\
    live_request p' = live_request p /\
    answered p' = answered p /\
    posted p' =
      posted p ++
      (if negb (has_worker p) || negb (has_image p) || isProcessing p then []
       else if pendingRun p then [live_request p; live_request p]
       else [live_request p]) /\
    pendingRun p' =
      (if negb (has_worker p) || negb (has_image p) then pendingRun p
       else isProcessing p).
Proof.
  rewrite processAndRender_fuel.
  destruct p as [hw hi px bs qz ps ip pr po an].
  destruct hw, hi, ip, pr; cbn; eexists;
    (split; [reflexivity|]); cbn; rewrite ?app_nil_r, <- ?app_assoc;
    repeat split.
Qed.

(** ** The page: the debounce timer *)

Lemma effect_run_one_timer (u : ui) :
  one_timer u ->
  one_timer (effect_run u) /\
  pending_timers (effect_run u) = {[ next_timer u ]} /\
  processTimeout (effect_run u) = Some (next_timer u) /\
  ui_page (effect_run u) = ui_page u.
Proof.
  intros [Hready Hone]. unfold effect_run.
  destruct Hready as (Hw & Hi & Hp & Hr). rewrite Hi. cbn [negb].
  assert (Hempty :
    match processTimeout u with
    | Some t => pending_timers u ∖ {[ t ]}
    | None => pending_timers u
    end = ∅).
  { apply set_eq. intros t. split; [|set_solver].
    destruct (processTimeout u) as [t0|] eqn:E.
    - intros Ht. apply elem_of_difference in Ht as [Ht Hne].
      specialize (Hone t Ht). injection Hone as ->. set_solver.
    - intros Ht. specialize (Hone t Ht). discriminate. }
  rewrite Hempty. cbn [ui_page pending_timers processTimeout].
  split; [|split; [set_solver | split; reflexivity]].
  split; [repeat split; assumption|].
  intros t Ht. f_equal. set_solver.
Qed.

Lemma ui_step_one_timer (u : ui) (e : ui_event) :
  one_timer u -> exists u', ui_step u e = Some u' /\ one_timer u'.
Proof.
  intros Hu. destruct e as [e| |t]; cbn [ui_step].
  - destruct Hu as [Hready Hone].
    destruct (step_ready (ui_page u) e Hready) as (p' & -> & Hp').
    cbn [mbind option_bind]. eexists. split; [reflexivity|].
    split; [exact Hp' | exact Hone].
  - eexists. split; [reflexivity|]. apply effect_run_one_timer. exact Hu.
  - unfold timer_fire. destruct Hu as [Hready Hone].
    destruct (decide (t ∈ pending_timers u)) as [Hin|Hout].
    + pose proof Hready as (Hw & Hi & Hp & Hr).
      rewrite (processAndRender_idle _ Hw Hi Hp Hr). cbn [mbind option_bind].
      eexists. split; [reflexivity|]. split.
      * cbn [ui_page]. destruct (ui_page u); cbn in *. repeat split; assumption.
      * cbn [pending_timers processTimeout]. intros t' Ht'.
        apply Hone. set_solver.
    + eexists. split; [reflexivity|]. split; assumption.
Qed.

Lemma ui_run_one_timer (es : list ui_event) (u : ui) :
  one_timer u -> exists u', ui_run u es = Some u' /\ one_timer u'.
Proof.
  revert u. induction es as [|e es IH]; intros u Hu; cbn [ui_run].
  - eauto.
  - destruct (ui_step_one_timer u e Hu) as (u1 & -> & Hu1).
    cbn [mbind option_bind]. apply IH. exact Hu1.
Qed.

Lemma ui_run_app (u : ui) (es1 es2 : list ui_event) :
  ui_run u (es1 ++ es2) = ui_run u es1 ≫= fun u' => ui_run u' es2.
Proof.
  revert u. induction es1 as [|e es1 IH]; intros u; cbn [app ui_run].
  - reflexivity.
  - destruct (ui_step u e) as [u1|]; cbn [mbind option_bind];
      [apply IH | reflexivity].
Qed.

Lemma initial_ui_one_timer : one_timer initial_ui.
Proof. split; [exact initial_page_ready|]. intros t Ht. set_solver. Qed.

Lemma effect_burst (m : nat) (u : ui) :
  one_timer u ->
  exists u',
    ui_run u (replicate (S m) Ui_effect) = Some u' /\
    one_timer u' /\
    ui_page u' = ui_page u /\
    exists t, pending_timers u' = {[ t ]} /\ processTimeout u' = Some t.
Proof.
  revert u. induction m as [|m IH]; intros u Hu.
  - cbn [replicate ui_run ui_step mbind option_bind].
    destruct (effect_run_one_timer u Hu) as (H1 & H2 & H3 & H4).
    eexists. split; [reflexivity|]. split; [exact H1|]. split; [exact H4|].
    eauto.
  - change (replicate (S (S m)) Ui_effect)
      with (Ui_effect :: replicate (S m) Ui_effect).
    cbn [ui_run ui_step mbind option_bind].
    destruct (effect_run_one_timer u Hu) as (H1 & _ & _ & H4).
    destruct (IH (effect_run u) H1) as (u' & Hrun & Hu' & Hpage & Ht).
    exists u'. split; [exact Hrun|]. split; [exact Hu'|].
    split; [congruence | exact Ht].
Qed.

(** X16.  The debounce of the effect: at any time at most one timer is
    pending, the one recorded in [processTimeout].  After any history, a
    burst of effect runs leaves exactly one pending timer, and when it
    fires exactly one message is posted, with the parameters then in
    force, and no timer remains. *)
Theorem effect_debounce (es : list ui_event) (m : nat) :
  exists u u1 t u2,
    ui_run initial_ui es = Some u /\
    (forall t', t' ∈ pending_timers u -> processTimeout u = Some t') /\
    ui_run initial_ui (es ++ replicate (S m) Ui_effect) = Some u1 /\
    pending_timers u1 = {[ t ]} /\
    ui_run initial_ui (es ++ replicate (S m) Ui_effect ++ [Ui_timer t])
    = Some u2 /\
    posted (ui_page u2) = posted (ui_page u) ++ [live_request (ui_page u)] /\
    pending_timers u2 = ∅.
Proof.
  destruct (ui_run_one_timer es initial_ui initial_ui_one_timer)
    as (u & Hrun & Hu).
  destruct (effect_burst m u Hu) as (u1 & Hrun1 & Hu1 & Hpage & t & Ht & Hpt).
  pose proof Hu1 as [(Hw & Hi & Hp & Hr) _].
  exists u, u1, t. eexists.
  split; [exact Hrun|]. split; [apply Hu|].
  split; [rewrite ui_run_app, Hrun; exact Hrun1|].
  split; [exact Ht|].
  rewrite app_assoc, ui_run_app, ui_run_app, Hrun. cbn [mbind option_bind].
  rewrite Hrun1. cbn [mbind option_bind ui_run ui_step]. unfold timer_fire.
  destruct (decide (t ∈ pending_timers u1)) as [_|Hout];
    [|exfalso; apply Hout; rewrite Ht; apply elem_of_singleton; reflexivity].
  rewrite (processAndRender_idle _ Hw Hi Hp Hr). cbn [mbind option_bind].
  split; [reflexivity|]. cbn [ui_page pending_timers].
  split; [|set_solver].
  cbn [post_message posted]. rewrite Hpage. reflexivity.
Qed.

(** Three changes of the controls in a row, then the timer: one message. *)
Example debounce_demo :
  (fun u => length (posted (ui_page u)))
    <$> ui_run initial_ui
          [Ui_effect; Ui_page (Set_params true (8 # 1) true 4); Ui_effect;
           Ui_page (Set_params true (8 # 1) false 4); Ui_effect;
           Ui_timer 0; Ui_timer 1; Ui_timer 2]
  = Some 1%nat.
Proof. vm_compute. reflexivity. Qed.

(** ** One clustering iteration *)

Lemma color_add_assoc (p q t : color) :
  color_add p (color_add q t) = color_add (color_add p q) t.
Proof.
  destruct p as [[r g] b], q as [[r1 g1] b1], t as [[r2 g2] b2].
  unfold color_add. f_equal; [f_equal|]; lia.
Qed.

Lemma color_add_zero (p : color) :
  color_add p (0, 0, 0) = color_add (0, 0, 0) p.
Proof.
  destruct p as [[r g] b]. unfold color_add. f_equal; [f_equal|]; lia.
Qed.

Lemma color_sum_snoc (l : list color) (p : color) :
  color_sum (l ++ [p]) = color_add (color_sum l) p.
Proof.
  unfold color_sum. induction l as [|q l IH]; cbn [app foldr].
  - apply color_add_zero.
  - rewrite IH. apply color_add_assoc.
Qed.

Lemma accumulated_init (f : color -> nat) (K : nat) :
  accumulated f K [] (replicate K (Some 0, Some 0, Some 0)) (replicate K 0).
Proof.
  split; [apply length_replicate|]. split; [apply length_replicate|].
  intros c Hc. rewrite !lookup_replicate_2 by exact Hc. split; reflexivity.
Qed.

Lemma add_sample_accumulated (f : color -> nat) (K : nat)
    (done : list color) (sums : list RGB) (counts : list Z) (p : color) :
  accumulated f K done sums counts -> (f p < K)%nat ->
  exists sums' counts',
    add_sample (sums, counts) (rgb_of p, f p) = Some (sums', counts') /\
    accumulated f K (done ++ [p]) sums' counts'.
Proof.
  intros (Hs & Hc & Hacc) Hlt. destruct p as [[r g] b].
  destruct (Hacc (f (r, g, b)) Hlt) as [Hsum Hcnt].
  unfold add_sample. cbn [rgb_of].
  destruct (color_sum (filter (fun q => f q = f (r, g, b)) done))
    as [[s0 s1] s2] eqn:Es.
  cbn [rgb_of] in Hsum. rewrite Hsum, Hcnt. cbn [mbind option_bind num_op].
  eexists _, _. split; [reflexivity|].
  split; [rewrite length_insert; exact Hs|].
  split; [rewrite length_insert; exact Hc|].
  intros c Hck. rewrite filter_app.
  destruct (decide (c = f (r, g, b))) as [->|Hne].
  - rewrite !list_lookup_insert_eq by lia.
    rewrite (filter_cons_True _ (r, g, b) []) by reflexivity.
    rewrite filter_nil, color_sum_snoc, Es, length_app.
    cbn [color_add rgb_of length].
    split; [reflexivity | f_equal; lia].
  - rewrite !list_lookup_insert_ne by auto.
    rewrite (filter_cons_False _ (r, g, b) []) by auto.
    rewrite filter_nil, app_nil_r.
    apply Hacc. exact Hck.
Qed.

Lemma accumulate_accumulated (f : color -> nat) (K : nat) (ss : list color) :
  Forall (fun p => (f p < K)%nat) ss ->
  forall (done : list color) (sums : list RGB) (counts : list Z),
    accumulated f K done sums counts ->
    exists sums' counts',
      accumulate (map (fun p => (rgb_of p, f p)) ss) (sums, counts)
      = Some (sums', counts') /\
      accumulated f K (done ++ ss) sums' counts'.
Proof.
  induction 1 as [|p ss Hp _ IH]; intros done sums counts Hacc;
    cbn [map accumulate].
  - rewrite app_nil_r. eauto.
  - destruct (add_sample_accumulated f K done sums counts p Hacc Hp)
      as (sums1 & counts1 & -> & Hacc1).
    cbn [mbind option_bind].
    destruct (IH _ _ _ Hacc1) as (sums2 & counts2 & E & Hacc2).
    exists sums2, counts2. split; [exact E|].
    rewrite <- app_assoc in Hacc2. exact Hacc2.
Qed.

Lemma zip_map_assignments (g : RGB -> nat) (ss : list color) :
  zip (map rgb_of ss) (map g (map rgb_of ss))
  = map (fun p => (rgb_of p, g (rgb_of p))) ss.
Proof. induction ss as [|p ss IH]; simpl; [reflexivity | f_equal; exact IH]. Qed.

Lemma round_div_rounded_mean (l : list color) :
  l <> [] ->
  let '(s0, s1, s2) := color_sum l in
  (round_div (Some s0) (Z.of_nat (length l)),
   round_div (Some s1) (Z.of_nat (length l)),
   round_div (Some s2) (Z.of_nat (length l)))
  = rgb_of (rounded_mean l).
Proof.
  intros _. unfold rounded_mean.
  destruct (color_sum l) as [[s0 s1] s2]. reflexivity.
Qed.

Lemma elem_of_map_rgb_of (ss : list color) (s : RGB) :
  s ∈ map rgb_of ss -> exists p, p ∈ ss /\ s = rgb_of p.
Proof.
  induction ss as [|q ss IH]; simpl; intros Hin.
  - inversion Hin.
  - apply elem_of_cons in Hin as [->|Hin].
    + exists q. split; [left | reflexivity].
    + destruct (IH Hin) as (p & Hp & ->). exists p. split; [right; exact Hp | reflexivity].
Qed.

(** The update step in terms of the clusters of the assignment step. *)
Lemma kmeans_iter_clusters (r : rng) (ss cs : list color) (k : Z) (n : nat) :
  valid_rng r -> ss <> [] -> 1 <= k -> length cs = Z.to_nat k ->
  exists (centers' : list RGB) (n' : nat),
    kmeans_iter r (map rgb_of ss) k (map rgb_of cs, n) = Some (centers', n') /\
    length centers' = Z.to_nat k /\
    forall (c : nat) (e : RGB), centers' !! c = Some e ->
      (assigned cs ss c <> [] ->
         e = rgb_of (rounded_mean (assigned cs ss c))) /\
      (assigned cs ss c = [] -> exists p, p ∈ ss /\ e = rgb_of p).
Proof.
  intros Hr Hss Hk Hlen. unfold kmeans_iter. cbv zeta.
  set (K := Z.to_nat k) in *.
  set (f := fun p : color => nearest (map rgb_of cs) (rgb_of p)).
  assert (Hcne : map rgb_of cs <> [])
    by (destruct cs; [simpl in Hlen; lia | discriminate]).
  assert (Hf : Forall (fun p => (f p < K)%nat) ss).
  { apply Forall_forall. intros p _. unfold f.
    pose proof (nearest_bound (rgb_of p) _ Hcne) as Hb.
    rewrite length_map, Hlen in Hb. exact Hb. }
  rewrite zip_map_assignments.
  destruct (accumulate_accumulated f K ss Hf [] _ _ (accumulated_init f K))
    as (sums & counts & Hacc & Hs & Hc & Hcl).
  unfold f in Hacc. cbv beta in Hacc.
  rewrite Hacc. cbn [mbind option_bind].
  change ([] ++ ss) with ss in Hcl.
  assert (Hslen : (0 < length (map rgb_of ss))%nat)
    by (rewrite length_map; destruct ss; [congruence | simpl; lia]).
  destruct (for_loop_inv
    (fun (c : Z) (st : option (list RGB * nat)) =>
       0 <= c <= k /\
       exists cur n', st = Some (cur, n') /\ length cur = K /\
         forall (i : nat) (e : RGB), (i < Z.to_nat c)%nat ->
           cur !! i = Some e ->
           (assigned cs ss i <> [] ->
              e = rgb_of (rounded_mean (assigned cs ss i))) /\
           (assigned cs ss i = [] -> exists p, p ∈ ss /\ e = rgb_of p))
    (fun c st => st ≫= update_center r (map rgb_of ss) sums counts c)
    k 1 ltac:(lia)) with (i := 0) (s := Some (map rgb_of cs, n))
    as (j & Hj & Hjk & cur & n' & Hst & Hcur & Hfin).
  - intros c st Hc' (Hc0 & cur & n' & -> & Hcur & Hdone). split; [lia|].
    cbn [mbind option_bind]. unfold update_center.
    assert (HcK : (Z.to_nat c < K)%nat) by (unfold K; lia).
    destruct (Hcl (Z.to_nat c) HcK) as [Hsum Hcnt].
    fold (assigned cs ss (Z.to_nat c)) in Hsum, Hcnt.
    assert (Elc : lookupZ counts c
                  = Some (Z.of_nat (length (assigned cs ss (Z.to_nat c))))).
    { rewrite <- (Z2Nat.id c) at 1 by lia. rewrite lookupZ_of_nat. exact Hcnt. }
    assert (Els : lookupZ sums c
                  = Some (rgb_of (color_sum (assigned cs ss (Z.to_nat c))))).
    { rewrite <- (Z2Nat.id c) at 1 by lia. rewrite lookupZ_of_nat. exact Hsum. }
    destruct (lookupZ_lt_is_Some cur c ltac:(lia)) as [old Hold].
    destruct (random_sample_Some r (map rgb_of ss) n' Hr Hslen)
      as (s & Hrs & Hsin).
    rewrite Elc, Els, Hold, Hrs. cbn [mbind option_bind].
    assert (Hnew : forall (x : RGB) (n1 : nat),
      ((assigned cs ss (Z.to_nat c) <> [] ->
          x = rgb_of (rounded_mean (assigned cs ss (Z.to_nat c)))) /\
       (assigned cs ss (Z.to_nat c) = [] -> exists p, p ∈ ss /\ x = rgb_of p)) ->
      exists (cur1 : list RGB) (n2 : nat),
        Some (<[Z.to_nat c := x]> cur, n1) = Some (cur1, n2) /\
        length cur1 = K /\
        forall (i : nat) (e : RGB), (i < Z.to_nat (c + 1))%nat ->
          cur1 !! i = Some e ->
          (assigned cs ss i <> [] ->
             e = rgb_of (rounded_mean (assigned cs ss i))) /\
          (assigned cs ss i = [] -> exists p, p ∈ ss /\ e = rgb_of p)).
    { intros x n1 Hx. eexists _, _. split; [reflexivity|].
      split; [rewrite length_insert; exact Hcur|].
      intros i e Hi He.
      destruct (decide (i = Z.to_nat c)) as [->|Hne].
      - rewrite list_lookup_insert_eq in He by lia.
        injection He as <-. exact Hx.
      - rewrite list_lookup_insert_ne in He by auto.
        apply (Hdone i e); [lia | exact He]. }
    destruct (assigned cs ss (Z.to_nat c)) as [|q cl] eqn:Ecl.
    + cbn [length Z.of_nat]. change (0 <? 0) with false. cbn iota.
      apply Hnew. split; [congruence|]. intros _.
      apply elem_of_map_rgb_of. exact Hsin.
    + destruct (Z.ltb_spec 0 (Z.of_nat (length (q :: cl)))) as [_|Hbad];
        [|simpl in Hbad; lia].
      pose proof (round_div_rounded_mean (q :: cl) ltac:(discriminate)) as Hm.
      destruct (color_sum (q :: cl)) as [[s0 s1] s2]. cbn [rgb_of].
      apply Hnew. split; [intros _; exact Hm | discriminate].
  - split; [lia|]. exists (map rgb_of cs), n. split; [reflexivity|].
    split; [rewrite length_map; exact Hlen|].
    intros i e Hi. simpl in Hi. lia.
  - assert (j = k) by lia. subst j.
    exists cur, n'. split; [exact Hst|]. split; [exact Hcur|].
    intros c e He. apply (Hfin c e); [|exact He].
    apply lookup_lt_Some in He. fold K. lia.
Qed.

(** X17.  One clustering iteration on samples [ss] and centroids [cs]
    (colours, [k] centroids): each sample is given to its nearest
    centroid (lowest index on ties); afterwards a centroid whose cluster
    is not empty is the channel-wise rounded mean of its cluster, and a
    centroid whose cluster is empty is replaced by one of the samples.
    The iteration returns and keeps [k] centroids. *)
Theorem kmeans_iteration (r : rng) (ss cs : list color) (k : Z) (n : nat) :
  valid_rng r -> ss <> [] -> 1 <= k -> length cs = Z.to_nat k ->
  exists (centers' : list RGB) (n' : nat),
    kmeans_iter r (map rgb_of ss) k (map rgb_of cs, n) = Some (centers', n') /\
    length centers' = Z.to_nat k /\
    forall (c : nat) (e : RGB), centers' !! c = Some e ->
      (assigned cs ss c <> [] ->
         e = rgb_of (rounded_mean (assigned cs ss c))) /\
      (assigned cs ss c = [] -> exists p, p ∈ ss /\ e = rgb_of p).
Proof.
  intros Hr Hss Hk Hlen.
  destruct (kmeans_iter_clusters r ss cs k n Hr Hss Hk Hlen)
    as (centers' & n' & Hrun & Hl & Hcl).
  exists centers', n'. split; [exact Hrun|]. split; [exact Hl | exact Hcl].
Qed.

Lemma kmeans_iteration_witness :
  valid_rng demo_rng /\
  [(0, 0, 0); (10, 0, 0); (200, 200, 200); (210, 200, 200)] <> [] /\
  1 <= 2 /\
  length [(0, 0, 0); (200, 200, 200)] = Z.to_nat 2 /\
  exists (centers' : list RGB) (n' : nat),
    kmeans_iter demo_rng
      (map rgb_of [(0, 0, 0); (10, 0, 0); (200, 200, 200); (210, 200, 200)])
      2 (map rgb_of [(0, 0, 0); (200, 200, 200)], 0%nat)
    = Some (centers', n') /\
    length centers' = Z.to_nat 2.
Proof.
  split; [exact demo_rng_valid|]. split; [discriminate|]. split; [lia|].
  split; [reflexivity|].
  destruct (kmeans_iteration demo_rng
              [(0, 0, 0); (10, 0, 0); (200, 200, 200); (210, 200, 200)]
              [(0, 0, 0); (200, 200, 200)] 2 0 demo_rng_valid
              ltac:(discriminate) ltac:(lia) eq_refl)
    as (c' & n' & H1 & H2 & _).
  exists c', n'. split; [exact H1 | exact H2].
Defined.

(** Scenario A of the specification, one iteration from one dark and one
    light seed: the dark pair and the light pair are averaged
    separately. *)
Example kmeans_scenario_A :
  kmeans_iter demo_rng
    (map rgb_of [(0, 0, 0); (10, 0, 0); (200, 200, 200); (210, 200, 200)])
    2 (map rgb_of [(0, 0, 0); (200, 200, 200)], 0%nat)
  = Some (map rgb_of [(5, 0, 0); (205, 200, 200)], 0%nat).
Proof. vm_compute. reflexivity. Qed.

Lemma assigned_single (c0 : color) (ss : list color) :
  assigned [c0] ss 0 = ss.
Proof.
  unfold assigned. induction ss as [|p ss IH]; [reflexivity|].
  rewrite filter_cons_True.
  - f_equal. exact IH.
  - pose proof (nearest_bound (rgb_of p) (map rgb_of [c0]) ltac:(discriminate))
      as Hb. rewrite length_map in Hb. cbn [length] in Hb. lia.
Qed.

(** X18.  With a palette size of 1 or less and at least one iteration, the
    palette of a well-formed, non-empty image is the single colour that
    is the channel-wise rounded mean of the samples. *)
Theorem buildPalette_mean_colour (r : rng) (σ : gmap loc (list Z))
    (img : ImageData) (k maxIters : Z) (n : nat) (d : list Z) :
  valid_rng r ->
  σ !! data img = Some d ->
  well_formed (width img) (height img) d ->
  0 < width img * height img ->
  k <= 1 -> 1 <= maxIters ->
  exists (ss : list color) (n' : nat),
    collect_samples (width img) (height img) d = map rgb_of ss /\
    ss <> [] /\
    buildPalette r σ img k maxIters n
    = Some ([rgb_of (rounded_mean ss)], n').
Proof.
  intros Hr Hσ Hwf Htot Hk Hit. unfold buildPalette, build_palette. cbv zeta.
  rewrite (bytes_of_lookup σ _ d Hσ).
  destruct (byte_rgb_colors _ (collect_samples_bytes _ _ d Hwf))
    as (ss & Hss & _).
  pose proof (collect_samples_nonempty _ _ d Htot) as Hlen.
  rewrite Hss in *. rewrite length_map in Hlen.
  assert (Hne : ss <> []) by (destruct ss; [simpl in Hlen; lia | discriminate]).
  rewrite length_map.
  destruct (Nat.eqb_spec (length ss) 0) as [E|_]; [lia|].
  assert (Hck : clamp_k k = 1) by (unfold clamp_k; lia). rewrite Hck.
  destruct (seed_centers_spec r (map rgb_of ss) 1 n Hr
              ltac:(rewrite length_map; exact Hlen) ltac:(lia))
    as (centers & -> & Hl & Hin).
  destruct centers as [|s0 [|? ?]]; try discriminate Hl.
  apply Forall_cons in Hin as [Hs0 _].
  apply elem_of_map_rgb_of in Hs0 as (c0 & _ & ->).
  destruct (for_loop_inv
    (fun (i : Z) (st : option (list RGB * nat)) =>
       0 <= i /\
       exists (c : color) (n1 : nat),
         st = Some ([rgb_of c], n1) /\ (1 <= i -> c = rounded_mean ss))
    (fun _ st => st ≫= kmeans_iter r (map rgb_of ss) 1)
    maxIters 1 ltac:(lia)) with (i := 0)
      (s := Some ([rgb_of c0], (n + Z.to_nat 1)%nat))
    as (j & Hj & _ & c & n1 & Hst & Hc).
  - intros i st _ (Hi & c & n1 & -> & _). split; [lia|].
    cbn [mbind option_bind].
    destruct (kmeans_iter_clusters r ss [c] 1 n1 Hr Hne ltac:(lia) eq_refl)
      as (centers' & n2 & Hrun & Hl2 & Hcl).
    change (map rgb_of [c]) with [rgb_of c] in Hrun. rewrite Hrun.
    destruct centers' as [|e [|? ?]]; try discriminate Hl2.
    destruct (Hcl 0%nat e eq_refl) as [Hmean _].
    rewrite assigned_single in Hmean. rewrite (Hmean Hne).
    exists (rounded_mean ss), n2. split; [reflexivity | auto].
  - split; [lia|]. exists c0, (n + Z.to_nat 1)%nat. split; [reflexivity | lia].
  - exists ss, n1. split; [reflexivity|]. split; [exact Hne|].
    rewrite Hst, (Hc ltac:(lia)). reflexivity.
Qed.

Lemma buildPalette_mean_colour_witness :
  valid_rng demo_rng /\
  demo_store !! data demo_image = Some demo_bytes /\
  well_formed (width demo_image) (height demo_image) demo_bytes /\
  0 < width demo_image * height demo_image /\
  1 <= 1 /\ 1 <= 8 /\
  exists (ss : list color) (n' : nat),
    collect_samples (width demo_image) (height demo_image) demo_bytes
    = map rgb_of ss /\
    ss <> [] /\
    buildPalette demo_rng demo_store demo_image 1 8 0
    = Some ([rgb_of (rounded_mean ss)], n').
Proof.
  split; [exact demo_rng_valid|]. split; [reflexivity|].
  split; [exact demo_well_formed|]. split; [simpl; lia|].
  split; [lia|]. split; [lia|].
  exact (buildPalette_mean_colour demo_rng demo_store demo_image 1 8 0
           demo_bytes demo_rng_valid eq_refl demo_well_formed
           ltac:(simpl; lia) ltac:(lia) ltac:(lia)).
Defined.

(** The mean colour of the 2x2 image: (355/4, 355/4, 355/4) rounded. *)
Example buildPalette_mean_demo :
  buildPalette demo_rng demo_store demo_image 1 8 0
  = Some ([(Some 89, Some 89, Some 89)], 1%nat).
Proof. vm_compute. reflexivity. Qed.

(** ** Pixelation at two block sizes *)




